(** * Task tracker and GitHub activity formatter: a shallow embedding

    The two programs of the repository are embedded as Rocq functions:

    - [Task Tracker Python/main.py]: the classes [Task] and [TaskTracker]
      (module [Tracker] below), over an explicit file system and console;
    - [github-user-activity/main.py]: [format_event] and the printing loop
      of [main] (module [Activity] below).

    Python values are modelled by the type [json] (the values that
    [json.load] can produce), Python [str] by lists of code points, and
    Python exceptions by the type [exn].  The functions of the [json]
    module that the programs call ([json.load], [json.dump] with
    [indent=4]) are modelled in module [Json], on text.

    The two [main] functions are embedded from the parsed arguments on
    (modules [TrackerMain] and [ActivityMain]); the network of
    [fetch_github_events] is a parameter, the reply to a request.

    What the model leaves out: the content of a file is the text that
    reading it yields (the encoding of text into bytes is not modelled:
    a file whose bytes are not text is a node of its own, as is a file
    that the process may not read); a float is the lexeme that denotes
    it; the limits of the interpreter (recursion depth, digits of an
    integer literal) do not exist, so [Json.loads] raises nothing but a
    [JSONDecodeError], and the statements about a store file that the
    program did not write name what [json.load] returns or raises on
    its text; a file operation fails only for the state of the file
    system, for a path that the process may not write or for a file
    that it cannot read, and printing does not fail; [argparse] is not
    modelled; the text form of floats and containers and the Unicode
    case mappings are parameters of the formatter. *)

From Stdlib Require Import ZArith NArith List String Ascii Lia Bool.
From stdpp Require Import base option list gmap strings.

Set Warnings "-register-all".
Local Open Scope N_scope.

(** ** Text: Python [str] as a list of code points *)

Abbreviation char := N (only parsing).
Abbreviation text := (list N) (only parsing).

(** The text of an ASCII literal. *)
Definition txt (s : string) : text :=
  map N_of_ascii (list_ascii_of_string s).

(** The double quote, written by its code point. *)
Definition dquote : char := 34.
Definition backslash : char := 92.

(** ["s"], the literal [s] between double quotes. *)
Definition quoted (s : string) : text := dquote :: txt s ++ [dquote].

(** [str.isspace] on one code point: the code points that [str.strip()]
    removes (CPython's [_PyUnicode_IsWhitespace]). *)
Definition isspace (c : char) : bool :=
  ((9 <=? c) && (c <=? 13)) || ((28 <=? c) && (c <=? 32))
  || (c =? 133) || (c =? 160) || (c =? 5760)
  || ((8192 <=? c) && (c <=? 8202))
  || (c =? 8232) || (c =? 8233) || (c =? 8239) || (c =? 8287)
  || (c =? 12288).

(** [s.lstrip()], [s.rstrip()], [s.strip()]. *)
Fixpoint lstrip (s : text) : text :=
  match s with
  | c :: s' => if isspace c then lstrip s' else s
  | [] => []
  end.

Definition rstrip (s : text) : text := rev (lstrip (rev s)).

Definition strip (s : text) : text := rstrip (lstrip s).

(** ** Python values and exceptions *)

(** The values [json.load] produces.  A [dict] keeps its insertion order,
    so it is an association list (with distinct keys when it comes from
    the parser).  A number with a fraction or an exponent is kept as the
    lexeme it was read from: float arithmetic is outside the model. *)
Inductive json : Type :=
| JNull
| JBool (b : bool)
| JInt (n : Z)
| JFloat (lexeme : text)
| JStr (s : text)
| JArr (items : list json)
| JObj (members : list (text * json)).

(** The class of a value, as [type(data)] reports it. *)
Inductive pytype := NoneType | PyBool | PyInt | PyFloat | PyStr | PyList | PyDict.

Definition type_of (v : json) : pytype :=
  match v with
  | JNull => NoneType
  | JBool _ => PyBool
  | JInt _ => PyInt
  | JFloat _ => PyFloat
  | JStr _ => PyStr
  | JArr _ => PyList
  | JObj _ => PyDict
  end.

(** The operating-system errors the file operations raise; all of them
    are subclasses of [OSError], which [IOError] is an alias of. *)
Inductive os_error :=
| FileNotFoundError | FileExistsError | IsADirectoryError
| NotADirectoryError | PermissionError.

Inductive exn :=
| JSONDecodeError
| KeyError (key : text)
| TypeError
| AttributeError (attr : string)
| IndexError
| OSError (e : os_error)
| RecursionError
| UnicodeDecodeError.

Inductive result (A : Type) :=
| Ok (a : A)
| Raise (e : exn).
Arguments Ok {A} a.
Arguments Raise {A} e.

(** [result] is a monad: an exception raised by a step is raised by the
    whole sequence.  The notation [x ← step; rest] is stdpp's. *)
#[global] Instance result_ret : MRet result := fun A a => Ok a.
#[global] Instance result_bind : MBind result := fun A B k r =>
  match r with
  | Ok a => k a
  | Raise e => Raise e
  end.

(** [isinstance(e, IOError)]. *)
Definition is_IOError (e : exn) : bool :=
  match e with OSError _ => true | _ => false end.

(** Equality of texts, as a boolean. *)
Definition text_eqb (a b : text) : bool := bool_decide (a = b).

(** [d[k]] on the members of a [dict]. *)
Fixpoint dict_get (k : text) (d : list (text * json)) : option json :=
  match d with
  | [] => None
  | (k', v) :: d' => if text_eqb k k' then Some v else dict_get k d'
  end.

(** [d[k] = v] on the members of a [dict]: an existing key keeps its
    place and takes the new value, a new key goes to the end. *)
Fixpoint dict_set (k : text) (v : json) (d : list (text * json))
  : list (text * json) :=
  match d with
  | [] => [(k, v)]
  | (k', v') :: d' =>
      if text_eqb k k' then (k, v) :: d' else (k', v') :: dict_set k v d'
  end.

(** [x[k]] for a string key [k]: a [dict] is looked up ([KeyError] for a
    missing key); no other value of the model can be subscripted by a
    string ([TypeError]). *)
Definition subscript (x : json) (k : text) : result json :=
  match x with
  | JObj d =>
      match dict_get k d with
      | Some v => Ok v
      | None => Raise (KeyError k)
      end
  | _ => Raise TypeError
  end.

(** [x.get(k, default)]: defined on a [dict] only. *)
Definition get_default (x : json) (k : text) (default : json) : result json :=
  match x with
  | JObj d =>
      match dict_get k d with
      | Some v => Ok v
      | None => Ok default
      end
  | _ => Raise (AttributeError "get")
  end.

(** ** The [json] module on text *)

Module Json.

(** *** Writing: [json.dump(obj, f, indent=4)]

    With [indent=4] the encoder uses the separators [","] and [": "],
    puts every item on a line of its own, indented by four spaces per
    level, and escapes everything outside printable ASCII
    ([ensure_ascii=True]). *)

Definition hexdigit (d : N) : char :=
  if d <? 10 then 48 + d else 87 + d.

(** ['{0:04x}'.format(n)] *)
Definition hex4 (n : N) : text :=
  [hexdigit (n / 4096 mod 16); hexdigit (n / 256 mod 16);
   hexdigit (n / 16 mod 16); hexdigit (n mod 16)].

Definition uescape (n : N) : text := backslash :: 117 :: hex4 n.

(** One character of a string, as [encode_basestring_ascii] writes it. *)
Definition escape_char (c : char) : text :=
  if c =? 34 then [backslash; 34]
  else if c =? 92 then [backslash; 92]
  else if c =? 10 then [backslash; 110]
  else if c =? 13 then [backslash; 114]
  else if c =? 9 then [backslash; 116]
  else if c =? 12 then [backslash; 102]
  else if c =? 8 then [backslash; 98]
  else if (32 <=? c) && (c <=? 126) then [c]
  else if c <? 65536 then uescape c
  else
    let v := c - 65536 in
    uescape (N.lor 55296 (N.land (N.shiftr v 10) 1023))
    ++ uescape (N.lor 56320 (N.land v 1023)).

Definition encode_string (s : text) : text :=
  dquote :: concat (map escape_char s) ++ [dquote].

(** The decimal digits of [n], most significant first, put before
    [acc]; [fuel] bounds the number of digits. *)
Fixpoint digits_before (fuel : nat) (n : N) (acc : text) : text :=
  match fuel with
  | O => acc
  | S fuel' =>
      let acc' := (48 + n mod 10) :: acc in
      if n <? 10 then acc' else digits_before fuel' (n / 10) acc'
  end.

(** A number has no more decimal digits than binary ones. *)
Definition decimal_N (n : N) : text :=
  digits_before (S (N.to_nat (N.log2 n))) n [].

(** [str(n)] for an [int]. *)
Definition decimal (n : Z) : text :=
  match n with
  | Z0 => [48]
  | Zpos p => decimal_N (Npos p)
  | Zneg p => 45 :: decimal_N (Npos p)
  end.

(** A line break followed by the indentation of level [lvl]. *)
Definition newline_indent (lvl : nat) : text :=
  10 :: repeat 32 (4 * lvl)%nat.

Fixpoint join (sep : text) (chunks : list text) : text :=
  match chunks with
  | [] => []
  | [c] => c
  | c :: cs => c ++ sep ++ join sep cs
  end.

Fixpoint encode (lvl : nat) (v : json) : text :=
  match v with
  | JNull => txt "null"
  | JBool true => txt "true"
  | JBool false => txt "false"
  | JInt n => decimal n
  | JFloat lexeme => lexeme
  | JStr s => encode_string s
  | JArr [] => txt "[]"
  | JArr items =>
      txt "[" ++ newline_indent (S lvl)
      ++ join (txt "," ++ newline_indent (S lvl)) (map (encode (S lvl)) items)
      ++ newline_indent lvl ++ txt "]"
  | JObj [] => txt "{}"
  | JObj members =>
      txt "{" ++ newline_indent (S lvl)
      ++ join (txt "," ++ newline_indent (S lvl))
           (map (fun kv => encode_string (fst kv) ++ txt ": "
                           ++ encode (S lvl) (snd kv)) members)
      ++ newline_indent lvl ++ txt "}"
  end.

(** The text [json.dump(obj, f, indent=4)] writes to [f]. *)
Definition dumps (obj : json) : text := encode 0 obj.

(** *** Reading: [json.load(f)]

    The scanner follows CPython's [_json] accelerator: insignificant
    whitespace is space, tab, line feed and carriage return; strings are
    scanned in strict mode; [NaN], [Infinity] and [-Infinity] are
    accepted.  Every syntax error is a [JSONDecodeError]. *)

Definition is_ws (c : char) : bool :=
  (c =? 32) || (c =? 9) || (c =? 10) || (c =? 13).

Fixpoint skip_ws (s : text) : text :=
  match s with
  | c :: s' => if is_ws c then skip_ws s' else s
  | [] => []
  end.

Definition is_digit (c : char) : bool := (48 <=? c) && (c <=? 57).

Definition hexval (c : char) : option N :=
  if is_digit c then Some (c - 48)
  else if (97 <=? c) && (c <=? 102) then Some (c - 87)
  else if (65 <=? c) && (c <=? 70) then Some (c - 55)
  else None.

(** The value of four hexadecimal digits. *)
Definition unhex4 (a b c d : char) : option N :=
  a ← hexval a; b ← hexval b; c ← hexval c; d ← hexval d;
  Some (((a * 16 + b) * 16 + c) * 16 + d).

Definition is_high_surrogate (u : N) : bool := (55296 <=? u) && (u <=? 56319).
Definition is_low_surrogate (u : N) : bool := (56320 <=? u) && (u <=? 57343).

Definition join_surrogates (hi lo : N) : N :=
  65536 + (N.lor (N.shiftl (N.land hi 1023) 10) (N.land lo 1023)).

(** The character a one-letter escape stands for. *)
Definition simple_escape (e : char) : option char :=
  if e =? 34 then Some 34
  else if e =? 92 then Some 92
  else if e =? 47 then Some 47
  else if e =? 98 then Some 8
  else if e =? 102 then Some 12
  else if e =? 110 then Some 10
  else if e =? 114 then Some 13
  else if e =? 116 then Some 9
  else None.

(** [scanstring]: the text after an opening quote, up to the closing
    quote; returns the string and the text after the closing quote.  A
    high surrogate escape directly followed by a low surrogate escape is
    one character. *)
Fixpoint scanstring (s : text) : result (text * text) :=
  match s with
  | [] => Raise JSONDecodeError
  | c :: s1 =>
      if c =? 34 then Ok ([], s1)
      else if c =? 92 then
        match s1 with
        | [] => Raise JSONDecodeError
        | e :: s2 =>
            if e =? 117 then
              match s2 with
              | h1 :: h2 :: h3 :: h4 :: s3 =>
                  match unhex4 h1 h2 h3 h4 with
                  | None => Raise JSONDecodeError
                  | Some u =>
                      let single :=
                        '(str, rest) ← scanstring s3; Ok (u :: str, rest) in
                      if is_high_surrogate u then
                        match s3 with
                        | b :: l :: g1 :: g2 :: g3 :: g4 :: s4 =>
                            if (b =? 92) && (l =? 117) then
                              match unhex4 g1 g2 g3 g4 with
                              | None => Raise JSONDecodeError
                              | Some u2 =>
                                  if is_low_surrogate u2 then
                                    '(str, rest) ← scanstring s4;
                                    Ok (join_surrogates u u2 :: str, rest)
                                  else single
                              end
                            else single
                        | _ => single
                        end
                      else single
                  end
              | _ => Raise JSONDecodeError
              end
            else
              match simple_escape e with
              | Some ch => '(str, rest) ← scanstring s2; Ok (ch :: str, rest)
              | None => Raise JSONDecodeError
              end
        end
      else if c <? 32 then Raise JSONDecodeError
      else '(str, rest) ← scanstring s1; Ok (c :: str, rest)
  end.

(** The longest prefix of digits, and the rest. *)
Fixpoint span_digits (s : text) : text * text :=
  match s with
  | c :: s' =>
      if is_digit c then let '(ds, r) := span_digits s' in (c :: ds, r)
      else ([], s)
  | [] => ([], [])
  end.

(** [int(digits)] for a text of decimal digits. *)
Definition digits_value (ds : text) : Z :=
  fold_left (fun acc d => (acc * 10 + (Z.of_N d - 48))%Z) ds 0%Z.

(** The integer part of a number: [0], or a non-zero digit and digits. *)
Definition scan_int_part (s : text) : option (text * text) :=
  match s with
  | c :: s' =>
      if c =? 48 then Some ([c], s')
      else if is_digit c then
        let '(ds, r) := span_digits s' in Some (c :: ds, r)
      else None
  | [] => None
  end.

(** An optional fraction: a dot and at least one digit. *)
Definition scan_frac (s : text) : text * text :=
  match s with
  | c :: s' =>
      if c =? 46 then
        match span_digits s' with
        | ([], _) => ([], s)
        | (ds, r) => (c :: ds, r)
        end
      else ([], s)
  | [] => ([], s)
  end.

(** An optional exponent: [e] or [E], an optional sign, at least one
    digit. *)
Definition scan_exp (s : text) : text * text :=
  match s with
  | c :: s' =>
      if (c =? 101) || (c =? 69) then
        let '(sign, s'') :=
          match s' with
          | g :: t => if (g =? 43) || (g =? 45) then ([g], t) else ([], s')
          | [] => ([], s')
          end in
        match span_digits s'' with
        | ([], _) => ([], s)
        | (ds, r) => (c :: sign ++ ds, r)
        end
      else ([], s)
  | [] => ([], s)
  end.

(** A number: an [int] when it has neither fraction nor exponent. *)
Definition scan_number (s : text) : option (json * text) :=
  let '(sign, s0) :=
    match s with
    | c :: s' => if c =? 45 then ([c], s') else ([], s)
    | [] => ([], s)
    end in
  '(ip, s1) ← scan_int_part s0;
  let '(frac, s2) := scan_frac s1 in
  let '(ex, s3) := scan_exp s2 in
  match frac, ex with
  | [], [] =>
      Some (JInt (if sign is [] then digits_value ip
                  else - digits_value ip)%Z, s3)
  | _, _ => Some (JFloat (sign ++ ip ++ frac ++ ex), s3)
  end.

(** [s] starts with the literal [lit]: the text after it. *)
Fixpoint strip_prefix (lit s : text) : option text :=
  match lit, s with
  | [], _ => Some s
  | a :: lit', b :: s' => if a =? b then strip_prefix lit' s' else None
  | _ :: _, [] => None
  end.

(** [dict(pairs)]: a repeated key keeps its first place and takes its
    last value. *)
Definition dict_of_pairs (pairs : list (text * json)) : list (text * json) :=
  fold_left (fun d kv => dict_set (fst kv) (snd kv) d) pairs [].

(** The scalars: everything [scan_once] accepts that does not start with
    a quote, a brace or a bracket. *)
Definition scan_scalar (s : text) : result (json * text) :=
  match strip_prefix (txt "null") s with
  | Some r => Ok (JNull, r)
  | None =>
  match strip_prefix (txt "true") s with
  | Some r => Ok (JBool true, r)
  | None =>
  match strip_prefix (txt "false") s with
  | Some r => Ok (JBool false, r)
  | None =>
  match strip_prefix (txt "NaN") s with
  | Some r => Ok (JFloat (txt "NaN"), r)
  | None =>
  match strip_prefix (txt "Infinity") s with
  | Some r => Ok (JFloat (txt "Infinity"), r)
  | None =>
  match strip_prefix (txt "-Infinity") s with
  | Some r => Ok (JFloat (txt "-Infinity"), r)
  | None =>
  match scan_number s with
  | Some vr => Ok vr
  | None => Raise JSONDecodeError
  end end end end end end end.

(** [scan_once] with the loops of [JSONArray] and [JSONObject].  Every
    call of the scanner spends one unit of [fuel], and [loads] gives
    enough of it for every text ([loads_outcome] below): the scanner of
    the model never gives up.  The limits of an interpreter, at which
    [json.load] raises a [RecursionError] (a text nested too deep) or a
    [ValueError] (an integer of too many digits), are not modelled.
    [scan_items] reads the text after an opening bracket and a first
    run of whitespace, [scan_members] the same after an opening brace. *)
Fixpoint scan_once (fuel : nat) (s : text) : result (json * text) :=
  match fuel with
  | O => Raise RecursionError
  | S fuel =>
      match s with
      | [] => Raise JSONDecodeError
      | c :: s' =>
          if c =? 34 then
            '(str, rest) ← scanstring s'; Ok (JStr str, rest)
          else if c =? 123 then
            match skip_ws s' with
            | d :: rest =>
                if d =? 125 then Ok (JObj [], rest)
                else '(pairs, rest) ← scan_members fuel (d :: rest);
                     Ok (JObj (dict_of_pairs pairs), rest)
            | [] => Raise JSONDecodeError
            end
          else if c =? 91 then
            match skip_ws s' with
            | d :: rest =>
                if d =? 93 then Ok (JArr [], rest)
                else '(items, rest) ← scan_items fuel (d :: rest);
                     Ok (JArr items, rest)
            | [] => Raise JSONDecodeError
            end
          else scan_scalar s
      end
  end
with scan_items (fuel : nat) (s : text) : result (list json * text) :=
  match fuel with
  | O => Raise RecursionError
  | S fuel =>
      '(v, rest) ← scan_once fuel s;
      match skip_ws rest with
      | c :: rest' =>
          if c =? 93 then Ok ([v], rest')
          else if c =? 44 then
            '(vs, rest'') ← scan_items fuel (skip_ws rest');
            Ok (v :: vs, rest'')
          else Raise JSONDecodeError
      | [] => Raise JSONDecodeError
      end
  end
with scan_members (fuel : nat) (s : text)
  : result (list (text * json) * text) :=
  match fuel with
  | O => Raise RecursionError
  | S fuel =>
      match s with
      | q :: s' =>
          if q =? 34 then
            '(key, rest) ← scanstring s';
            match skip_ws rest with
            | c :: rest' =>
                if c =? 58 then
                  '(v, rest'') ← scan_once fuel (skip_ws rest');
                  match skip_ws rest'' with
                  | e :: rest3 =>
                      if e =? 125 then Ok ([(key, v)], rest3)
                      else if e =? 44 then
                        '(kvs, rest4) ← scan_members fuel (skip_ws rest3);
                        Ok ((key, v) :: kvs, rest4)
                      else Raise JSONDecodeError
                  | [] => Raise JSONDecodeError
                  end
                else Raise JSONDecodeError
            | [] => Raise JSONDecodeError
            end
          else Raise JSONDecodeError
      | [] => Raise JSONDecodeError
      end
  end.

(** [json.loads(s)]: one value, with whitespace around it and nothing
    else.  The fuel is enough for every call the scanner can make on a
    text of this length: a call consumes a character before it makes
    another, and a loop makes two calls for each of its turns. *)
Definition loads (s : text) : result json :=
  '(v, rest) ← scan_once (S (2 * length s)) (skip_ws s);
  match skip_ws rest with
  | [] => Ok v
  | _ :: _ => Raise JSONDecodeError
  end.

End Json.

(** ** The file system and the console *)

(** A path is the list of its components, from the root. *)
Abbreviation path := (list string) (only parsing).

(** A node of the file system.  [File content] is a regular file that
    reads as the text [content].  A regular file that does not read as
    text is [Unreadable] when the process may not open it for reading,
    and [Undecodable] when its bytes are not text in the encoding that
    [open] uses. *)
Inductive node :=
| File (content : text)
| Dir
| Unreadable
| Undecodable.

(** [p.parent] and [p / name]. *)
Definition parent (p : path) : path := removelast p.
Definition child (p : path) (name : string) : path := p ++ [name].

(** The part of a file name before its last dot, when it has a dot. *)
Fixpoint before_last_dot (name : string) : option string :=
  match name with
  | EmptyString => None
  | String c rest =>
      match before_last_dot rest with
      | Some st => Some (String c st)
      | None => if Ascii.eqb c "."%char then Some EmptyString else None
      end
  end.

(** [name] without its suffix; a leading or a final dot starts no
    suffix ([PurePath.suffix]). *)
Definition stem (name : string) : string :=
  match before_last_dot name with
  | Some st =>
      if (String.length st =? 0)%nat
         || (S (String.length st) =? String.length name)%nat
      then name else st
  | None => name
  end.

(** [p.with_suffix(suffix)] *)
Definition with_suffix (p : path) (suffix : string) : path :=
  match p with
  | [] => []
  | _ :: _ => child (parent p) (stem (List.last p EmptyString) +:+ suffix)
  end.

(** A task, as the class [Task] holds it.  The attributes are whatever
    the caller passes: [from_dict] stores the values of the [dict] as
    they are. *)
Record Task := mkTask {
  description : json;
  completed : json;
}.

(** What the tracker prints, one constructor for each [print] of
    [main.py], with the values its f-string interpolates. *)
Inductive message :=
| WarnNotAFile (p : path)
| WarnInvalidFormat (t : pytype)
| ErrLoading (e : exn)
| BackupCreated (p : path)
| BackupFailed (e : exn)
| ErrSaving (e : exn)
| ErrSavingUnexpected (e : exn)
| ErrEmptyDescription
| TaskAdded (t : Task)
| NoTasksFound
| HeaderYourTasks
| HeaderInProgress
| Rule
| Row (i : Z) (t : Task)
| ErrInvalidIndex (len : nat)
| TaskCompleted (i : Z) (t : Task)
| TaskRemoved (t : Task).
(** What a run leaves behind, in order: the lines printed, and the
    entries into [save_tasks] and [create_backup]. *)
Inductive event :=
| Printed (m : message)
| CallSave
| CallBackup.

(** The world of a run: the nodes of the file system, the paths the
    process may not create or write, and the trace so far. *)
Record world := World {
  disk : gmap path node;
  readonly : gset path;
  trace : list event;
}.

Definition emit (e : event) (w : world) : world :=
  World (disk w) (readonly w) (trace w ++ [e]).

Definition print (m : message) (w : world) : world :=
  emit (Printed m) w.

Definition with_disk (d : gmap path node) (w : world) : world :=
  World d (readonly w) (trace w).

(** The node at a path; the root is a directory. *)
Definition node_at (w : world) (p : path) : option node :=
  match p with
  | [] => Some Dir
  | _ :: _ => disk w !! p
  end.

(** [p.exists()] and [p.is_file()] *)
Definition path_exists (w : world) (p : path) : bool :=
  match node_at w p with Some _ => true | None => false end.

Definition is_file (w : world) (p : path) : bool :=
  match node_at w p with
  | Some Dir | None => false
  | Some _ => true
  end.

Definition is_dir (w : world) (p : path) : bool :=
  match node_at w p with Some Dir => true | _ => false end.

(** [open(p, "w")]: the file is created or truncated. *)
Definition open_w (p : path) (w : world) : result world :=
  match node_at w (parent p) with
  | None => Raise (OSError FileNotFoundError)
  | Some Dir =>
      match node_at w p with
      | Some Dir => Raise (OSError IsADirectoryError)
      | _ =>
          if bool_decide (p ∈ readonly w)
          then Raise (OSError PermissionError)
          else Ok (with_disk (<[p := File []]> (disk w)) w)
      end
  | Some _ => Raise (OSError NotADirectoryError)
  end.

(** [f.write(s)] on a file opened at [p]. *)
Definition write (p : path) (s : text) (w : world) : world :=
  match node_at w p with
  | Some (File old) => with_disk (<[p := File (old ++ s)]> (disk w)) w
  | _ => w
  end.

(** [open(p, "r")] and [f.read()]: [open] raises for a path that is
    not there, that is a directory, or that the process may not read;
    [f.read()] raises for bytes that are not text. *)
Definition read (p : path) (w : world) : result text :=
  match node_at w p with
  | Some (File content) => Ok content
  | Some Dir => Raise (OSError IsADirectoryError)
  | Some Unreadable => Raise (OSError PermissionError)
  | Some Undecodable => Raise UnicodeDecodeError
  | None => Raise (OSError FileNotFoundError)
  end.

(** [os.mkdir(p)] *)
Definition os_mkdir (p : path) (w : world) : result world :=
  match node_at w p with
  | Some _ => Raise (OSError FileExistsError)
  | None =>
      match node_at w (parent p) with
      | None => Raise (OSError FileNotFoundError)
      | Some Dir =>
          if bool_decide (p ∈ readonly w)
          then Raise (OSError PermissionError)
          else Ok (with_disk (<[p := Dir]> (disk w)) w)
      | Some _ => Raise (OSError NotADirectoryError)
      end
  end.

(** [p.mkdir(parents=True, exist_ok=True)] of [pathlib], for the path
    whose components are [rp] in reverse order: [os.mkdir] is tried; a
    missing parent is made first, and then [os.mkdir] is tried again;
    any other error is passed over when [p] is a directory. *)
Fixpoint mkdir_rev (rp : list string) (w : world) : result unit * world :=
  match os_mkdir (rev rp) w with
  | Ok w' => (Ok (), w')
  | Raise (OSError FileNotFoundError) =>
      match rp with
      | [] => (Raise (OSError FileNotFoundError), w)
      | _ :: rp' =>
          match mkdir_rev rp' w with
          | (Ok _, w1) =>
              match os_mkdir (rev rp) w1 with
              | Ok w2 => (Ok (), w2)
              | Raise (OSError FileNotFoundError) =>
                  (Raise (OSError FileNotFoundError), w1)
              | Raise e =>
                  if is_dir w1 (rev rp) then (Ok (), w1) else (Raise e, w1)
              end
          | (Raise e, w1) => (Raise e, w1)
          end
      end
  | Raise e => if is_dir w (rev rp) then (Ok (), w) else (Raise e, w)
  end.

Definition mkdir_parents (p : path) (w : world) : result unit * world :=
  mkdir_rev (rev p) w.

(** [shutil.copy2(src, dst)]: a directory at [dst] receives the copy
    under the name of [src]; [src] is opened first, then the copy is
    opened for writing and takes the bytes of [src], which are not
    decoded. *)
Definition copy2 (src dst : path) (w : world) : result world :=
  let dst :=
    if is_dir w dst then child dst (List.last src EmptyString) else dst in
  match node_at w src with
  | Some (File content) => w' ← open_w dst w; Ok (write dst content w')
  | Some Undecodable =>
      w' ← open_w dst w; Ok (with_disk (<[dst := Undecodable]> (disk w')) w')
  | Some Unreadable => Raise (OSError PermissionError)
  | Some Dir => Raise (OSError IsADirectoryError)
  | None => Raise (OSError FileNotFoundError)
  end.

(** ** [Task Tracker Python/main.py] *)

(** The truth value of a Python value ([bool(v)]).  A float is false
    when the digits of its mantissa are all zero; underflow to zero is
    outside the model. *)
Fixpoint mantissa_is_zero (lexeme : text) : bool :=
  match lexeme with
  | [] => true
  | c :: rest =>
      if (c =? 101) || (c =? 69) then true
      else if Json.is_digit c && negb (c =? 48) then false
      else if (c =? 78) || (c =? 73) then false
      else mantissa_is_zero rest
  end.

Definition truthy (v : json) : bool :=
  match v with
  | JNull => false
  | JBool b => b
  | JInt n => negb (n =? 0)%Z
  | JFloat lexeme => negb (mantissa_is_zero lexeme)
  | JStr s => if s is [] then false else true
  | JArr items => if items is [] then false else true
  | JObj members => if members is [] then false else true
  end.

Module Tracker.

(** [Task.to_dict] *)
Definition to_dict (t : Task) : json :=
  JObj [(txt "description", description t); (txt "completed", completed t)].

(** [Task.from_dict]: [data["description"]] is evaluated first, then
    [data.get("completed", False)]. *)
Definition from_dict (data : json) : result Task :=
  d ← subscript data (txt "description");
  c ← get_default data (txt "completed") (JBool false);
  Ok (mkTask d c).

(** A [TaskTracker] object.  [tasks] is [None] as long as the attribute
    has not been assigned, which is the case while [__init__] evaluates
    [self.load_tasks()]. *)
Record TaskTracker := mkTracker {
  tasks_file : path;
  tasks : option (list Task);
}.

(** [self.tasks]: an [AttributeError] when the attribute is not set. *)
Definition get_tasks (self : TaskTracker) : result (list Task) :=
  match tasks self with
  | Some ts => Ok ts
  | None => Raise (AttributeError "tasks")
  end.

(** [TaskTracker.save_tasks]: the file is opened, and so truncated,
    before the argument of [json.dump] is evaluated; whatever is raised
    inside the [try] is printed and not raised further. *)
Definition save_tasks (self : TaskTracker) (w : world) : world :=
  let w := emit CallSave w in
  match open_w (tasks_file self) w with
  | Ok w1 =>
      match get_tasks self with
      | Ok ts =>
          write (tasks_file self) (Json.dumps (JArr (map to_dict ts))) w1
      | Raise e =>
          if is_IOError e then print (ErrSaving e) w1
          else print (ErrSavingUnexpected e) w1
      end
  | Raise e =>
      if is_IOError e then print (ErrSaving e) w
      else print (ErrSavingUnexpected e) w
  end.

(** [TaskTracker.create_backup] *)
Definition create_backup (self : TaskTracker) (w : world) : world :=
  let w := emit CallBackup w in
  let backup_path := with_suffix (tasks_file self) ".bak" in
  match copy2 (tasks_file self) backup_path w with
  | Ok w1 => print (BackupCreated backup_path) w1
  | Raise e => print (BackupFailed e) w
  end.

(** [[Task.from_dict(item) for item in data]] *)
Fixpoint decode_items (items : list json) : result (list Task) :=
  match items with
  | [] => Ok []
  | item :: items' =>
      t ← from_dict item;
      ts ← decode_items items';
      Ok (t :: ts)
  end.

(** What the [try] of [load_tasks] makes of the content of the file:
    [json.load] and, under [isinstance(data, list)], the tasks of the
    list; otherwise the value that is not a list. *)
Definition parse_tasks (content : text) : result (list Task + json) :=
  data ← Json.loads content;
  match data with
  | JArr items => ts ← decode_items items; Ok (inl ts)
  | _ => Ok (inr data)
  end.

(** The body of the [try] of [load_tasks] up to its [return]s. *)
Definition read_tasks (self : TaskTracker) (w : world)
  : result (list Task + json) :=
  content ← read (tasks_file self) w;
  parse_tasks content.

(** [except (json.JSONDecodeError, KeyError, TypeError)] *)
Definition caught_by_load (e : exn) : bool :=
  match e with
  | JSONDecodeError | KeyError _ | TypeError => true
  | _ => false
  end.

(** [TaskTracker.load_tasks] *)
Definition load_tasks (self : TaskTracker) (w : world)
  : result (list Task) * world :=
  if negb (path_exists w (tasks_file self)) then
    match mkdir_parents (parent (tasks_file self)) w with
    | (Ok _, w1) => (Ok [], save_tasks self w1)
    | (Raise e, w1) => (Raise e, w1)
    end
  else if negb (is_file w (tasks_file self)) then
    let w1 := print (WarnNotAFile (tasks_file self)) w in
    (Ok [], save_tasks self w1)
  else
    match read_tasks self w with
    | Ok (inl ts) => (Ok ts, w)
    | Ok (inr data) =>
        let w1 := print (WarnInvalidFormat (type_of data)) w in
        (Ok [], create_backup self w1)
    | Raise e =>
        if caught_by_load e then
          let w1 := print (ErrLoading e) w in
          (Ok [], create_backup self w1)
        else (Raise e, w)
    end.

(** [TaskTracker.__init__], for the program at path [script]
    ([__file__]). *)
Definition init (script : path) (w : world) : result TaskTracker * world :=
  let self := mkTracker (child (parent script) "tasks.json") None in
  match load_tasks self w with
  | (Ok ts, w1) => (Ok (mkTracker (tasks_file self) (Some ts)), w1)
  | (Raise e, w1) => (Raise e, w1)
  end.

(** [TaskTracker.add_task] *)
Definition add_task (self : TaskTracker) (description : text) (w : world)
  : result TaskTracker * world :=
  if strip description is [] then
    (Ok self, print ErrEmptyDescription w)
  else
    let task := mkTask (JStr (strip description)) (JBool false) in
    match get_tasks self with
    | Ok ts =>
        let self := mkTracker (tasks_file self) (Some (ts ++ [task])) in
        let w := save_tasks self w in
        (Ok self, print (TaskAdded task) w)
    | Raise e => (Raise e, w)
    end.

(** The rows that the loop over [enumerate(self.tasks, 1)] prints in
    [list_tasks]. *)
Fixpoint print_rows (i : Z) (ts : list Task) (w : world) : world :=
  match ts with
  | [] => w
  | t :: ts' => print_rows (i + 1) ts' (print (Row i t) w)
  end.

(** [TaskTracker.list_tasks] *)
Definition list_tasks (self : TaskTracker) (w : world) : result unit * world :=
  match get_tasks self with
  | Ok [] => (Ok (), print NoTasksFound w)
  | Ok ts =>
      let w := print HeaderYourTasks w in
      let w := print Rule w in
      let w := print_rows 1 ts w in
      (Ok (), print Rule w)
  | Raise e => (Raise e, w)
  end.

(** [task.completed = True] *)
Definition set_completed (t : Task) : Task :=
  mkTask (description t) (JBool true).

(** [TaskTracker.complete_task] *)
Definition complete_task (self : TaskTracker) (task_index : Z) (w : world)
  : result TaskTracker * world :=
  match get_tasks self with
  | Ok [] => (Ok self, print NoTasksFound w)
  | Ok ts =>
      if ((task_index <? 1) || (Z.of_nat (length ts) <? task_index))%Z then
        (Ok self, print (ErrInvalidIndex (length ts)) w)
      else
        let i := Z.to_nat (task_index - 1) in
        match ts !! i with
        | Some t =>
            let ts := <[i := set_completed t]> ts in
            let self := mkTracker (tasks_file self) (Some ts) in
            let w := save_tasks self w in
            match ts !! i with
            | Some t' => (Ok self, print (TaskCompleted task_index t') w)
            | None => (Raise IndexError, w)
            end
        | None => (Raise IndexError, w)
        end
  | Raise e => (Raise e, w)
  end.

(** [TaskTracker.remove_task] *)
Definition remove_task (self : TaskTracker) (task_index : Z) (w : world)
  : result TaskTracker * world :=
  match get_tasks self with
  | Ok [] => (Ok self, print NoTasksFound w)
  | Ok ts =>
      if ((task_index <? 1) || (Z.of_nat (length ts) <? task_index))%Z then
        (Ok self, print (ErrInvalidIndex (length ts)) w)
      else
        let i := Z.to_nat (task_index - 1) in
        match ts !! i with
        | Some removed_task =>
            let self := mkTracker (tasks_file self) (Some (delete i ts)) in
            let w := save_tasks self w in
            (Ok self, print (TaskRemoved removed_task) w)
        | None => (Raise IndexError, w)
        end
  | Raise e => (Raise e, w)
  end.

(** The rows that the loop of [in_progress_tasks] prints. *)
Fixpoint print_in_progress (i : Z) (ts : list Task) (w : world) : world :=
  match ts with
  | [] => w
  | t :: ts' =>
      print_in_progress (i + 1) ts'
        (if truthy (completed t) then w else print (Row i t) w)
  end.

(** [TaskTracker.in_progress_tasks] *)
Definition in_progress_tasks (self : TaskTracker) (w : world)
  : result unit * world :=
  match get_tasks self with
  | Ok [] => (Ok (), print NoTasksFound w)
  | Ok ts =>
      let w := print HeaderInProgress w in
      let w := print Rule w in
      let w := print_in_progress 1 ts w in
      (Ok (), print Rule w)
  | Raise e => (Raise e, w)
  end.

End Tracker.

(** ** [github-user-activity/main.py] *)

Module Activity.

Section Formatting.

(** Two functions of the interpreter are parameters of the model:
    [repr_other v] is [str(v)] for a float, a list or a dict, and
    [capitalize_other s] is [s.capitalize()] for a string that is not
    pure ASCII (the Unicode case mappings). *)
Variable repr_other : json -> text.
Variable capitalize_other : text -> text.

(** [str(v)], as an f-string interpolates a value. *)
Definition str_of (v : json) : text :=
  match v with
  | JStr s => s
  | JNull => txt "None"
  | JBool true => txt "True"
  | JBool false => txt "False"
  | JInt n => Json.decimal n
  | _ => repr_other v
  end.

Definition upper (c : char) : char :=
  if (97 <=? c) && (c <=? 122) then c - 32 else c.

Definition lower (c : char) : char :=
  if (65 <=? c) && (c <=? 90) then c + 32 else c.

(** [s.capitalize()] *)
Definition capitalize (s : text) : text :=
  if forallb (fun c => c <? 128) s then
    match s with
    | [] => []
    | c :: rest => upper c :: map lower rest
    end
  else capitalize_other s.

(** [v.capitalize()] for a value: only a [str] has the method. *)
Definition capitalize_value (v : json) : result text :=
  match v with
  | JStr s => Ok (capitalize s)
  | _ => Raise (AttributeError "capitalize")
  end.

(** [v == "lit"] for a string literal. *)
Definition is_str (v : json) (lit : string) : bool :=
  match v with
  | JStr s => text_eqb s (txt lit)
  | _ => false
  end.

(** [format_event] *)
Definition format_event (event : json) : result text :=
  event_type ← get_default event (txt "type") JNull;
  repo ← subscript event (txt "repo");
  repo_name ← subscript repo (txt "name");
  if is_str event_type "PushEvent" then
    Ok (txt "Pushed to " ++ str_of repo_name)
  else if is_str event_type "IssuesEvent" then
    payload ← subscript event (txt "payload");
    action ← subscript payload (txt "action");
    payload ← subscript event (txt "payload");
    issue ← subscript payload (txt "issue");
    issue_number ← subscript issue (txt "number");
    if is_str action "opened" then
      Ok (txt "Opened issue #" ++ str_of issue_number
          ++ txt " in " ++ str_of repo_name)
    else if is_str action "closed" then
      Ok (txt "Closed issue #" ++ str_of issue_number
          ++ txt " in " ++ str_of repo_name)
    else
      cap ← capitalize_value action;
      Ok (cap ++ txt " issue #" ++ str_of issue_number
          ++ txt " in " ++ str_of repo_name)
  else if is_str event_type "IssueCommentEvent" then
    payload ← subscript event (txt "payload");
    issue ← subscript payload (txt "issue");
    issue_number ← subscript issue (txt "number");
    Ok (txt "Commented on issue #" ++ str_of issue_number
        ++ txt " in " ++ str_of repo_name)
  else if is_str event_type "ForkEvent" then
    Ok (txt "Forked " ++ str_of repo_name)
  else if is_str event_type "WatchEvent" then
    Ok (txt "Starred " ++ str_of repo_name)
  else if is_str event_type "PullRequestEvent" then
    payload ← subscript event (txt "payload");
    action ← subscript payload (txt "action");
    payload ← subscript event (txt "payload");
    pr_number ← subscript payload (txt "number");
    cap ← capitalize_value action;
    Ok (cap ++ txt " pull request #" ++ str_of pr_number
        ++ txt " in " ++ str_of repo_name)
  else
    Ok (txt "Did something in " ++ str_of repo_name).

(** The loop of [main] over the events it was given: the lines
    printed, and the exception that ended the loop, if any. *)
Fixpoint print_events (events : list json) : list text * option exn :=
  match events with
  | [] => ([], None)
  | event :: events' =>
      match format_event event with
      | Ok line =>
          let '(lines, e) := print_events events' in
          ((txt "- " ++ line) :: lines, e)
      | Raise e => ([], Some e)
      end
  end.

(** [for event in data[:10]: ...] in [main], for a list [data]. *)
Definition print_activity (data : list json) : list text * option exn :=
  print_events (take 10 data).

End Formatting.

End Activity.

(** ** [Task.__str__] *)

Section TaskText.

(** [str(v)] for a float, a list or a dict is a parameter, as it is for
    the formatter. *)
Variable repr_other : json -> text.

(** The marks of a task that is done and of one that is not: U+2713 and
    U+2610. *)
Definition check_mark : char := 10003.
Definition ballot_box : char := 9744.

(** [Task.__str__]: the mark, a blank and the description. *)
Definition task_str (t : Task) : text :=
  ((if truthy (completed t) then check_mark else ballot_box) :: txt " ")
  ++ Activity.str_of repr_other (description t).

End TaskText.

(** ** [main] of [Task Tracker Python/main.py] *)

Module TrackerMain.

(** What [parser.parse_args()] returns: [None] stands for an option that
    was not given, [--list] and [--in-progress] are flags. *)
Record Namespace := mkArgs {
  args_add : option text;
  args_list : bool;
  args_complete : option Z;
  args_remove : option Z;
  args_in_progress : bool;
}.

(** How [main] ends: in its [except] branch, which prints the critical
    error and the advice and returns; after the one operation it ran;
    after [parser.print_help()]; or with an exception that the operation
    raised, which [main] does not catch. *)
Inductive ending :=
| InitFailed (e : exn)
| Done (task_tracker : Tracker.TaskTracker)
| Help (task_tracker : Tracker.TaskTracker)
| Uncaught (e : exn).

(** The end of [main] after a method that mutates the tracker, and
    after one that only prints. *)
Definition after (r : result Tracker.TaskTracker * world) : ending * world :=
  match r with
  | (Ok task_tracker, w) => (Done task_tracker, w)
  | (Raise e, w) => (Uncaught e, w)
  end.

Definition after_listing (task_tracker : Tracker.TaskTracker)
  (r : result unit * world) : ending * world :=
  match r with
  | (Ok _, w) => (Done task_tracker, w)
  | (Raise e, w) => (Uncaught e, w)
  end.

(** [main], from the parsed arguments on.  [if args.add:] holds for a
    string that is not empty. *)
Definition main (args : Namespace) (script : path) (w : world)
  : ending * world :=
  match Tracker.init script w with
  | (Raise e, w) => (InitFailed e, w)
  | (Ok task_tracker, w) =>
      match args_add args with
      | Some (c :: d) => after (Tracker.add_task task_tracker (c :: d) w)
      | _ =>
          if args_list args then
            after_listing task_tracker (Tracker.list_tasks task_tracker w)
          else
            match args_complete args with
            | Some i => after (Tracker.complete_task task_tracker i w)
            | None =>
                match args_remove args with
                | Some i => after (Tracker.remove_task task_tracker i w)
                | None =>
                    if args_in_progress args then
                      after_listing task_tracker
                        (Tracker.in_progress_tasks task_tracker w)
                    else (Help task_tracker, w)
                end
            end
      end
  end.

End TrackerMain.

(** ** [fetch_github_events] and [main] of [github-user-activity/main.py] *)

Module ActivityMain.

(** What [request.urlopen(url)] and reading the response come to: a
    body (decoded) with its status code, an [HTTPError], a [URLError]
    that is no [HTTPError], or any other exception (a body that is not
    UTF-8 among them). *)
Inductive reply :=
| Response (body : text) (code : Z)
| HTTPError (code : Z) (reason : text)
| URLError (reason : text)
| OtherException.

(** What the program prints, one constructor for each [print]; the text
    of an unexpected exception is not modelled. *)
Inductive notice :=
| Usage
| EmptyUsername
| Fetching (username : text)
| UserNotFound
| RateLimit
| HttpFailure (code : Z) (reason : text)
| NetworkFailure (reason : text)
| Unexpected
| NoActivity
| EventLine (line : text).

(** How [main] ends: [sys.exit(code)], a plain return, or an exception
    that nothing catches. *)
Inductive ending :=
| Exit (code : Z)
| Return
| Uncaught (e : exn).

Section Run.

Variable repr_other : json -> text.
Variable capitalize_other : text -> text.

(** The network: the reply to a request of a URL. *)
Variable urlopen : text -> reply.

(** The exception of [d[:10]] for a dict [d]: a [TypeError] up to
    Python 3.11 (a slice cannot be hashed), a [KeyError] from 3.12. *)
Variable dict_slice_error : exn.

(** [fetch_github_events]: what it prints and the pair it returns;
    [None] is [JNull], also when it is the status. *)
Definition fetch_github_events (username : text)
  : list notice * (json * option Z) :=
  let url := txt "https://api.github.com/users/" ++ username ++ txt "/events" in
  match urlopen url with
  | Response body code =>
      match Json.loads body with
      | Ok data => ([], (data, Some code))
      | Raise _ => ([Unexpected], (JNull, None))
      end
  | HTTPError code reason =>
      ([if (code =? 404)%Z then UserNotFound
        else if (code =? 403)%Z then RateLimit
        else HttpFailure code reason],
       (JNull, Some code))
  | URLError reason => ([NetworkFailure reason], (JNull, None))
  | OtherException => ([Unexpected], (JNull, None))
  end.

(** [data[:10]] and the values the loop of [main] then takes: the first
    ten items of a list, the first ten characters of a string; no other
    value can be sliced. *)
Definition slice10 (data : json) : result (list json) :=
  match data with
  | JArr items => Ok (take 10 items)
  | JStr s => Ok (map (fun c => JStr [c]) (take 10 s))
  | JObj _ => Raise dict_slice_error
  | _ => Raise TypeError
  end.

(** [main], for the arguments [sys.argv]. *)
Definition main (argv : list text) : list notice * ending :=
  match argv with
  | [_; arg] =>
      let username := strip arg in
      if username is [] then ([EmptyUsername], Exit 1)
      else
        let '(printed, (data, status)) := fetch_github_events username in
        let out := Fetching username :: printed in
        if data is JNull then (out, Exit 1)
        else if negb (truthy data) then (out ++ [NoActivity], Return)
        else
          match slice10 data with
          | Ok events =>
              let '(lines, e) :=
                Activity.print_events repr_other capitalize_other events in
              (out ++ map EventLine lines,
               match e with None => Return | Some e => Uncaught e end)
          | Raise e => (out, Uncaught e)
          end
  | _ => ([Usage], Exit 1)
  end.

End Run.

End ActivityMain.

(** * The vocabulary of the properties

    The definitions below belong to the statements and proofs of the
    properties, not to the programs. *)

(** The tracker: traces, positions, preconditions *)

(** The number of entries into [save_tasks] in a trace. *)
Fixpoint count_saves (tr : list event) : nat :=
  match tr with
  | [] => 0
  | CallSave :: tr' => S (count_saves tr')
  | _ :: tr' => count_saves tr'
  end.

(** The number of entries into [save_tasks] so far. *)
Definition saves (w : world) : nat := count_saves (trace w).

(** The task at a 1-based position, as the caller numbers tasks. *)
Definition task_at (ts : list Task) (k : Z) : option Task :=
  if (k <? 1)%Z then None else ts !! Z.to_nat (k - 1).

(** A text that is empty or made of whitespace only. *)
Definition blank (s : text) : bool := forallb isspace s.

(** The index is one the caller may use: [1 <= i <= len]. *)
Definition in_range (l : list Task) (i : Z) : Prop :=
  (1 <= i <= Z.of_nat (length l))%Z.

(** The outcome of an operation that was rejected: the tracker is the
    one before, nothing was saved and the disk is as it was. *)
Definition rejected (self : Tracker.TaskTracker) (w : world)
  (r : result Tracker.TaskTracker * world) : Prop :=
  r.1 = Ok self /\ saves r.2 = saves w /\ disk r.2 = disk w.

(** The outcome of an operation that went through: the tracker holds
    the list [ts'], and [save_tasks] was entered exactly once. *)
Definition saved_once (f : path) (ts' : list Task) (w : world)
  (r : result Tracker.TaskTracker * world) : Prop :=
  r.1 = Ok (Tracker.mkTracker f (Some ts')) /\ saves r.2 = S (saves w).

(** A description is a text that is not empty and neither starts nor
    ends with whitespace. *)
Definition stripped (s : text) : Prop :=
  s <> []
  /\ (forall c, head s = Some c -> isspace c = false)
  /\ (forall c, last s = Some c -> isspace c = false).

(** The description of the task is a string, and it is [stripped]. *)
Definition well_described (t : Task) : Prop :=
  exists s, description t = JStr s /\ stripped s.

(** The tracker: listings *)

(** [enumerate(ts, start)] *)
Fixpoint enumerate (start : Z) (ts : list Task) : list (Z * Task) :=
  match ts with
  | [] => []
  | t :: ts' => (start, t) :: enumerate (start + 1) ts'
  end.

(** The flag of a task counts as false: [not task.completed] holds,
    which for a flag that is a boolean says that it is [False]. *)
Definition flag_is_false (t : Task) : Prop := truthy (completed t) = false.

#[global] Instance flag_is_false_dec (t : Task) : Decision (flag_is_false t).
Proof. unfold flag_is_false. apply _. Defined.

(** The tasks whose flag is false, each with its position in the whole
    list, in list order. *)
Definition incomplete_rows (ts : list Task) : list (Z * Task) :=
  filter (fun it => flag_is_false it.2) (enumerate 1 ts).

(** The event of printing one row of a listing. *)
Definition row_line (it : Z * Task) : event := Printed (Row it.1 it.2).

(** The tracker: the disk *)

(** [open(p, "w")] succeeds: the parent is a directory, [p] is not one,
    and the process may write [p]. *)
Definition writable (w : world) (p : path) : bool :=
  is_dir w (parent p) && negb (is_dir w p) && negb (bool_decide (p ∈ readonly w)).

(** The text [save_tasks] writes for a list of tasks. *)
Definition snapshot (ts : list Task) : text :=
  Json.dumps (JArr (map Tracker.to_dict ts)).

(** Where [copy2] puts the backup of the store file of the directory
    [dir]: under the backup path when that is a directory. *)
Definition backup_target (dir : path) (w : world) : path :=
  if is_dir w (child dir "tasks.bak")
  then child (child dir "tasks.bak") "tasks.json"
  else child dir "tasks.bak".

(** The outcome of the backup-and-reset protocol of [load_tasks], run in
    the world [w] on the store file of the directory [dir], which holds
    [content]: the list is empty and nothing is raised; the store file
    is as it was; nothing was saved; and either the copy went through
    and the backup holds [content], or it did not, the failure was
    printed and the disk is as it was. *)
Definition reset_outcome (dir : path) (w : world) (content : text)
  (r : result (list Task) * world) : Prop :=
  r.1 = Ok []
  /\ disk r.2 !! child dir "tasks.json" = Some (File content)
  /\ saves r.2 = saves w
  /\ ((writable w (backup_target dir w) = true
       /\ disk r.2 = <[backup_target dir w := File content]> (disk w)
       /\ exists m, trace r.2
                    = trace w ++ [Printed m; CallBackup;
                                  Printed (BackupCreated
                                             (child dir "tasks.bak"))])
      \/ (writable w (backup_target dir w) = false
          /\ disk r.2 = disk w
          /\ exists m e, trace r.2
                         = trace w ++ [Printed m; CallBackup;
                                       Printed (BackupFailed e)])).

(** The formatter *)

(** [v[k1][k2]...] *)
Fixpoint fetch (v : json) (keys : list string) : result json :=
  match keys with
  | [] => Ok v
  | k :: keys' => x ← subscript v (txt k); fetch x keys'
  end.



(** Texts and values that are written and read back *)

(** A text that [json] writes and reads back unchanged: every code point
    is below [0x110000], and no high surrogate stands directly before a
    low surrogate. *)
Fixpoint plain_text (s : text) : bool :=
  match s with
  | [] => true
  | c :: s' =>
      (c <? 1114112)
      && negb (Json.is_high_surrogate c
               && match s' with
                  | c' :: _ => Json.is_low_surrogate c'
                  | [] => false
                  end)
      && plain_text s'
  end.

(** The escapes of a string, one after the other. *)
Definition escaped (s : text) : text := concat (map Json.escape_char s).

(** The text starts with the escape of a low surrogate (or with a
    [\u] that four hexadecimal digits do not follow). *)
Definition low_escape_ahead (t : text) : bool :=
  match t with
  | b :: l :: g1 :: g2 :: g3 :: g4 :: _ =>
      (b =? 92) && (l =? 117)
      && match Json.unhex4 g1 g2 g3 g4 with
         | Some u2 => Json.is_low_surrogate u2
         | None => true
         end
  | _ => false
  end.

(** How [escape_char] writes a character: a one-letter escape, the
    character itself, one [\u] escape, or the [\u] escapes of a
    surrogate pair. *)
Inductive escape_shape (c : N) : text -> Prop :=
| shape_simple e :
    (e =? 117) = false -> Json.simple_escape e = Some c ->
    escape_shape c [92; e]
| shape_itself :
    (c =? 34) = false -> (c =? 92) = false -> (c <? 32) = false ->
    escape_shape c [c]
| shape_u :
    c < 65536 -> escape_shape c (Json.uescape c)
| shape_pair hi lo :
    hi < 65536 -> lo < 65536 ->
    Json.is_high_surrogate hi = true -> Json.is_low_surrogate lo = true ->
    Json.join_surrogates hi lo = c ->
    escape_shape c (Json.uescape hi ++ Json.uescape lo).

(** One step of [Json.digits_value]: a digit more to the right. *)
Definition digits_step (acc : Z) (d : N) : Z := (acc * 10 + (Z.of_N d - 48))%Z.

(** What may follow a value in the text the encoder writes: the end, a
    comma or a line break. *)
Definition delimited (rest : text) : bool :=
  match rest with
  | [] => true
  | c :: _ => (c =? 44) || (c =? 10)
  end.

(** The values that are written and read back unchanged: no float (a
    float is outside the model), strings that are [plain_text], and
    dicts whose keys are distinct, as the keys of a Python dict are. *)
Fixpoint safe (v : json) : Prop :=
  match v with
  | JNull | JBool _ | JInt _ => True
  | JFloat _ => False
  | JStr s => plain_text s = true
  | JArr items => fold_right (fun x acc => safe x /\ acc) True items
  | JObj members =>
      NoDup (map fst members)
      /\ fold_right (fun kv acc => plain_text kv.1 = true /\ safe kv.2 /\ acc)
           True members
  end.

(** The fuel [scan_once] needs for the text of a value. *)
Fixpoint cost (v : json) : nat :=
  match v with
  | JArr items => S (list_sum (map (fun x => S (cost x)) items))
  | JObj members => S (list_sum (map (fun kv => S (cost kv.2)) members))
  | _ => 1
  end.

(** [v] is read back from its text, at every level of indentation, with
    enough fuel, before anything that may follow a value. *)
Definition reads_back (v : json) : Prop :=
  forall lvl fuel rest,
    (cost v <= fuel)%nat -> delimited rest = true ->
    Json.scan_once fuel (Json.encode lvl v ++ rest) = Ok (v, rest).

(** What the encoder puts between two items at level [lvl]. *)
Definition item_separator (lvl : nat) : text :=
  txt "," ++ Json.newline_indent lvl.

(** The text of one member of a dict. *)
Definition member_text (lvl : nat) (kv : text * json) : text :=
  Json.encode_string kv.1 ++ txt ": " ++ Json.encode lvl kv.2.

(** A task whose two attributes are safe values; in particular a task
    whose description is a [plain_text] string and whose flag is a
    boolean. *)
Definition task_safe (t : Task) : Prop :=
  safe (description t) /\ safe (completed t).

(** The three loops of the scanner return less text than they were
    given, and with fuel above twice the length of the text they raise
    nothing but a [JSONDecodeError]. *)
Definition scanner_outcome {A : Type} (needed : nat) (fuel : nat) (s : text)
  (r : result (A * text)) : Prop :=
  match r with
  | Ok (_, rest) => (length rest < length s)%nat
  | Raise e => (2 * length s + needed <= fuel)%nat -> e = JSONDecodeError
  end.

(** Concrete worlds, store files and events *)

(** Three tasks, the second of them completed. *)
Definition three_tasks : list Task :=
  [mkTask (JStr (txt "a")) (JBool false);
   mkTask (JStr (txt "b")) (JBool true);
   mkTask (JStr (txt "c")) (JBool false)].

(** A world with the directory of the program and nothing else. *)
Definition app_world : world := World {[ ["app"] := Dir ]} ∅ [].

(** The store file of the program that runs from [/app]. *)
Definition app_store : path := ["app"; "tasks.json"]%string.

(** A world whose store file holds [content], with the paths [ro]
    that the process may not write. *)
Definition world_with_store (content : text) (ro : gset path) : world :=
  World {[ ["app"] := Dir; ["app"; "tasks.json"] := File content ]} ro [].

(** The store file of the specification's example: the JSON string
    ["not a json array"]. *)
Definition not_an_array : text := quoted "not a json array".




(** A store file whose only task has a description with a blank at each
    end. *)
Definition padded_description : text :=
  txt "[{" ++ quoted "description" ++ txt ": " ++ quoted " x " ++ txt "}]".

(** An event of each of two types, as the API returns them. *)
Definition push_event : list (text * json) :=
  [(txt "type", JStr (txt "PushEvent"));
   (txt "repo", JObj [(txt "name", JStr (txt "octo/cat"))])].

Definition issues_event : list (text * json) :=
  [(txt "type", JStr (txt "IssuesEvent"));
   (txt "repo", JObj [(txt "name", JStr (txt "octo/cat"))]);
   (txt "payload",
    JObj [(txt "action", JStr (txt "reopened"));
          (txt "issue", JObj [(txt "number", JInt 42)])])].

(** Further vocabulary: the tracker *)

(** The task [add_task] makes of a description. *)
Definition new_task (d : text) : Task := mkTask (JStr (strip d)) (JBool false).

(** The task shows the ballot box when it is printed. *)
Definition shows_box (repr_other : json -> text) (t : Task) : Prop :=
  head (task_str repr_other t) = Some ballot_box.

#[global] Instance shows_box_dec (repr_other : json -> text) (t : Task) :
  Decision (shows_box repr_other t).
Proof. unfold shows_box. apply _. Defined.

(** The operations of a tracker, as a caller (or [main]) chooses among
    them. *)
Inductive command :=
| Add (d : text)
| ListAll
| Complete (i : Z)
| Remove (i : Z)
| InProgress.

(** The operation on a tracker; the tracker after it. *)
Definition run_command (c : command) (self : Tracker.TaskTracker) (w : world)
  : result Tracker.TaskTracker * world :=
  match c with
  | Add d => Tracker.add_task self d w
  | ListAll =>
      match Tracker.list_tasks self w with
      | (Ok _, w') => (Ok self, w')
      | (Raise e, w') => (Raise e, w')
      end
  | Complete i => Tracker.complete_task self i w
  | Remove i => Tracker.remove_task self i w
  | InProgress =>
      match Tracker.in_progress_tasks self w with
      | (Ok _, w') => (Ok self, w')
      | (Raise e, w') => (Raise e, w')
      end
  end.

(** A sequence of operations on the same tracker, up to the first that
    raises. *)
Fixpoint run (cs : list command) (self : Tracker.TaskTracker) (w : world)
  : result Tracker.TaskTracker * world :=
  match cs with
  | [] => (Ok self, w)
  | c :: cs' =>
      match run_command c self w with
      | (Ok self', w') => run cs' self' w'
      | (Raise e, w') => (Raise e, w')
      end
  end.

(** The operations that change the list when they are accepted. *)
Definition mutating (c : command) : bool :=
  match c with
  | Add _ | Complete _ | Remove _ => true
  | ListAll | InProgress => false
  end.

(** What an accepted operation makes of the list [ts]. *)
Definition mutation_of (c : command) (ts ts' : list Task) : Prop :=
  match c with
  | Add d => blank d = false /\ ts' = ts ++ [new_task d]
  | Complete i =>
      in_range ts i
      /\ exists t, ts !! Z.to_nat (i - 1) = Some t
                   /\ ts' = <[Z.to_nat (i - 1) := Tracker.set_completed t]> ts
  | Remove i => in_range ts i /\ ts' = delete (Z.to_nat (i - 1)) ts
  | ListAll | InProgress => False
  end.

(** The world [w'] differs from [w] by lines printed only. *)
Definition only_printed (w w' : world) : Prop :=
  disk w' = disk w /\ readonly w' = readonly w /\ saves w' = saves w.

(** The descriptions that a sequence of operations asks to add. *)
Definition added (cs : list command) : list text :=
  omap (fun c => if c is Add d then Some d else None) cs.

(** The task [t'] is the task [t], completed since or not. *)
Definition same_or_completed (t t' : Task) : Prop :=
  t' = t \/ t' = Tracker.set_completed t.

(** The store file holds the snapshot of the list of the tracker. *)
Definition in_sync (self : Tracker.TaskTracker) (w : world) : Prop :=
  exists ts, Tracker.tasks self = Some ts
             /\ node_at w (Tracker.tasks_file self) = Some (File (snapshot ts)).

(** Further vocabulary: the store file *)

(** An element of the list in the store file that [Task.from_dict]
    accepts: an object with a [description]. *)
Definition has_description (item : json) : Prop :=
  exists members d,
    item = JObj members /\ dict_get (txt "description") members = Some d.

(** A content of the store file that [load_tasks] resets on: a text on
    which [json.load] raises a [JSONDecodeError], or the text of a
    value that is not a list of objects that have a [description]
    each. *)
Definition unusable (content : text) : Prop :=
  Json.loads content = Raise JSONDecodeError
  \/ exists v,
       Json.loads content = Ok v
       /\ forall items, v = JArr items -> ~ Forall has_description items.

(** Further vocabulary: the command line of the tracker *)

(** The operation that [main] runs for the arguments: the first of
    [--add] (with a text that is not empty), [--list], [--complete],
    [--remove] and [--in-progress] that was given; none when none
    was. *)
Definition command_of (args : TrackerMain.Namespace) : option command :=
  match TrackerMain.args_add args with
  | Some (c :: d) => Some (Add (c :: d))
  | _ =>
      if TrackerMain.args_list args then Some ListAll
      else
        match TrackerMain.args_complete args with
        | Some i => Some (Complete i)
        | None =>
            match TrackerMain.args_remove args with
            | Some i => Some (Remove i)
            | None =>
                if TrackerMain.args_in_progress args then Some InProgress
                else None
            end
        end
  end.

(** The store file of the program at [script]. *)
Definition store_of (script : path) : path :=
  child (parent script) "tasks.json".

(** Why the store file of the program could not be loaded, when
    [load_tasks] raises [e] in the world [w] and leaves the world [w1]:
    there is no store file and [mkdir] raised [e]; or there is one, the
    world is as it was, and [e] is the error of [open] on a file that
    the process may not read, the error of [f.read()] on bytes that are
    not text, or an exception that [json.load] raised on the text of
    the file and that the [except] clause of [load_tasks] does not
    name. *)
Definition load_failure (script : path) (w : world) (e : exn) (w1 : world)
  : Prop :=
  (path_exists w (store_of script) = false
   /\ mkdir_parents (parent (store_of script)) w = (Raise e, w1)
   /\ exists o, e = OSError o)
  \/ (w1 = w
      /\ ((node_at w (store_of script) = Some Unreadable
           /\ e = OSError PermissionError)
          \/ (node_at w (store_of script) = Some Undecodable
              /\ e = UnicodeDecodeError)
          \/ (exists content,
                node_at w (store_of script) = Some (File content)
                /\ Json.loads content = Raise e
                /\ Tracker.caught_by_load e = false))).

(** Further vocabulary: the activity program *)

(** The type of an event, [event.get("type")]. *)
Definition type_of_event (members : list (text * json)) : json :=
  default JNull (dict_get (txt "type") members).

(** An event that [format_event] has a line for: an object with the name
    of a repository and, for the three types whose line names them, the
    fields of the payload, the action being a string. *)
Definition formats (event : json) : Prop :=
  exists members repo,
    event = JObj members
    /\ fetch event ["repo"; "name"]%string = Ok repo
    /\ (Activity.is_str (type_of_event members) "IssuesEvent" = true ->
        (exists action,
           fetch event ["payload"; "action"]%string = Ok (JStr action))
        /\ exists n,
             fetch event ["payload"; "issue"; "number"]%string = Ok n)
    /\ (Activity.is_str (type_of_event members) "IssueCommentEvent" = true ->
        exists n, fetch event ["payload"; "issue"; "number"]%string = Ok n)
    /\ (Activity.is_str (type_of_event members) "PullRequestEvent" = true ->
        (exists action,
           fetch event ["payload"; "action"]%string = Ok (JStr action))
        /\ exists n, fetch event ["payload"; "number"]%string = Ok n).

(** The address that [fetch_github_events] asks for. *)
Definition events_url (username : text) : text :=
  txt "https://api.github.com/users/" ++ username ++ txt "/events".

(** The lines of events among what the program printed. *)
Definition event_lines (printed : list ActivityMain.notice) : list text :=
  omap (fun n => if n is ActivityMain.EventLine line then Some line else None)
    printed.

(** Further vocabulary: the text of the store file *)

(** A text of ASCII characters only. *)
Definition ascii_only (s : text) : bool := forallb (fun c => c <? 128) s.

(** A value that holds no float. *)
Fixpoint no_float (v : json) : Prop :=
  match v with
  | JFloat _ => False
  | JArr items => fold_right (fun x acc => no_float x /\ acc) True items
  | JObj members => fold_right (fun kv acc => no_float kv.2 /\ acc) True members
  | _ => True
  end.

(** The list [ts] after [complete_task] with the index [i]: the list
    itself when the index is out of range. *)
Definition completed_at (i : Z) (ts : list Task) : list Task :=
  match task_at ts i with
  | Some t => <[Z.to_nat (i - 1) := Tracker.set_completed t]> ts
  | None => ts
  end.

(** * Properties *)

(** ** Traces and disks of the basic operations *)

Lemma count_saves_app (a b : list event) :
  count_saves (a ++ b) = (count_saves a + count_saves b)%nat.
Proof.
  induction a as [|e a IH]; simpl; [done|].
  destruct e; simpl; rewrite IH; done.
Qed.

Lemma saves_print (m : message) (w : world) : saves (print m w) = saves w.
Proof. unfold saves, print, emit; simpl. rewrite count_saves_app; simpl; lia. Qed.

Lemma disk_print (m : message) (w : world) : disk (print m w) = disk w.
Proof. done. Qed.

Lemma readonly_print (m : message) (w : world) : readonly (print m w) = readonly w.
Proof. done. Qed.

Lemma open_w_trace (p : path) (w w' : world) :
  open_w p w = Ok w' -> trace w' = trace w /\ readonly w' = readonly w.
Proof.
  unfold open_w. intros H.
  destruct (node_at w (parent p)) as [[| | |]|]; try discriminate.
  destruct (node_at w p) as [[| | |]|]; try discriminate;
    case_bool_decide; try discriminate; by inversion H.
Qed.

Lemma write_trace (p : path) (s : text) (w : world) :
  trace (write p s w) = trace w /\ readonly (write p s w) = readonly w.
Proof. unfold write. by destruct (node_at w p) as [[| | |]|]. Qed.

(** [save_tasks] is entered once by each call, and calls nothing that
    saves. *)
Lemma saves_save_tasks (self : Tracker.TaskTracker) (w : world) :
  saves (Tracker.save_tasks self w) = S (saves w).
Proof.
  unfold Tracker.save_tasks, saves.
  destruct (open_w _ _) as [w1|e] eqn:Hopen.
  - apply open_w_trace in Hopen as [Htr _].
    destruct (Tracker.get_tasks self) as [ts|e].
    + destruct (write_trace (Tracker.tasks_file self)
        (Json.dumps (JArr (map Tracker.to_dict ts))) w1) as [-> _].
      rewrite Htr; simpl. rewrite count_saves_app; simpl; lia.
    + destruct (is_IOError e); simpl; rewrite Htr; simpl;
        rewrite !count_saves_app; simpl; lia.
  - destruct (is_IOError e); simpl; rewrite !count_saves_app; simpl; lia.
Qed.

(** [strip] leaves nothing exactly of the blank texts. *)
Lemma lstrip_nil (s : text) : lstrip s = [] <-> blank s = true.
Proof.
  unfold blank. induction s as [|c s IH]; simpl; [done|].
  destruct (isspace c); simpl; [done|]. split; discriminate.
Qed.

Lemma lstrip_blank_app (a b : text) :
  blank a = true -> lstrip (a ++ b) = lstrip b.
Proof.
  unfold blank. induction a as [|c a IH]; simpl; [done|].
  destruct (isspace c); simpl; [done|discriminate].
Qed.

Lemma blank_rev (s : text) : blank (rev s) = blank s.
Proof.
  unfold blank. induction s as [|c s IH]; simpl; [done|].
  rewrite forallb_app, IH; simpl. destruct (isspace c), (forallb isspace s); done.
Qed.

Lemma blank_lstrip (s : text) : blank (lstrip s) = blank s.
Proof.
  unfold blank. induction s as [|c s IH]; simpl; [done|].
  destruct (isspace c) eqn:E; simpl; [done|]. by rewrite E.
Qed.

Lemma strip_nil (s : text) : strip s = [] <-> blank s = true.
Proof.
  unfold strip, rstrip. split.
  - intros H. apply (f_equal (@rev N)) in H. rewrite rev_involutive in H.
    change (rev []) with (@nil N) in H.
    apply lstrip_nil in H. by rewrite blank_rev, blank_lstrip in H.
  - intros H. assert (lstrip (rev (lstrip s)) = []) as ->; [|done].
    apply lstrip_nil. by rewrite blank_rev, blank_lstrip.
Qed.

(** ** The mutating operations, case by case *)

Section Operations.

Import Tracker.

Variable f : path.
Variable ts : list Task.
Variable w : world.

Let self := mkTracker f (Some ts).

Lemma add_task_rejected (d : text) :
  blank d = true ->
  add_task self d w = (Ok self, print ErrEmptyDescription w).
Proof.
  intros H. apply strip_nil in H. unfold add_task. by rewrite H.
Qed.

Lemma add_task_accepted (d : text) :
  blank d = false ->
  let task := mkTask (JStr (strip d)) (JBool false) in
  let self' := mkTracker f (Some (ts ++ [task])) in
  add_task self d w = (Ok self', print (TaskAdded task) (save_tasks self' w)).
Proof.
  intros H. unfold add_task.
  destruct (strip d) as [|c s] eqn:E; [|done].
  apply strip_nil in E. congruence.
Qed.

Lemma range_test (i : Z) :
  ((i <? 1) || (Z.of_nat (length ts) <? i))%Z = false <-> in_range ts i.
Proof.
  unfold in_range. rewrite orb_false_iff, !Z.ltb_ge. lia.
Qed.

Lemma in_range_lookup (i : Z) :
  in_range ts i -> exists t, ts !! Z.to_nat (i - 1) = Some t.
Proof.
  intros [H1 H2].
  destruct (lookup_lt_is_Some_2 ts (Z.to_nat (i - 1))) as [t Ht]; [lia|eauto].
Qed.

Lemma complete_task_rejected (i : Z) :
  ~ in_range ts i ->
  exists m, complete_task self i w = (Ok self, print m w).
Proof.
  intros H. unfold complete_task; simpl.
  destruct ts as [|t0 l] eqn:E; [eauto|]. rewrite <- E in *.
  destruct ((i <? 1) || (Z.of_nat (length ts) <? i))%Z eqn:T; [eauto|].
  apply range_test in T. contradiction.
Qed.

Lemma complete_task_accepted (i : Z) (t : Task) :
  in_range ts i ->
  ts !! Z.to_nat (i - 1) = Some t ->
  let self' :=
    mkTracker f (Some (<[Z.to_nat (i - 1) := set_completed t]> ts)) in
  complete_task self i w
  = (Ok self', print (TaskCompleted i (set_completed t)) (save_tasks self' w)).
Proof.
  intros H Ht. unfold complete_task; simpl.
  destruct ts as [|t0 l] eqn:E; [done|]. rewrite <- E in *.
  apply range_test in H as T. rewrite T, Ht.
  rewrite list_lookup_insert_eq; [done|]. by eapply lookup_lt_Some.
Qed.

Lemma remove_task_rejected (i : Z) :
  ~ in_range ts i ->
  exists m, remove_task self i w = (Ok self, print m w).
Proof.
  intros H. unfold remove_task; simpl.
  destruct ts as [|t0 l] eqn:E; [eauto|]. rewrite <- E in *.
  destruct ((i <? 1) || (Z.of_nat (length ts) <? i))%Z eqn:T; [eauto|].
  apply range_test in T. contradiction.
Qed.

Lemma remove_task_accepted (i : Z) (t : Task) :
  in_range ts i ->
  ts !! Z.to_nat (i - 1) = Some t ->
  let self' := mkTracker f (Some (delete (Z.to_nat (i - 1)) ts)) in
  remove_task self i w
  = (Ok self', print (TaskRemoved t) (save_tasks self' w)).
Proof.
  intros H Ht. unfold remove_task; simpl.
  destruct ts as [|t0 l] eqn:E; [done|]. rewrite <- E in *.
  apply range_test in H as T. by rewrite T, Ht.
Qed.

End Operations.

(** ** What [save_tasks] leaves on the disk *)

Lemma open_w_writable (p : path) (w : world) :
  writable w p = true ->
  open_w p w = Ok (with_disk (<[p := File []]> (disk w)) w).
Proof.
  unfold writable, is_dir, open_w. intros H.
  destruct (node_at w (parent p)) as [[| | |]|]; try done.
  destruct (node_at w p) as [[| | |]|]; try done;
    destruct (bool_decide (p ∈ readonly w)); done.
Qed.

Lemma open_w_not_writable (p : path) (w : world) :
  writable w p = false -> exists e, open_w p w = Raise (OSError e).
Proof.
  unfold writable, is_dir, open_w. intros H.
  destruct (node_at w (parent p)) as [[| | |]|]; eauto.
  destruct (node_at w p) as [[| | |]|]; eauto;
    destruct (bool_decide (p ∈ readonly w)); eauto; done.
Qed.

Lemma writable_not_root (w : world) (p : path) : writable w p = true -> p <> [].
Proof. intros H ->. done. Qed.

Lemma parent_neq (p : path) : p <> [] -> parent p <> p.
Proof.
  intros Hp E. apply (f_equal (@length string)) in E.
  unfold parent in E. rewrite removelast_firstn_len, length_take in E.
  destruct p; [done|]. simpl in E. lia.
Qed.

Lemma node_at_insert_eq (w : world) (p : path) (n : node) :
  p <> [] -> node_at (with_disk (<[p := n]> (disk w)) w) p = Some n.
Proof. destruct p; [done|]. intros _. simpl. by rewrite lookup_insert_eq. Qed.

Lemma node_at_insert_ne (w : world) (p q : path) (n : node) :
  p <> q -> node_at (with_disk (<[p := n]> (disk w)) w) q = node_at w q.
Proof. destruct q; [done|]. intros H. simpl. by rewrite lookup_insert_ne. Qed.

(** After a successful [open(p, "w")] and a [write], the file holds
    exactly what was written. *)
Lemma write_after_open (p : path) (s : text) (w : world) :
  p <> [] ->
  disk (write p s (with_disk (<[p := File []]> (disk w)) w))
  = <[p := File s]> (disk w).
Proof.
  intros Hp. unfold write. rewrite node_at_insert_eq by done.
  simpl. by rewrite insert_insert_eq.
Qed.

Lemma save_tasks_disk (f : path) (ts : list Task) (w : world) :
  disk (Tracker.save_tasks (Tracker.mkTracker f (Some ts)) w)
  = if writable w f then <[f := File (snapshot ts)]> (disk w) else disk w.
Proof.
  unfold Tracker.save_tasks; simpl.
  destruct (writable w f) eqn:Hw.
  - assert (writable (emit CallSave w) f = true) as Hw' by done.
    rewrite (open_w_writable _ _ Hw').
    rewrite write_after_open; [done|]. by eapply writable_not_root.
  - assert (writable (emit CallSave w) f = false) as Hw' by done.
    destruct (open_w_not_writable _ _ Hw') as [e ->]. done.
Qed.

Lemma save_tasks_readonly (self : Tracker.TaskTracker) (w : world) :
  readonly (Tracker.save_tasks self w) = readonly w.
Proof.
  unfold Tracker.save_tasks.
  destruct (open_w _ _) as [w1|e] eqn:Hopen.
  - apply open_w_trace in Hopen as [_ Hro].
    destruct (Tracker.get_tasks self) as [ts|e].
    + destruct (write_trace (Tracker.tasks_file self)
        (Json.dumps (JArr (map Tracker.to_dict ts))) w1) as [_ ->]. done.
    + by destruct (is_IOError e).
  - by destruct (is_IOError e).
Qed.

(** Saving the same list a second time changes nothing on the disk. *)
Lemma save_tasks_twice (f : path) (ts : list Task) (w w1 : world) :
  disk w1 = disk (Tracker.save_tasks (Tracker.mkTracker f (Some ts)) w) ->
  readonly w1 = readonly w ->
  disk (Tracker.save_tasks (Tracker.mkTracker f (Some ts)) w1) = disk w1.
Proof.
  intros Hd Hr. rewrite save_tasks_disk in *.
  destruct (writable w f) eqn:Hw.
  - assert (f <> []) as Hf by by eapply writable_not_root.
    assert (writable w1 f = true) as ->.
    { unfold writable, is_dir in *.
      assert (node_at w1 (parent f) = node_at w (parent f)) as ->.
      { pose proof (parent_neq f Hf) as Hne.
        destruct (parent f) as [|b q]; [done|]. simpl. rewrite Hd.
        by rewrite lookup_insert_ne. }
      destruct (node_at w (parent f)) as [[| | |]|]; try done.
      destruct f as [|a f']; [done|].
      unfold node_at in *. rewrite Hd, lookup_insert_eq, Hr.
      destruct (bool_decide (a :: f' ∈ readonly w)); [|done].
      by rewrite andb_false_r in Hw. }
    rewrite Hd. by rewrite insert_insert_eq.
  - assert (writable w1 f = false) as ->; [|done].
    unfold writable, is_dir, node_at in *. rewrite Hd, Hr. done.
Qed.

(** ** Add, complete, remove: mutation and saving (C3, C7, C8) *)

(** C3.  For each of [add_task], [complete_task] and [remove_task] and
    every tracker and world: when the precondition holds (a description
    that is not blank; an index within [1, len]) the operation performs
    its mutation and enters [save_tasks] exactly once; when it does not
    hold (a blank description, an empty list, an index out of range) the
    list in memory is the same and [save_tasks] is not entered.  The
    mutations: [add_task] puts a task with the stripped description and
    the flag [False] at the end of the list; [complete_task] puts, at
    the position of the index, the task with the same description and
    the flag [True]; [remove_task] takes the task at the position of
    the index out of the list. *)
Theorem mutation_saves_once_rejection_saves_nothing
  (f : path) (ts : list Task) (w : world) :
  let self := Tracker.mkTracker f (Some ts) in
  (forall d, blank d = false ->
     saved_once f (ts ++ [mkTask (JStr (strip d)) (JBool false)]) w
       (Tracker.add_task self d w))
  /\ (forall d, blank d = true -> rejected self w (Tracker.add_task self d w))
  /\ (forall i, in_range ts i ->
        exists t, task_at ts i = Some t
        /\ saved_once f
             (<[Z.to_nat (i - 1) := mkTask (description t) (JBool true)]> ts) w
             (Tracker.complete_task self i w))
  /\ (forall i, ~ in_range ts i ->
        rejected self w (Tracker.complete_task self i w))
  /\ (forall i, in_range ts i ->
        saved_once f (delete (Z.to_nat (i - 1)) ts) w
          (Tracker.remove_task self i w))
  /\ (forall i, ~ in_range ts i ->
        rejected self w (Tracker.remove_task self i w)).
Proof.
  intros self; subst self. unfold rejected, saved_once.
  split; [|split; [|split; [|split; [|split]]]].
  - intros d Hd. rewrite add_task_accepted by done. simpl.
    by rewrite saves_print, saves_save_tasks.
  - intros d Hd. rewrite add_task_rejected by done. simpl.
    by rewrite saves_print.
  - intros i H. destruct (in_range_lookup ts i H) as [t Ht]. exists t.
    assert (task_at ts i = Some t) as Hat.
    { unfold task_at. destruct H as [H1 _].
      by apply Z.ltb_ge in H1 as ->. }
    split; [done|]. rewrite (complete_task_accepted f ts w i t) by done.
    unfold Tracker.set_completed. simpl.
    by rewrite saves_print, saves_save_tasks.
  - intros i H. destruct (complete_task_rejected f ts w i H) as [m ->].
    simpl. by rewrite saves_print.
  - intros i H. destruct (in_range_lookup ts i H) as [t Ht].
    rewrite (remove_task_accepted f ts w i t) by done.
    simpl. by rewrite saves_print, saves_save_tasks.
  - intros i H. destruct (remove_task_rejected f ts w i H) as [m ->].
    simpl. by rewrite saves_print.
Qed.

Lemma task_at_lookup (l : list Task) (k : Z) (t : Task) :
  task_at l k = Some t <-> (1 <= k)%Z /\ l !! Z.to_nat (k - 1) = Some t.
Proof.
  unfold task_at. destruct (k <? 1)%Z eqn:E.
  - apply Z.ltb_lt in E. split; [done|]. intros [? _]; lia.
  - apply Z.ltb_ge in E. tauto.
Qed.

Lemma task_at_insert_ne (l : list Task) (i k : Z) (t : Task) :
  (1 <= i)%Z -> k <> i ->
  task_at (<[Z.to_nat (i - 1) := t]> l) k = task_at l k.
Proof.
  intros Hi Hk. unfold task_at. destruct (k <? 1)%Z eqn:E; [done|].
  apply Z.ltb_ge in E. apply list_lookup_insert_ne. lia.
Qed.

Lemma map_description_completed (l : list Task) (n : nat) (t : Task) :
  l !! n = Some t ->
  map description (<[n := Tracker.set_completed t]> l) = map description l.
Proof.
  revert n. induction l as [|a l IH]; intros [|n] H; simpl in *; try done.
  - by inversion H.
  - by rewrite IH.
Qed.

(** C7.  [complete_task] with an index outside [1, len] is rejected and
    leaves every task as it was.  With an index in range it sets the
    [completed] flag of the task at that position to [True]; the task
    at every other position, and every description, is unchanged; and
    completing the same index a second time yields the same list and
    the same disk as completing it once. *)
Theorem complete_sets_only_that_flag_idempotently
  (f : path) (ts : list Task) (w : world) (i : Z) :
  let self := Tracker.mkTracker f (Some ts) in
  let once := Tracker.complete_task self i w in
  (~ in_range ts i -> once.1 = Ok self)
  /\ (in_range ts i ->
      exists t ts',
        task_at ts i = Some t
        /\ once.1 = Ok (Tracker.mkTracker f (Some ts'))
        /\ task_at ts' i = Some (mkTask (description t) (JBool true))
        /\ (forall k, k <> i -> task_at ts' k = task_at ts k)
        /\ map description ts' = map description ts
        /\ length ts' = length ts
        /\ let twice :=
             Tracker.complete_task (Tracker.mkTracker f (Some ts')) i once.2 in
           twice.1 = once.1 /\ disk twice.2 = disk once.2).
Proof.
  intros self once; subst self once. split.
  - intros H. by destruct (complete_task_rejected f ts w i H) as [m ->].
  - intros H. destruct (in_range_lookup ts i H) as [t Ht].
    set (n := Z.to_nat (i - 1)) in *.
    set (ts' := <[n := Tracker.set_completed t]> ts).
    assert (ts' !! n = Some (Tracker.set_completed t)) as Ht'.
    { apply list_lookup_insert_eq. by eapply lookup_lt_Some. }
    assert (in_range ts' i) as H'.
    { unfold in_range, ts'. by rewrite length_insert. }
    exists t, ts'.
    rewrite (complete_task_accepted f ts w i t) by done. fold n ts'. simpl.
    split; [apply task_at_lookup; split; [apply H|done]|].
    split; [done|].
    split; [apply task_at_lookup; split; [apply H|done]|].
    split; [intros k Hk; apply task_at_insert_ne; [apply H|done]|].
    split; [by apply map_description_completed|].
    split; [apply length_insert|].
    rewrite (complete_task_accepted f ts' _ i (Tracker.set_completed t))
      by done.
    fold n. simpl.
    assert (<[n := Tracker.set_completed (Tracker.set_completed t)]> ts' = ts')
      as ->.
    { by apply list_insert_id. }
    split; [done|].
    etrans; [apply (save_tasks_twice f ts' w); [done|]|done].
    rewrite readonly_print. apply save_tasks_readonly.
Qed.

(** C8.  For an index in range, [remove_task] deletes exactly the task
    at that position: the list is split around it and the two parts
    remain; the length goes down by one; the task formerly at a later
    position [k] is at [k - 1], the tasks before keep their positions;
    removing the only task leaves the empty list. *)
Theorem remove_deletes_one_and_shifts_the_rest
  (f : path) (ts : list Task) (w : world) (i : Z) :
  in_range ts i ->
  exists before t after,
    ts = before ++ t :: after
    /\ Z.of_nat (length before) = (i - 1)%Z
    /\ (Tracker.remove_task (Tracker.mkTracker f (Some ts)) i w).1
       = Ok (Tracker.mkTracker f (Some (before ++ after)))
    /\ S (length (before ++ after)) = length ts
    /\ (forall k, (i < k)%Z ->
          task_at (before ++ after) (k - 1) = task_at ts k)
    /\ (forall k, (k < i)%Z -> task_at (before ++ after) k = task_at ts k)
    /\ (length ts = 1%nat -> before ++ after = []).
Proof.
  intros H. destruct (in_range_lookup ts i H) as [t Ht].
  set (n := Z.to_nat (i - 1)) in *.
  assert (n < length ts)%nat as Hn by by eapply lookup_lt_Some.
  exists (take n ts), t, (drop (S n) ts).
  assert (ts = take n ts ++ t :: drop (S n) ts) as Hsplit
    by by rewrite take_drop_middle.
  assert (length (take n ts) = n) as Hlen by (rewrite length_take; lia).
  split; [done|]. split; [rewrite Hlen; unfold n; destruct H; lia|].
  rewrite (remove_task_accepted f ts w i t) by done. fold n. simpl.
  rewrite <- delete_take_drop.
  split; [done|].
  split; [rewrite length_delete by eauto; lia|].
  split; [|split].
  - intros k Hk. unfold task_at.
    assert ((k - 1 <? 1) = false)%Z as -> by (apply Z.ltb_ge; destruct H; lia).
    assert ((k <? 1) = false)%Z as -> by (apply Z.ltb_ge; destruct H; lia).
    rewrite list_lookup_delete_ge by (unfold n; lia).
    f_equal. destruct H. lia.
  - intros k Hk. unfold task_at. destruct (k <? 1)%Z eqn:E; [done|].
    apply Z.ltb_ge in E. apply list_lookup_delete_lt. unfold n. lia.
  - intros H1. destruct ts as [|a [|b l]]; try done.
    by destruct n.
Qed.

(** ** Listing the tasks in progress (C9) *)

Lemma print_in_progress_trace (ts : list Task) (i : Z) (w : world) :
  let w' := Tracker.print_in_progress i ts w in
  trace w'
  = trace w
    ++ map row_line (filter (fun it => flag_is_false it.2) (enumerate i ts))
  /\ disk w' = disk w.
Proof.
  revert i w. induction ts as [|t ts IH]; intros i w; simpl.
  - by rewrite app_nil_r.
  - rewrite filter_cons. simpl.
    destruct (decide (flag_is_false t)) as [Hf|Hf]; unfold flag_is_false in Hf.
    + rewrite Hf. destruct (IH (i + 1)%Z (print (Row i t) w)) as [-> ->].
      simpl. by rewrite <- app_assoc.
    + destruct (truthy (completed t)); [|done]. apply IH.
Qed.

Lemma elem_of_enumerate (ts : list Task) (s k : Z) (t : Task) :
  (k, t) ∈ enumerate s ts
  <-> (s <= k)%Z /\ ts !! Z.to_nat (k - s) = Some t.
Proof.
  revert s. induction ts as [|a ts IH]; intros s; simpl.
  - rewrite elem_of_nil. split; [done|]. by intros [_ ?].
  - rewrite elem_of_cons, IH. split.
    + intros [E|[H1 H2]].
      * inversion E; subst. rewrite Z.sub_diag. split; [lia|done].
      * split; [lia|]. replace (Z.to_nat (k - s)) with (S (Z.to_nat (k - (s + 1))))
          by lia. done.
    + intros [H1 H2]. destruct (decide (k = s)) as [->|Hne].
      * left. rewrite Z.sub_diag in H2. simpl in H2. by inversion H2.
      * right. split; [lia|].
        replace (Z.to_nat (k - s)) with (S (Z.to_nat (k - (s + 1)))) in H2
          by lia. done.
Qed.

(** C9.  On a list that is not empty, [in_progress_tasks] prints, between
    its header and the closing rule, one row for each task whose flag is
    false and for no other task, in list order, each with the position
    the task has in the whole list; it saves nothing.  On three tasks of
    which only the second is completed, the rows are the first task
    under 1 and the third task under 3. *)
Theorem in_progress_lists_incomplete_tasks_with_their_positions
  (f : path) (ts : list Task) (w : world) :
  ts <> [] ->
  let r := Tracker.in_progress_tasks (Tracker.mkTracker f (Some ts)) w in
  r.1 = Ok ()
  /\ trace r.2
     = trace w ++ [Printed HeaderInProgress; Printed Rule]
       ++ map row_line (incomplete_rows ts) ++ [Printed Rule]
  /\ disk r.2 = disk w
  /\ (forall k t, (k, t) ∈ incomplete_rows ts
        <-> task_at ts k = Some t /\ flag_is_false t)
  /\ (forall b t, completed t = JBool b -> (flag_is_false t <-> b = false))
  /\ (forall d1 d2 d3,
        ts = [mkTask d1 (JBool false); mkTask d2 (JBool true);
              mkTask d3 (JBool false)] ->
        incomplete_rows ts
        = [(1%Z, mkTask d1 (JBool false)); (3%Z, mkTask d3 (JBool false))]).
Proof.
  intros Hne r; subst r. unfold Tracker.in_progress_tasks; simpl.
  destruct ts as [|t0 l] eqn:E; [done|]. rewrite <- E in *. simpl.
  destruct (print_in_progress_trace ts 1
    (print Rule (print HeaderInProgress w))) as [Htr Hd].
  split; [done|]. split; [|split; [|split; [|split]]].
  - rewrite Htr. simpl. unfold incomplete_rows.
    by rewrite <- !app_assoc.
  - by rewrite Hd.
  - intros k t. unfold incomplete_rows.
    rewrite list_elem_of_filter, elem_of_enumerate, task_at_lookup. simpl.
    tauto.
  - intros b t Hb. unfold flag_is_false. rewrite Hb. simpl. done.
  - intros d1 d2 d3 ->. reflexivity.
Qed.

(** ** Construction without a store file (C1) *)

Lemma parent_child (dir : path) (name : string) : parent (child dir name) = dir.
Proof. apply removelast_last. Qed.

Lemma child_not_root (dir : path) (name : string) : child dir name <> [].
Proof. unfold child. by destruct dir. Qed.

(** On a directory that exists, [mkdir(parents=True, exist_ok=True)]
    does nothing. *)
Lemma mkdir_parents_existing (p : path) (w : world) :
  is_dir w p = true -> mkdir_parents p w = (Ok (), w).
Proof.
  unfold mkdir_parents, is_dir. intros H.
  destruct (rev p) as [|a rp] eqn:E.
  - simpl. unfold os_mkdir. simpl. done.
  - assert (rev (a :: rp) = p) as Hp by (rewrite <- E; apply rev_involutive).
    unfold mkdir_rev. fold mkdir_rev. rewrite Hp.
    unfold os_mkdir, is_dir.
    destruct (node_at w p) as [[| | |]|]; done.
Qed.

(** When [os.mkdir] returns, it has made one directory. *)
Lemma os_mkdir_ok (p : path) (w w' : world) :
  os_mkdir p w = Ok w' ->
  p <> [] /\ w' = with_disk (<[p := Dir]> (disk w)) w.
Proof.
  unfold os_mkdir. intros H.
  destruct (node_at w p) as [n|] eqn:Hp; [done|].
  destruct (node_at w (parent p)) as [[| | |]|]; try done.
  case_bool_decide; [done|]. split; [by intros ->|by inversion H].
Qed.

Lemma os_mkdir_is_dir (p : path) (w w' : world) :
  os_mkdir p w = Ok w' -> is_dir w' p = true.
Proof.
  intros H. apply os_mkdir_ok in H as [Hp ->]. unfold is_dir, node_at.
  destruct p; [done|]. simpl. by rewrite lookup_insert_eq.
Qed.

(** [mkdir] makes directories only: it prints nothing, changes no
    permission, and touches no path longer than the one it is given. *)
Lemma os_mkdir_frame (p : path) (w w' : world) :
  os_mkdir p w = Ok w' ->
  trace w' = trace w /\ readonly w' = readonly w
  /\ forall q, (length p < length q)%nat -> disk w' !! q = disk w !! q.
Proof.
  intros H. apply os_mkdir_ok in H as [Hp ->]. split; [done|]. split; [done|].
  intros q Hq. simpl. apply lookup_insert_ne. intros ->. lia.
Qed.

(** The same of [mkdir] with [parents=True], whether it returns or
    raises. *)
Lemma mkdir_rev_frame (rp : list string) (w : world) :
  trace (mkdir_rev rp w).2 = trace w
  /\ readonly (mkdir_rev rp w).2 = readonly w
  /\ forall q, (length rp < length q)%nat ->
       disk (mkdir_rev rp w).2 !! q = disk w !! q.
Proof.
  revert w. induction rp as [|a rp IH]; intros w.
  - simpl. destruct (os_mkdir [] w) as [w'|e] eqn:E.
    + by apply os_mkdir_ok in E as [? _].
    + destruct e as [| | | | |[]| |]; simpl; try done;
        destruct (is_dir w []); done.
  - cbn [mkdir_rev]. destruct (os_mkdir (rev (a :: rp)) w) as [w'|e] eqn:E.
    + apply os_mkdir_frame in E as (? & ? & Hq). split; [done|]. split; [done|].
      intros q Hlen. apply Hq. rewrite length_rev. done.
    + assert (forall (r : result unit * world),
                r = (if is_dir w (rev (a :: rp)) then (Ok (), w) else (Raise e, w)) ->
                trace r.2 = trace w /\ readonly r.2 = readonly w
                /\ forall q, (length (a :: rp) < length q)%nat ->
                     disk r.2 !! q = disk w !! q) as Hsame.
      { intros r ->. by destruct (is_dir w (rev (a :: rp))). }
      destruct e as [| | | | |o| |]; try (by apply Hsame).
      destruct o; try (by apply Hsame).
      destruct (IH w) as (Ht & Hr & Hd).
      destruct (mkdir_rev rp w) as [[[]|e1] w1]; cbn [fst snd] in *.
      * assert (forall q, (length (a :: rp) < length q)%nat ->
                  disk w1 !! q = disk w !! q) as Hd'.
        { intros q Hq. apply Hd. simpl in Hq. lia. }
        destruct (os_mkdir (rev (a :: rp)) w1) as [w2|e2] eqn:E2.
        -- apply os_mkdir_frame in E2 as (Ht2 & Hr2 & Hd2). cbn [fst snd].
           split; [congruence|]. split; [congruence|].
           intros q Hq. rewrite Hd2 by (rewrite length_rev; done). by apply Hd'.
        -- assert (forall (r : result unit * world),
                r = (if is_dir w1 (rev (a :: rp)) then (Ok (), w1)
                     else (Raise e2, w1)) ->
                trace r.2 = trace w /\ readonly r.2 = readonly w
                /\ forall q, (length (a :: rp) < length q)%nat ->
                     disk r.2 !! q = disk w !! q) as Hsame1.
           { intros r ->. by destruct (is_dir w1 (rev (a :: rp))). }
           destruct e2 as [| | | | |o| |]; try (by apply Hsame1).
           destruct o; try (by apply Hsame1). done.
      * split; [done|]. split; [done|]. intros q Hq. apply Hd. simpl in Hq. lia.
Qed.

(** When [mkdir] returns, the directory is there. *)
Lemma mkdir_rev_is_dir (rp : list string) (w : world) :
  (mkdir_rev rp w).1 = Ok () -> is_dir (mkdir_rev rp w).2 (rev rp) = true.
Proof.
  destruct rp as [|a rp]; [done|].
  cbn [mkdir_rev]. destruct (os_mkdir (rev (a :: rp)) w) as [w'|e] eqn:E.
  - intros _. by apply os_mkdir_is_dir in E.
  - assert (forall (w0 : world) (e0 : exn) (r : result unit * world),
              r = (if is_dir w0 (rev (a :: rp)) then (Ok (), w0)
                   else (Raise e0, w0)) ->
              r.1 = Ok () -> is_dir r.2 (rev (a :: rp)) = true) as Hsame.
    { intros w0 e0 r ->. by destruct (is_dir w0 (rev (a :: rp))) eqn:Ed. }
    destruct e as [| | | | |o| |]; try exact (Hsame w _ _ eq_refl).
    destruct o; try exact (Hsame w _ _ eq_refl).
    destruct (mkdir_rev rp w) as [[[]|e1] w1]; [|done].
    destruct (os_mkdir (rev (a :: rp)) w1) as [w2|e2] eqn:E2.
    + intros _. by apply os_mkdir_is_dir in E2.
    + destruct e2 as [| | | | |o| |]; try exact (Hsame w1 _ _ eq_refl).
      destruct o; try exact (Hsame w1 _ _ eq_refl). done.
Qed.


(** C1, as the code behaves.  When the store file does not exist,
    [__init__] makes the directories above it that are missing and
    returns a tracker whose list is empty, but the store file it leaves
    holds no text at all: [save_tasks] opens the file, which creates it,
    and then fails on [self.tasks], which [__init__] has not assigned
    yet; the [AttributeError] is printed by [save_tasks] as an
    unexpected error.  The empty text is not the snapshot of the empty
    list, and [json.load] rejects it. *)
Theorem init_without_store_file_leaves_an_empty_file
  (script : path) (w : world) :
  let f := child (parent script) "tasks.json" in
  let made := mkdir_parents (parent f) w in
  path_exists w f = false ->
  made.1 = Ok () ->
  bool_decide (f ∈ readonly w) = false ->
  let r := Tracker.init script w in
  is_dir made.2 (parent f) = true
  /\ r.1 = Ok (Tracker.mkTracker f (Some []))
  /\ disk r.2 = <[f := File []]> (disk made.2)
  /\ trace r.2
     = trace w
       ++ [CallSave; Printed (ErrSavingUnexpected (AttributeError "tasks"))]
  /\ snapshot [] = txt "[]"
  /\ Json.loads [] = Raise JSONDecodeError.
Proof.
  intros f made Hex Hmade Hro r; subst r.
  unfold Tracker.init, Tracker.load_tasks.
  cbn [Tracker.tasks_file]. fold f. rewrite Hex. simpl negb. cbv iota.
  fold made.
  assert (is_dir made.2 (parent f) = true) as Hdir.
  { unfold made, mkdir_parents in *.
    rewrite <- (rev_involutive (parent f)) at 2.
    by apply mkdir_rev_is_dir. }
  destruct (mkdir_rev_frame (rev (parent f)) w) as (Htr & Hr & Hd).
  fold (mkdir_parents (parent f) w) in Htr, Hr, Hd. fold made in Htr, Hr, Hd.
  destruct made as [[[]|e] w1]; [|done]. simpl in *.
  assert (writable (emit CallSave w1) f = true) as Hwr.
  { unfold writable. change (is_dir (emit CallSave w1) (parent f))
      with (is_dir w1 (parent f)). rewrite Hdir. simpl.
    change (readonly (emit CallSave w1)) with (readonly w1).
    rewrite Hr, Hro. simpl. rewrite andb_true_r.
    unfold is_dir, node_at. pose proof (child_not_root (parent script) "tasks.json") as Hne.
    fold f in Hne. destruct f as [|c f'] eqn:Ef; [done|]. simpl.
    rewrite Hd.
    - unfold path_exists, node_at in Hex.
      by destruct (disk w !! (c :: f')).
    - rewrite length_rev. rewrite <- Ef. unfold f.
      rewrite parent_child. unfold child. rewrite length_app. simpl. lia. }
  unfold Tracker.save_tasks. cbn [Tracker.tasks_file Tracker.get_tasks Tracker.tasks].
  rewrite (open_w_writable _ _ Hwr). simpl.
  split; [done|]. split; [done|]. split; [done|].
  split; [by rewrite Htr, <- app_assoc|done].
Qed.

Lemma init_without_store_file_witness :
  let w := World ∅ ∅ [] in
  let r := Tracker.init ["app"; "tracker"; "main.py"] w in
  is_dir (mkdir_parents ["app"; "tracker"] w).2 ["app"; "tracker"] = true
  /\ r.1 = Ok (Tracker.mkTracker ["app"; "tracker"; "tasks.json"] (Some []))
  /\ disk r.2
     = <[ ["app"; "tracker"; "tasks.json"] := File []]>
         (disk (mkdir_parents ["app"; "tracker"] w).2)
  /\ trace r.2
     = trace w
       ++ [CallSave; Printed (ErrSavingUnexpected (AttributeError "tasks"))]
  /\ snapshot [] = txt "[]"
  /\ Json.loads [] = Raise JSONDecodeError.
Proof.
  intros w.
  apply (init_without_store_file_leaves_an_empty_file ["app"; "tracker"; "main.py"] w);
    vm_compute; reflexivity.
Defined.

(** ** The scanner consumes its input and has fuel enough *)

Lemma skip_ws_length (s : text) : (length (Json.skip_ws s) <= length s)%nat.
Proof.
  induction s as [|c s IH]; simpl; [lia|].
  destruct (Json.is_ws c); simpl; lia.
Qed.

(** What [scanstring] returns is shorter than what it was given, and it
    raises nothing but a [JSONDecodeError]. *)
Lemma scanstring_outcome (n : nat) :
  forall s, (length s <= n)%nat ->
    match Json.scanstring s with
    | Ok (_, rest) => (length rest < length s)%nat
    | Raise e => e = JSONDecodeError
    end.
Proof.
  induction n as [|n IH]; intros s Hn.
  - destruct s; [done|simpl in Hn; lia].
  - destruct s as [|c s1]; [done|]. cbn [Json.scanstring].
    assert (forall t, (length t <= length s1)%nat ->
              match Json.scanstring t with
              | Ok (_, rest) => (length rest < S (length s1))%nat
              | Raise e => e = JSONDecodeError
              end) as Hrec.
    { intros t Ht. specialize (IH t). simpl in Hn.
      destruct (Json.scanstring t) as [[str r]|]; [|apply IH; lia].
      assert (length r < length t)%nat by (apply IH; lia). lia. }
    assert (forall t (u : N), (length t <= length s1)%nat ->
              match ('(str, rest) ← Json.scanstring t; Ok (u :: str, rest))
                    : result (list N * list N) with
              | Ok (_, rest) => (length rest < S (length s1))%nat
              | Raise e => e = JSONDecodeError
              end) as Hbind.
    { intros t u Ht. specialize (Hrec t Ht).
      destruct (Json.scanstring t) as [[str r]|]; done. }
    cbn [length].
    destruct (c =? 34); [simpl; lia|].
    destruct (c =? 92).
    + destruct s1 as [|e s2]; [done|].
      destruct (e =? 117).
      * destruct s2 as [|h1 [|h2 [|h3 [|h4 s3]]]]; try done.
        destruct (Json.unhex4 h1 h2 h3 h4) as [u|]; [|done].
        destruct (Json.is_high_surrogate u);
          [|apply Hbind; simpl; lia].
        destruct s3 as [|b [|l [|g1 [|g2 [|g3 [|g4 s4]]]]]];
          try (apply Hbind; simpl; lia).
        destruct ((b =? 92) && (l =? 117)); [|apply Hbind; simpl; lia].
        destruct (Json.unhex4 g1 g2 g3 g4) as [u2|]; [|done].
        destruct (Json.is_low_surrogate u2); apply Hbind; simpl; lia.
      * destruct (Json.simple_escape e); [|done]. apply Hbind. simpl. lia.
    + destruct (c <? 32); [done|]. apply Hbind. lia.
Qed.

Lemma scanstring_shorter (s str rest : text) :
  Json.scanstring s = Ok (str, rest) -> (length rest < length s)%nat.
Proof.
  intros H. pose proof (scanstring_outcome (length s) s (le_n _)) as Ho.
  by rewrite H in Ho.
Qed.

Lemma scanstring_error (s : text) (e : exn) :
  Json.scanstring s = Raise e -> e = JSONDecodeError.
Proof.
  intros H. pose proof (scanstring_outcome (length s) s (le_n _)) as Ho.
  by rewrite H in Ho.
Qed.

Lemma strip_prefix_length (lit s rest : text) :
  Json.strip_prefix lit s = Some rest ->
  (length rest + length lit = length s)%nat.
Proof.
  revert s. induction lit as [|a lit IH]; intros s H; simpl in *.
  - inversion H. lia.
  - destruct s as [|b s]; [done|]. destruct (a =? b); [|done].
    apply IH in H. simpl. lia.
Qed.

Lemma span_digits_length (s ds rest : text) :
  Json.span_digits s = (ds, rest) -> (length rest <= length s)%nat.
Proof.
  revert ds rest. induction s as [|c s IH]; intros ds rest H; simpl in *.
  - inversion H. simpl. lia.
  - destruct (Json.is_digit c).
    + destruct (Json.span_digits s) as [ds' r'] eqn:E. inversion H; subst.
      specialize (IH ds' rest eq_refl). lia.
    + inversion H. simpl. lia.
Qed.

Lemma scan_frac_length (s fr rest : text) :
  Json.scan_frac s = (fr, rest) -> (length rest <= length s)%nat.
Proof.
  unfold Json.scan_frac. destruct s as [|c s]; [intros [= <- <-]; lia|].
  destruct (c =? 46); [|intros [= <- <-]; lia].
  destruct (Json.span_digits s) as [[|d ds] r] eqn:E.
  - intros [= <- <-]. lia.
  - intros [= <- <-]. apply span_digits_length in E. simpl. lia.
Qed.

Lemma scan_exp_length (s ex rest : text) :
  Json.scan_exp s = (ex, rest) -> (length rest <= length s)%nat.
Proof.
  unfold Json.scan_exp. destruct s as [|c s]; [intros [= <- <-]; lia|].
  destruct ((c =? 101) || (c =? 69)); [|intros [= <- <-]; lia].
  assert (exists sign s'',
            match s with
            | g :: t => if (g =? 43) || (g =? 45) then ([g], t) else ([], s)
            | [] => ([], s)
            end = (sign, s'') /\ (length s'' <= length s)%nat)
    as (sign & s'' & -> & Hs).
  { destruct s as [|g t]; [by exists [], []|].
    destruct ((g =? 43) || (g =? 45)); eexists _, _; split; try done;
      simpl; lia. }
  destruct (Json.span_digits s'') as [[|d ds] r] eqn:E.
  - intros [= <- <-]. lia.
  - intros [= <- <-]. apply span_digits_length in E. simpl. lia.
Qed.

Lemma scan_number_shorter (s : text) (v : json) (rest : text) :
  Json.scan_number s = Some (v, rest) -> (length rest < length s)%nat.
Proof.
  unfold Json.scan_number.
  assert (exists sign s0,
            match s with
            | c :: s' => if c =? 45 then ([c], s') else ([], s)
            | [] => ([], s)
            end = (sign, s0) /\ (length s0 <= length s)%nat)
    as (sign & s0 & -> & Hs0).
  { destruct s as [|c s']; [by exists [], []|].
    destruct (c =? 45); eexists _, _; split; try done; simpl; lia. }
  destruct (Json.scan_int_part s0) as [[ip s1]|] eqn:Ei; [|done].
  cbn [mbind option_bind].
  assert (length s1 < length s0)%nat as H1.
  { unfold Json.scan_int_part in Ei. destruct s0 as [|c s']; [done|].
    destruct (c =? 48); [inversion Ei; simpl; lia|].
    destruct (Json.is_digit c); [|done].
    destruct (Json.span_digits s') as [ds r] eqn:E. inversion Ei; subst.
    apply span_digits_length in E. simpl. lia. }
  destruct (Json.scan_frac s1) as [fr s2] eqn:Ef.
  destruct (Json.scan_exp s2) as [ex s3] eqn:Ee.
  apply scan_frac_length in Ef. apply scan_exp_length in Ee.
  destruct fr, ex; intros [= <- <-]; lia.
Qed.

Lemma scan_scalar_outcome (s : text) :
  match Json.scan_scalar s with
  | Ok (_, rest) => (length rest < length s)%nat
  | Raise e => e = JSONDecodeError
  end.
Proof.
  unfold Json.scan_scalar.
  repeat match goal with
         | |- context [Json.strip_prefix ?lit s] =>
             let E := fresh "E" in
             destruct (Json.strip_prefix lit s) eqn:E;
             [apply strip_prefix_length in E; simpl in E; lia|]
         end.
  destruct (Json.scan_number s) as [[v r]|] eqn:En; [|done].
  by apply scan_number_shorter in En.
Qed.

Lemma scanner_outcomes (fuel : nat) :
  (forall s, scanner_outcome 1 fuel s (Json.scan_once fuel s))
  /\ (forall s, scanner_outcome 2 fuel s (Json.scan_items fuel s))
  /\ (forall s, scanner_outcome 2 fuel s (Json.scan_members fuel s)).
Proof.
  induction fuel as [|fuel (IHonce & IHitems & IHmembers)].
  - repeat split; intros s; simpl; lia.
  - split; [|split]; intros s.
    + cbn [Json.scan_once]. destruct s as [|c s']; [done|].
      destruct (c =? 34).
      { destruct (Json.scanstring s') as [[str rest]|e] eqn:E; simpl.
        - apply scanstring_shorter in E. lia.
        - by apply scanstring_error in E. }
      pose proof (skip_ws_length s') as Hws.
      destruct (c =? 123).
      { destruct (Json.skip_ws s') as [|d rest]; [done|].
        destruct (d =? 125); [simpl in *; lia|].
        specialize (IHmembers (d :: rest)).
        destruct (Json.scan_members fuel (d :: rest)) as [[pairs r]|e];
          simpl in *; [lia|]. intros Hf. apply IHmembers. lia. }
      destruct (c =? 91).
      { destruct (Json.skip_ws s') as [|d rest]; [done|].
        destruct (d =? 93); [simpl in *; lia|].
        specialize (IHitems (d :: rest)).
        destruct (Json.scan_items fuel (d :: rest)) as [[items r]|e];
          simpl in *; [lia|]. intros Hf. apply IHitems. lia. }
      pose proof (scan_scalar_outcome (c :: s')) as Hsc.
      destruct (Json.scan_scalar (c :: s')) as [[v r]|e]; simpl in *; auto.
    + cbn [Json.scan_items]. specialize (IHonce s).
      destruct (Json.scan_once fuel s) as [[v rest]|e]; simpl in *;
        [|intros Hf; apply IHonce; lia].
      pose proof (skip_ws_length rest) as Hws.
      destruct (Json.skip_ws rest) as [|c rest']; [done|].
      destruct (c =? 93); [simpl in *; lia|].
      destruct (c =? 44); [|done].
      pose proof (skip_ws_length rest') as Hws'.
      specialize (IHitems (Json.skip_ws rest')).
      destruct (Json.scan_items fuel (Json.skip_ws rest')) as [[vs r]|e];
        simpl in *; [lia|]. intros Hf. apply IHitems. lia.
    + cbn [Json.scan_members]. destruct s as [|q s']; [done|].
      destruct (q =? 34); [|done].
      destruct (Json.scanstring s') as [[key rest]|e] eqn:E; simpl;
        [|by apply scanstring_error in E].
      apply scanstring_shorter in E.
      pose proof (skip_ws_length rest) as Hws.
      destruct (Json.skip_ws rest) as [|c rest']; [done|].
      destruct (c =? 58); [|done].
      pose proof (skip_ws_length rest') as Hws'.
      specialize (IHonce (Json.skip_ws rest')).
      destruct (Json.scan_once fuel (Json.skip_ws rest')) as [[v rest'']|e];
        simpl in *; [|intros Hf; apply IHonce; lia].
      pose proof (skip_ws_length rest'') as Hws''.
      destruct (Json.skip_ws rest'') as [|e rest3]; [done|].
      destruct (e =? 125); [simpl in *; lia|].
      destruct (e =? 44); [|done].
      pose proof (skip_ws_length rest3) as Hws3.
      specialize (IHmembers (Json.skip_ws rest3)).
      destruct (Json.scan_members fuel (Json.skip_ws rest3)) as [[kvs r]|e'];
        simpl in *; [lia|]. intros Hf. apply IHmembers. lia.
Qed.

(** [Json.loads] returns a value or raises a [JSONDecodeError]: the
    fuel it gives the scanner never runs out.  This is a fact of the
    model, which has none of the limits of an interpreter; no statement
    about [load_tasks] or [main] rests on it: each one names what
    [json.load] returns or raises. *)
Lemma loads_outcome (s : text) :
  (exists v, Json.loads s = Ok v) \/ Json.loads s = Raise JSONDecodeError.
Proof.
  unfold Json.loads.
  destruct (scanner_outcomes (S (2 * length s))) as (Honce & _ & _).
  specialize (Honce (Json.skip_ws s)).
  pose proof (skip_ws_length s) as Hws.
  destruct (Json.scan_once _ _) as [[v rest]|e]; simpl in *.
  - destruct (Json.skip_ws rest); eauto.
  - right. f_equal. apply Honce. lia.
Qed.

(** ** A store file that cannot be used (C2, C4) *)

Section Backup.

Variable dir : path.
Variable tsk : option (list Task).

#[local] Abbreviation f := (child dir "tasks.json") (only parsing).
#[local] Abbreviation bak := (child dir "tasks.bak") (only parsing).
#[local] Abbreviation self :=
  (Tracker.mkTracker (child dir "tasks.json") tsk) (only parsing).

Lemma backup_path : with_suffix f ".bak" = bak.
Proof.
  unfold with_suffix.
  pose proof (child_not_root dir "tasks.json") as Hne.
  destruct (child dir "tasks.json") as [|a q] eqn:E; [done|].
  rewrite <- E, parent_child. unfold child at 2. by rewrite last_last.
Qed.

Lemma backup_target_neq (w : world) : backup_target dir w <> f.
Proof.
  unfold backup_target, child. destruct (is_dir w _).
  - intros E. apply (f_equal (@length string)) in E.
    rewrite !length_app in E. simpl in E. lia.
  - intros E. apply app_inv_head in E. discriminate.
Qed.

Lemma create_backup_disk (w : world) (content : text) :
  node_at w f = Some (File content) ->
  disk (Tracker.create_backup self w)
  = if writable w (backup_target dir w)
    then <[backup_target dir w := File content]> (disk w) else disk w.
Proof.
  intros Hf. unfold Tracker.create_backup. cbn [Tracker.tasks_file].
  rewrite backup_path. unfold copy2.
  set (w1 := emit CallBackup w).
  change (is_dir w1 bak) with (is_dir w bak).
  assert (List.last f EmptyString = "tasks.json"%string) as ->
    by (unfold child; apply last_last).
  fold (backup_target dir w).
  assert (node_at w1 f = Some (File content)) as Hf1 by exact Hf.
  rewrite Hf1.
  cbn [mbind result_bind].
  destruct (writable w (backup_target dir w)) eqn:Hw.
  - assert (writable w1 (backup_target dir w) = true) as Hw1 by done.
    rewrite (open_w_writable _ _ Hw1). cbn [mbind result_bind].
    rewrite disk_print. rewrite write_after_open; [done|].
    by eapply writable_not_root.
  - assert (writable w1 (backup_target dir w) = false) as Hw1 by done.
    destruct (open_w_not_writable _ _ Hw1) as [e ->]. done.
Qed.

Lemma create_backup_keeps_store (w : world) (content : text) :
  node_at w f = Some (File content) ->
  disk (Tracker.create_backup self w) !! f = Some (File content).
Proof.
  intros Hf. rewrite (create_backup_disk w content Hf).
  assert (disk w !! f = Some (File content)) as Hd.
  { unfold child in *. by destruct dir. }
  destruct (writable w (backup_target dir w)); [|done].
  rewrite lookup_insert_ne; [done|apply backup_target_neq].
Qed.

(** The store file is there and reads as text: [load_tasks] goes to
    its [try]. *)
Lemma load_tasks_regular_file (w : world) (content : text) :
  node_at w f = Some (File content) ->
  Tracker.load_tasks self w
  = match Tracker.read_tasks self w with
    | Ok (inl ts) => (Ok ts, w)
    | Ok (inr data) =>
        (Ok [], Tracker.create_backup self
                  (print (WarnInvalidFormat (type_of data)) w))
    | Raise e =>
        if Tracker.caught_by_load e
        then (Ok [], Tracker.create_backup self (print (ErrLoading e) w))
        else (Raise e, w)
    end.
Proof.
  intros Hf. unfold Tracker.load_tasks, path_exists, is_file.
  cbn [Tracker.tasks_file]. by rewrite Hf.
Qed.

Lemma read_tasks_content (w : world) (content : text) :
  node_at w f = Some (File content) ->
  Tracker.read_tasks self w
  = (data ← Json.loads content;
     match data with
     | JArr items => ts ← Tracker.decode_items items; Ok (inl ts)
     | _ => Ok (inr data)
     end).
Proof.
  intros Hf. unfold Tracker.read_tasks, Tracker.parse_tasks, read.
  cbn [Tracker.tasks_file]. by rewrite Hf.
Qed.

Lemma create_backup_trace (w : world) (content : text) :
  node_at w f = Some (File content) ->
  trace (Tracker.create_backup self w)
  = trace w
    ++ [CallBackup;
        Printed (if writable w (backup_target dir w) then BackupCreated bak
                 else BackupFailed
                        (match open_w (backup_target dir w) w with
                         | Raise e => e
                         | Ok _ => IndexError
                         end))].
Proof.
  intros Hf. unfold Tracker.create_backup. cbn [Tracker.tasks_file].
  rewrite backup_path. unfold copy2.
  set (w1 := emit CallBackup w).
  change (is_dir w1 bak) with (is_dir w bak).
  assert (List.last f EmptyString = "tasks.json"%string) as ->
    by (unfold child; apply last_last).
  fold (backup_target dir w).
  assert (node_at w1 f = Some (File content)) as Hf1 by exact Hf.
  rewrite Hf1.
  cbn [mbind result_bind].
  destruct (writable w (backup_target dir w)) eqn:Hw.
  - assert (writable w1 (backup_target dir w) = true) as Hw1 by done.
    rewrite (open_w_writable _ _ Hw1). cbn [mbind result_bind].
    unfold print, emit. cbn [trace].
    destruct (write_trace (backup_target dir w) content
      (with_disk (<[backup_target dir w := File []]> (disk w1)) w1)) as [-> _].
    cbn [trace with_disk w1 emit]. by rewrite <- app_assoc.
  - assert (writable w1 (backup_target dir w) = false) as Hw1 by done.
    destruct (open_w_not_writable _ _ Hw1) as [e He]. rewrite He.
    assert (open_w (backup_target dir w) w = Raise (OSError e)) as ->.
    { unfold open_w in *. cbn [node_at] in *.
      change (node_at w1) with (node_at w) in He.
      change (readonly w1) with (readonly w) in He.
      destruct (node_at w (parent (backup_target dir w))) as [[| | |]|]; try done.
      destruct (node_at w (backup_target dir w)) as [[| | |]|]; try done;
        destruct (bool_decide _); done. }
    cbn [mbind result_bind]. unfold print, emit. cbn [trace w1 emit].
    by rewrite <- app_assoc.
Qed.

Lemma backup_and_reset (w : world) (content : text) (m : message) :
  node_at w f = Some (File content) ->
  reset_outcome dir w content (Ok [], Tracker.create_backup self (print m w)).
Proof.
  intros Hf. unfold reset_outcome. cbn [fst snd].
  assert (node_at (print m w) f = Some (File content)) as Hf' by done.
  pose proof (create_backup_disk (print m w) content Hf') as Hd.
  pose proof (create_backup_trace (print m w) content Hf') as Ht.
  change (backup_target dir (print m w)) with (backup_target dir w) in *.
  change (writable (print m w) (backup_target dir w))
    with (writable w (backup_target dir w)) in *.
  change (disk (print m w)) with (disk w) in *.
  split; [done|]. split; [by apply create_backup_keeps_store|].
  split.
  - unfold saves. rewrite Ht. unfold print, emit. cbn [trace].
    rewrite !count_saves_app.
    destruct (writable w (backup_target dir w)); cbn; lia.
  - unfold print, emit in Ht. cbn [trace] in Ht. rewrite <- app_assoc in Ht.
    cbn [app] in Ht.
    destruct (writable w (backup_target dir w)); [left|right];
      (split; [done|]); (split; [done|]); eauto.
Qed.

End Backup.




Lemma from_dict_outcome (data : json) :
  (exists t, Tracker.from_dict data = Ok t)
  \/ (exists e, Tracker.from_dict data = Raise e
                /\ Tracker.caught_by_load e = true).
Proof.
  unfold Tracker.from_dict, subscript, get_default.
  destruct data; try (right; eexists; split; [reflexivity|done]).
  destruct (dict_get (txt "description") members).
  - left. cbn [mbind result_bind].
    destruct (dict_get (txt "completed") members); cbn [mbind result_bind]; eauto.
  - right. eexists; split; [reflexivity|done].
Qed.


Lemma decode_items_outcome (items : list json) :
  (exists ts, Tracker.decode_items items = Ok ts)
  \/ (exists e, Tracker.decode_items items = Raise e
                /\ Tracker.caught_by_load e = true).
Proof.
  induction items as [|item items IH]; [left; by exists []|].
  simpl. destruct (from_dict_outcome item) as [[t ->]|(e & -> & He)].
  - destruct IH as [[ts ->]|(e & -> & He)]; cbn; eauto.
  - cbn. eauto.
Qed.

(** On a store file that reads as text, [load_tasks] raises only what
    [json.load] raises and its [except] clause does not name: the
    exceptions of [Task.from_dict] are all named there. *)
Lemma load_of_a_text_file_raises
  (dir : path) (tsk : option (list Task)) (w w1 : world) (content : text)
  (e : exn) :
  node_at w (child dir "tasks.json") = Some (File content) ->
  Tracker.load_tasks (Tracker.mkTracker (child dir "tasks.json") tsk) w
  = (Raise e, w1) ->
  w1 = w /\ Json.loads content = Raise e /\ Tracker.caught_by_load e = false.
Proof.
  intros Hf. rewrite (load_tasks_regular_file dir tsk w content Hf).
  rewrite (read_tasks_content dir tsk w content Hf).
  destruct (Json.loads content) as [v|e0]; cbn [mbind result_bind].
  - destruct v; try done.
    destruct (decode_items_outcome items) as [[ts ->]|(e1 & -> & He)];
      cbn [mbind result_bind]; [done|]. by rewrite He.
  - destruct (Tracker.caught_by_load e0) eqn:E; [done|].
    by intros [= <- <-].
Qed.

(** A store file that does not read as text: the error of [open] or of
    [f.read()] is none that the [except] clause of [load_tasks] names,
    so [load_tasks] raises it, and has printed and copied nothing. *)
Lemma load_of_a_file_that_is_not_read
  (f : path) (tsk : option (list Task)) (w : world) :
  (node_at w f = Some Unreadable ->
   Tracker.load_tasks (Tracker.mkTracker f tsk) w
   = (Raise (OSError PermissionError), w))
  /\ (node_at w f = Some Undecodable ->
      Tracker.load_tasks (Tracker.mkTracker f tsk) w
      = (Raise UnicodeDecodeError, w)).
Proof.
  unfold Tracker.load_tasks, Tracker.read_tasks, read, path_exists, is_file.
  cbn [Tracker.tasks_file]. split; by intros ->.
Qed.




(** ** Descriptions of the tasks in the list (C6) *)

Lemma rev_is_reverse (s : text) : rev s = reverse s.
Proof. unfold reverse. by rewrite <- rev_alt. Qed.

Lemma lstrip_head (s : text) (c : N) :
  head (lstrip s) = Some c -> isspace c = false.
Proof.
  induction s as [|a s IH]; simpl; [done|].
  destruct (isspace a) eqn:E; [done|]. simpl. by intros [= <-].
Qed.

Lemma lstrip_split (s : text) :
  exists pre, s = pre ++ lstrip s /\ blank pre = true.
Proof.
  induction s as [|a s (pre & IH & Hb)]; simpl.
  - by exists [].
  - destruct (isspace a) eqn:E.
    + exists (a :: pre). simpl. split; [by rewrite <- IH|].
      unfold blank in *. simpl. by rewrite E, Hb.
    + by exists [].
Qed.

Lemma last_lstrip (s : text) (c : N) :
  last (lstrip s) = Some c -> last s = Some c.
Proof.
  intros H. destruct (lstrip_split s) as (pre & E & _).
  rewrite E, last_app, H. done.
Qed.

Lemma strip_stripped (d : text) : strip d <> [] -> stripped (strip d).
Proof.
  intros Hne. split; [done|]. unfold strip, rstrip in *.
  rewrite !rev_is_reverse in *. split.
  - intros c. rewrite head_reverse. intros H.
    apply last_lstrip in H. rewrite last_reverse in H.
    by apply lstrip_head in H.
  - intros c. rewrite last_reverse. apply lstrip_head.
Qed.

(** C6, amended.  Every task that [add_task] puts in the list has a
    description that is not empty and has no whitespace at either end;
    and when this holds of every task of the list, it holds of every
    task of the list after [add_task], [complete_task] and
    [remove_task].  (A task read from the store file keeps the
    description the file gives it.) *)
Theorem operations_keep_descriptions_stripped
  (f : path) (ts : list Task) (w : world) :
  let self := Tracker.mkTracker f (Some ts) in
  let kept (r : result Tracker.TaskTracker * world) :=
    exists ts', r.1 = Ok (Tracker.mkTracker f (Some ts'))
                /\ Forall well_described ts' in
  Forall well_described ts ->
  (forall d, kept (Tracker.add_task self d w))
  /\ (forall d, blank d = false ->
        well_described (mkTask (JStr (strip d)) (JBool false))
        /\ (Tracker.add_task self d w).1
           = Ok (Tracker.mkTracker f
                   (Some (ts ++ [mkTask (JStr (strip d)) (JBool false)]))))
  /\ (forall i, kept (Tracker.complete_task self i w))
  /\ (forall i, kept (Tracker.remove_task self i w)).
Proof.
  intros self kept Hall; subst self kept. cbv beta.
  assert (forall d, blank d = false ->
            well_described (mkTask (JStr (strip d)) (JBool false))) as Hnew.
  { intros d Hd. exists (strip d). split; [done|]. apply strip_stripped.
    intros E. apply strip_nil in E. congruence. }
  split; [|split; [|split]].
  - intros d. destruct (blank d) eqn:Hd.
    + rewrite add_task_rejected by done. eauto.
    + rewrite add_task_accepted by done. eexists; split; [done|].
      apply Forall_app; split; [done|]. apply Forall_singleton. by apply Hnew.
  - intros d Hd. split; [by apply Hnew|]. by rewrite add_task_accepted.
  - intros i. destruct (decide (in_range ts i)) as [H|H].
    + destruct (in_range_lookup ts i H) as [t Ht].
      rewrite (complete_task_accepted f ts w i t) by done.
      eexists; split; [done|]. apply Forall_insert; [done|].
      eapply Forall_lookup_1 in Hall as (s & Hs & Hstr); [|exact Ht].
      by exists s.
    + destruct (complete_task_rejected f ts w i H) as [m ->]. eauto.
  - intros i. destruct (decide (in_range ts i)) as [H|H].
    + destruct (in_range_lookup ts i H) as [t Ht].
      rewrite (remove_task_accepted f ts w i t) by done.
      eexists; split; [done|]. by apply Forall_delete.
    + destruct (remove_task_rejected f ts w i H) as [m ->]. eauto.
Qed.

(** C6 as stated fails for a task that comes from the store file:
    [from_dict] takes the description as the file gives it. *)
Lemma load_keeps_descriptions_as_they_are :
  let w := world_with_store padded_description ∅ in
  let r := Tracker.load_tasks (Tracker.mkTracker ["app"; "tasks.json"] None) w in
  r.1 = Ok [mkTask (JStr (txt " x ")) (JBool false)]
  /\ ~ well_described (mkTask (JStr (txt " x ")) (JBool false)).
Proof.
  split; [vm_compute; reflexivity|].
  intros (s & Hs & _ & Hhead & _). simpl in Hs. inversion Hs; subst s.
  specialize (Hhead 32 eq_refl). vm_compute in Hhead. discriminate.
Qed.

(** ** The lines of the activity formatter (C10) *)

Section ActivityLines.

Variable repr_other : json -> text.
Variable capitalize_other : text -> text.

Let format_event := Activity.format_event repr_other capitalize_other.
Let str_of := Activity.str_of repr_other.
Let capitalize := Activity.capitalize capitalize_other.
Let print_activity := Activity.print_activity repr_other capitalize_other.

Lemma is_str_true (s : text) (lit : string) :
  Activity.is_str (JStr s) lit = true <-> s = txt lit.
Proof. unfold Activity.is_str, text_eqb. apply bool_decide_eq_true. Qed.

Lemma fetch_two (v : json) (k1 k2 : string) (x : json) :
  fetch v [k1; k2] = Ok x ->
  exists y, subscript v (txt k1) = Ok y /\ subscript y (txt k2) = Ok x.
Proof.
  simpl. destruct (subscript v (txt k1)) as [y|]; [|done].
  cbn [mbind result_bind]. destruct (subscript y (txt k2)) as [z|] eqn:E; [|done].
  cbn [mbind result_bind]. intros [= <-]. eauto.
Qed.

Lemma fetch_three (v : json) (k1 k2 k3 : string) (x : json) :
  fetch v [k1; k2; k3] = Ok x ->
  exists y z, subscript v (txt k1) = Ok y /\ subscript y (txt k2) = Ok z
              /\ subscript z (txt k3) = Ok x.
Proof.
  simpl. destruct (subscript v (txt k1)) as [y|]; [|done].
  cbn [mbind result_bind]. destruct (subscript y (txt k2)) as [z|] eqn:E; [|done].
  cbn [mbind result_bind]. destruct (subscript z (txt k3)) as [u|] eqn:E3; [|done].
  cbn [mbind result_bind]. intros [= <-]. eauto.
Qed.

Lemma print_events_length (events : list json) :
  (length (Activity.print_events repr_other capitalize_other events).1
   <= length events)%nat.
Proof.
  induction events as [|ev events IH]; simpl; [done|].
  destruct (Activity.format_event _ _ ev); simpl; [|lia].
  destruct (Activity.print_events _ _ events). simpl in *. lia.
Qed.

Lemma print_events_all_formatted (events : list json) (lines : list text) :
  Forall2 (fun ev line => format_event ev = Ok line) events lines ->
  Activity.print_events repr_other capitalize_other events
  = (map (app (txt "- ")) lines, None).
Proof.
  induction 1 as [|ev line events lines Hev _ IH]; simpl; [done|].
  unfold format_event in Hev. by rewrite Hev, IH.
Qed.


End ActivityLines.

(** ** Saving and loading again (C5) *)

(** *** Characters: escapes and their reading *)

Lemma hexval_hexdigit (d : N) : d < 16 -> Json.hexval (Json.hexdigit d) = Some d.
Proof.
  intros H.
  assert (d = 0 \/ d = 1 \/ d = 2 \/ d = 3 \/ d = 4 \/ d = 5 \/ d = 6 \/ d = 7
          \/ d = 8 \/ d = 9 \/ d = 10 \/ d = 11 \/ d = 12 \/ d = 13 \/ d = 14
          \/ d = 15) as Hd by lia.
  repeat (destruct Hd as [->|Hd]; [reflexivity|]). by subst.
Qed.

Lemma unhex4_hex4 (n : N) :
  n < 65536 ->
  match Json.hex4 n with
  | [a; b; c; d] => Json.unhex4 a b c d = Some n
  | _ => False
  end.
Proof.
  intros H. unfold Json.hex4, Json.unhex4.
  rewrite !hexval_hexdigit by (apply N.mod_lt; lia).
  cbn [mbind option_bind]. f_equal.

  replace (n / 4096) with (n / 16 / 16 / 16)
    by (rewrite !N.Div0.div_div; done).
  replace (n / 256) with (n / 16 / 16)
    by (rewrite !N.Div0.div_div; done).
  pose proof (N.Div0.div_mod n 16) as E1.
  pose proof (N.Div0.div_mod (n / 16) 16) as E2.
  pose proof (N.Div0.div_mod (n / 16 / 16) 16) as E3.
  pose proof (N.mod_lt n 16) as L1.
  pose proof (N.mod_lt (n / 16) 16) as L2.
  pose proof (N.mod_lt (n / 16 / 16) 16) as L3.
  assert (n / 16 / 16 / 16 < 16) as L4.
  { rewrite !N.Div0.div_div. apply N.Div0.div_lt_upper_bound. simpl. lia. }
  rewrite (N.mod_small _ _ L4).
  generalize dependent (n / 16 / 16 / 16). intros q1.
  generalize dependent ((n / 16 / 16) mod 16). intros r1.
  generalize dependent (n / 16 / 16). intros q2.
  generalize dependent ((n / 16) mod 16). intros r2.
  generalize dependent (n / 16). intros q3.
  generalize dependent (n mod 16). intros r3.
  intros. lia.
Qed.

Lemma land_shifted (x a k : N) : a < 2 ^ k -> N.land (N.shiftl x k) a = 0.
Proof.
  intros H. apply N.bits_inj. intros n. rewrite N.land_spec, N.bits_0.
  destruct (N.lt_ge_cases n k) as [Hn|Hn].
  - by rewrite N.shiftl_spec_low.
  - assert (N.testbit a n = false) as ->; [|by rewrite andb_false_r].
    destruct (decide (a = 0)) as [->|Ha]; [apply N.bits_0|].
    apply N.bits_above_log2. apply N.log2_lt_pow2; [lia|].
    eapply N.lt_le_trans; [exact H|]. by apply N.pow_le_mono_r.
Qed.

Lemma lor_shifted (x a k : N) :
  a < 2 ^ k -> N.lor (N.shiftl x k) a = x * 2 ^ k + a.
Proof.
  intros H. rewrite <- N.shiftl_mul_pow2.
  rewrite <- N.lxor_lor by by apply land_shifted.
  symmetry. apply N.add_nocarry_lxor. by apply land_shifted.
Qed.

Lemma surrogates_roundtrip (c : N) :
  65536 <= c -> c < 1114112 ->
  let v := c - 65536 in
  let hi := N.lor 55296 (N.land (N.shiftr v 10) 1023) in
  let lo := N.lor 56320 (N.land v 1023) in
  hi < 65536 /\ lo < 65536
  /\ Json.is_high_surrogate hi = true /\ Json.is_low_surrogate lo = true
  /\ Json.join_surrogates hi lo = c.
Proof.
  intros H1 H2 v hi lo.
  assert (v < 1048576) as Hv by (unfold v; lia).
  assert (N.land (N.shiftr v 10) 1023 = v / 1024) as Ea.
  { change 1023 with (N.ones 10). rewrite N.land_ones, N.shiftr_div_pow2.
    apply N.mod_small. change (2 ^ 10) with 1024.
    apply N.Div0.div_lt_upper_bound. lia. }
  assert (N.land v 1023 = v mod 1024) as Eb.
  { change 1023 with (N.ones 10). by rewrite N.land_ones. }
  pose proof (N.Div0.div_mod v 1024) as Ev.
  pose proof (N.mod_lt v 1024) as Lb.
  assert (v / 1024 < 1024) as La by (apply N.Div0.div_lt_upper_bound; lia).
  assert (hi = 55296 + v / 1024) as Ehi.
  { unfold hi. rewrite Ea. change 55296 with (N.shiftl 54 10).
    rewrite lor_shifted by (change (2 ^ 10) with 1024; lia). done. }
  assert (lo = 56320 + v mod 1024) as Elo.
  { unfold lo. rewrite Eb. change 56320 with (N.shiftl 55 10).
    rewrite lor_shifted by (change (2 ^ 10) with 1024; lia). done. }
  assert (N.land hi 1023 = v / 1024) as Ehl.
  { change 1023 with (N.ones 10). rewrite N.land_ones, Ehi.
    change (2 ^ 10) with 1024. change 55296 with (54 * 1024).
    rewrite N.add_comm, N.Div0.mod_add. apply N.mod_small. lia. }
  assert (N.land lo 1023 = v mod 1024) as Ell.
  { change 1023 with (N.ones 10). rewrite N.land_ones, Elo.
    change (2 ^ 10) with 1024. change 56320 with (55 * 1024).
    rewrite N.add_comm, N.Div0.mod_add. apply N.mod_small. lia. }
  unfold Json.is_high_surrogate, Json.is_low_surrogate, Json.join_surrogates.
  rewrite Ehl, Ell, lor_shifted by (change (2 ^ 10) with 1024; lia).
  change (2 ^ 10) with 1024. rewrite Ehi, Elo.
  repeat split; try lia; apply andb_true_iff; split; apply N.leb_le; lia.
Qed.

Lemma scanstring_quote (t : text) : Json.scanstring (34 :: t) = Ok ([], t).
Proof. reflexivity. Qed.

Lemma scanstring_plain (c : N) (t : text) :
  (c =? 34) = false -> (c =? 92) = false -> (c <? 32) = false ->
  Json.scanstring (c :: t)
  = '(str, rest) ← Json.scanstring t; Ok (c :: str, rest).
Proof. intros H1 H2 H3. cbn [Json.scanstring]. by rewrite H1, H2, H3. Qed.

Lemma scanstring_simple (e ch : N) (t : text) :
  (e =? 117) = false -> Json.simple_escape e = Some ch ->
  Json.scanstring (92 :: e :: t)
  = '(str, rest) ← Json.scanstring t; Ok (ch :: str, rest).
Proof.
  intros H1 H2. cbn [Json.scanstring].
  change (92 =? 34) with false. change (92 =? 92) with true. cbv iota.
  by rewrite H1, H2.
Qed.

Lemma scanstring_u_single (h1 h2 h3 h4 u : N) (t : text) :
  Json.unhex4 h1 h2 h3 h4 = Some u ->
  Json.is_high_surrogate u && low_escape_ahead t = false ->
  Json.scanstring (92 :: 117 :: h1 :: h2 :: h3 :: h4 :: t)
  = '(str, rest) ← Json.scanstring t; Ok (u :: str, rest).
Proof.
  intros Hu Hs. cbn [Json.scanstring].
  change (92 =? 34) with false. change (92 =? 92) with true.
  change (117 =? 117) with true. cbv iota. rewrite Hu.
  destruct (Json.is_high_surrogate u); [|done]. simpl in Hs.
  unfold low_escape_ahead in Hs.
  destruct t as [|b [|l [|g1 [|g2 [|g3 [|g4 t']]]]]]; try done.
  destruct ((b =? 92) && (l =? 117)); [|done]. simpl in Hs.
  destruct (Json.unhex4 g1 g2 g3 g4) as [u2|]; [|done]. by rewrite Hs.
Qed.

Lemma scanstring_u_pair (h1 h2 h3 h4 g1 g2 g3 g4 u u2 : N) (t : text) :
  Json.unhex4 h1 h2 h3 h4 = Some u ->
  Json.unhex4 g1 g2 g3 g4 = Some u2 ->
  Json.is_high_surrogate u = true -> Json.is_low_surrogate u2 = true ->
  Json.scanstring
    (92 :: 117 :: h1 :: h2 :: h3 :: h4 :: 92 :: 117 :: g1 :: g2 :: g3 :: g4 :: t)
  = '(str, rest) ← Json.scanstring t;
    Ok (Json.join_surrogates u u2 :: str, rest).
Proof.
  intros Hu Hu2 Hh Hl. cbn [Json.scanstring].
  change (92 =? 34) with false. change (92 =? 92) with true.
  change (117 =? 117) with true. cbv iota. rewrite Hu, Hh.
  cbn [andb]. by rewrite Hu2, Hl.
Qed.

Lemma low_escape_ahead_first (b : N) (t : text) :
  (b =? 92) = false -> low_escape_ahead (b :: t) = false.
Proof.
  intros H. unfold low_escape_ahead.
  destruct t as [|l [|g1 [|g2 [|g3 [|g4 t']]]]]; try done. by rewrite H.
Qed.

Lemma low_escape_ahead_second (b l : N) (t : text) :
  (l =? 117) = false -> low_escape_ahead (b :: l :: t) = false.
Proof.
  intros H. unfold low_escape_ahead.
  destruct t as [|g1 [|g2 [|g3 [|g4 t']]]]; try done.
  by rewrite H, andb_false_r.
Qed.

Lemma low_escape_ahead_u (h1 h2 h3 h4 u : N) (t : text) :
  Json.unhex4 h1 h2 h3 h4 = Some u ->
  low_escape_ahead (92 :: 117 :: h1 :: h2 :: h3 :: h4 :: t)
  = Json.is_low_surrogate u.
Proof. intros H. unfold low_escape_ahead. by rewrite H. Qed.

Lemma unhex4_uescape (n : N) (t : text) :
  n < 65536 ->
  exists h1 h2 h3 h4,
    Json.uescape n ++ t = 92 :: 117 :: h1 :: h2 :: h3 :: h4 :: t
    /\ Json.unhex4 h1 h2 h3 h4 = Some n.
Proof.
  intros H. pose proof (unhex4_hex4 n H) as E.
  unfold Json.uescape, Json.hex4 in *. eauto 10.
Qed.

Lemma escape_char_shape (c : N) :
  c < 1114112 -> escape_shape c (Json.escape_char c).
Proof.
  intros Hc. unfold Json.escape_char.
  destruct (c =? 34) eqn:E1;
    [apply N.eqb_eq in E1; subst; by apply (shape_simple 34 34)|].
  destruct (c =? 92) eqn:E2;
    [apply N.eqb_eq in E2; subst; by apply (shape_simple 92 92)|].
  destruct (c =? 10) eqn:E3;
    [apply N.eqb_eq in E3; subst; by apply (shape_simple 10 110)|].
  destruct (c =? 13) eqn:E4;
    [apply N.eqb_eq in E4; subst; by apply (shape_simple 13 114)|].
  destruct (c =? 9) eqn:E5;
    [apply N.eqb_eq in E5; subst; by apply (shape_simple 9 116)|].
  destruct (c =? 12) eqn:E6;
    [apply N.eqb_eq in E6; subst; by apply (shape_simple 12 102)|].
  destruct (c =? 8) eqn:E7;
    [apply N.eqb_eq in E7; subst; by apply (shape_simple 8 98)|].
  destruct ((32 <=? c) && (c <=? 126)) eqn:E8.
  { apply andb_true_iff in E8 as [E8 _]. apply N.leb_le in E8.
    apply shape_itself; try done. apply N.ltb_ge. lia. }
  destruct (c <? 65536) eqn:E9.
  { apply N.ltb_lt in E9. by apply shape_u. }
  apply N.ltb_ge in E9.
  destruct (surrogates_roundtrip c E9 Hc) as (H1 & H2 & H3 & H4 & H5).
  by apply shape_pair.
Qed.

Lemma low_escape_ahead_escape_char (c : N) (t : text) :
  c < 1114112 -> Json.is_low_surrogate c = false ->
  low_escape_ahead (Json.escape_char c ++ t) = false.
Proof.
  intros Hc Hl. destruct (escape_char_shape c Hc) as [e He _| H1 H2 H3|H|hi lo Hhi Hlo Hh Hlw Hj].
  - by apply low_escape_ahead_second.
  - by apply low_escape_ahead_first.
  - destruct (unhex4_uescape c t H) as (h1 & h2 & h3 & h4 & -> & Hu).
    by rewrite (low_escape_ahead_u _ _ _ _ c).
  - rewrite <- app_assoc.
    destruct (unhex4_uescape hi (Json.uescape lo ++ t) Hhi)
      as (h1 & h2 & h3 & h4 & -> & Hu).
    rewrite (low_escape_ahead_u _ _ _ _ hi) by done.
    unfold Json.is_high_surrogate, Json.is_low_surrogate in *.
    apply andb_true_iff in Hh as [Hh1 Hh2].
    apply N.leb_le in Hh1, Hh2. apply andb_false_iff. left.
    apply N.leb_gt. lia.
Qed.

Lemma scanstring_escaped (s rest : text) :
  plain_text s = true ->
  Json.scanstring (escaped s ++ 34 :: rest) = Ok (s, rest).
Proof.
  induction s as [|c s IH]; intros Hs; [reflexivity|].
  simpl in Hs. apply andb_true_iff in Hs as [Hs Hs'].
  apply andb_true_iff in Hs as [Hc Hpair]. apply N.ltb_lt in Hc.
  specialize (IH Hs').
  unfold escaped in *. cbn [map concat]. rewrite <- app_assoc.
  set (tail := concat (map Json.escape_char s) ++ 34 :: rest) in *.
  assert (Json.is_high_surrogate c && low_escape_ahead tail = false) as Hno.
  { destruct (Json.is_high_surrogate c); [|done]. cbn [andb] in *.
    unfold tail. destruct s as [|c' s'].
    - by apply low_escape_ahead_first.
    - simpl in Hs'. apply andb_true_iff in Hs' as [Hs' _].
      apply andb_true_iff in Hs' as [Hc' _]. apply N.ltb_lt in Hc'.
      cbn [map concat]. rewrite <- app_assoc.
      apply low_escape_ahead_escape_char; [done|].
      by destruct (Json.is_low_surrogate c'). }
  destruct (escape_char_shape c Hc)
    as [e He1 He2| H1 H2 H3|H|hi lo Hhi Hlo Hh Hlw Hj].
  - cbn [app]. rewrite (scanstring_simple e c) by done. by rewrite IH.
  - cbn [app]. rewrite scanstring_plain by done. by rewrite IH.
  - destruct (unhex4_uescape c tail H) as (h1 & h2 & h3 & h4 & -> & Hu).
    rewrite (scanstring_u_single _ _ _ _ c) by done. by rewrite IH.
  - rewrite <- app_assoc.
    destruct (unhex4_uescape lo tail Hlo) as (g1 & g2 & g3 & g4 & -> & Hu2).
    destruct (unhex4_uescape hi (92 :: 117 :: g1 :: g2 :: g3 :: g4 :: tail) Hhi)
      as (h1 & h2 & h3 & h4 & -> & Hu).
    rewrite (scanstring_u_pair _ _ _ _ _ _ _ _ hi lo) by done.
    rewrite IH. cbn. by rewrite Hj.
Qed.

(** *** Numbers *)

Lemma digits_value_app (a b : text) (z : Z) :
  fold_left digits_step (a ++ b) z = fold_left digits_step b (fold_left digits_step a z).
Proof. apply fold_left_app. Qed.

(** What [digits_before] puts before [acc]: digits that denote [n],
    without a leading zero unless [n] is zero. *)
Lemma digits_before_spec (fuel : nat) :
  forall (n : N) (acc : text),
    n < 10 ^ N.of_nat (S fuel) ->
    exists ds k,
      Json.digits_before (S fuel) n acc = ds ++ acc
      /\ ds <> []
      /\ forallb Json.is_digit ds = true
      /\ (forall z, fold_left digits_step ds z = (z * 10 ^ k + Z.of_N n)%Z)
      /\ (0 <= k)%Z
      /\ (0 < n -> exists d ds', ds = d :: ds' /\ (d =? 48) = false).
Proof.
  assert (forall n, Json.is_digit (48 + n mod 10) = true) as Hdig.
  { intros n. assert (n mod 10 < 10) as Hmod by (apply N.mod_lt; lia).
    unfold Json.is_digit. generalize dependent (n mod 10). intros r Hr.
    apply andb_true_iff. split; apply N.leb_le; lia. }
  assert (forall n acc, n < 10 ->
    exists ds k,
      (48 + n mod 10) :: acc = ds ++ acc
      /\ ds <> []
      /\ forallb Json.is_digit ds = true
      /\ (forall z, fold_left digits_step ds z = (z * 10 ^ k + Z.of_N n)%Z)
      /\ (0 <= k)%Z
      /\ (0 < n -> exists d ds', ds = d :: ds' /\ (d =? 48) = false)) as Hsmall.
  { intros n acc E. specialize (Hdig n). rewrite N.mod_small in * by done.
    exists [48 + n], 1%Z. split; [done|]. split; [done|].
    split; [by cbn; rewrite Hdig|]. split; [|split; [lia|]].
    * intros z. cbn. unfold digits_step. lia.
    * intros Hpos. exists (48 + n), []. split; [done|]. apply N.eqb_neq. lia. }
  induction fuel as [|fuel IH]; intros n acc Hn.
  - cbn [Json.digits_before].
    assert ((n <? 10) = true) as -> by (apply N.ltb_lt; simpl in Hn; lia).
    apply Hsmall. simpl in Hn. lia.
  - cbn [Json.digits_before]. specialize (Hdig n).
    destruct (n <? 10) eqn:E.
    + apply N.ltb_lt in E. by apply Hsmall.
    + apply N.ltb_ge in E. fold (Json.digits_before (S fuel)).
      assert (n / 10 < 10 ^ N.of_nat (S fuel)) as Hq.
      { apply N.Div0.div_lt_upper_bound.
        replace (N.of_nat (S (S fuel))) with (N.succ (N.of_nat (S fuel))) in Hn
          by lia.
        by rewrite N.pow_succ_r' in Hn. }
      destruct (IH (n / 10) ((48 + n mod 10) :: acc) Hq)
        as (ds & k & Eds & Hne & Hall & Hval & Hk & Hhead).
      cbn [Json.digits_before] in Eds. rewrite Eds.
      exists (ds ++ [48 + n mod 10]), (k + 1)%Z.
      split; [by rewrite <- app_assoc|]. split; [by destruct ds|].
      split; [rewrite forallb_app, Hall; cbn; by rewrite Hdig|].
      split; [|split; [lia|]].
      * intros z. rewrite digits_value_app, Hval. cbn. unfold digits_step.
        rewrite Z.pow_add_r by lia.
        pose proof (N.Div0.div_mod n 10) as Ediv. lia.
      * intros _. destruct Hhead as (d & ds' & -> & Hd).
        { apply N.div_str_pos. lia. }
        exists d, (ds' ++ [48 + n mod 10]). done.
Qed.

Lemma decimal_N_spec (n : N) :
  exists ds,
    Json.decimal_N n = ds
    /\ ds <> []
    /\ forallb Json.is_digit ds = true
    /\ Json.digits_value ds = Z.of_N n
    /\ (0 < n -> exists d ds', ds = d :: ds' /\ (d =? 48) = false).
Proof.
  unfold Json.decimal_N.
  destruct (digits_before_spec (N.to_nat (N.log2 n)) n [])
    as (ds & k & E & Hne & Hall & Hval & Hk & Hhead).
  { destruct (decide (n = 0)) as [->|Hn]; [done|].
    eapply N.lt_le_trans; [apply N.log2_spec; lia|].
    replace (N.of_nat (S (N.to_nat (N.log2 n)))) with (N.succ (N.log2 n)) by lia.
    apply N.pow_le_mono_l. lia. }
  rewrite app_nil_r in E. exists ds. split; [done|]. split; [done|].
  split; [done|]. split; [|done].
  unfold Json.digits_value. change (fold_left _ ds 0%Z) with (fold_left digits_step ds 0%Z).
  rewrite Hval. lia.
Qed.

Lemma span_digits_app (ds rest : text) :
  forallb Json.is_digit ds = true -> delimited rest = true ->
  Json.span_digits (ds ++ rest) = (ds, rest).
Proof.
  intros Hds Hrest. induction ds as [|d ds IH]; simpl in *.
  - destruct rest as [|c rest']; [done|]. simpl in Hrest.
    apply orb_true_iff in Hrest as [E|E]; apply N.eqb_eq in E; by subst.
  - apply andb_true_iff in Hds as [Hd Hds]. by rewrite Hd, IH.
Qed.

Lemma scan_frac_delimited (rest : text) :
  delimited rest = true -> Json.scan_frac rest = ([], rest).
Proof.
  destruct rest as [|c rest']; [done|]. simpl. intros H.
  apply orb_true_iff in H as [E|E]; apply N.eqb_eq in E; by subst.
Qed.

Lemma scan_exp_delimited (rest : text) :
  delimited rest = true -> Json.scan_exp rest = ([], rest).
Proof.
  destruct rest as [|c rest']; [done|]. simpl. intros H.
  apply orb_true_iff in H as [E|E]; apply N.eqb_eq in E; by subst.
Qed.

Lemma scan_int_part_decimal (n : N) (rest : text) :
  delimited rest = true ->
  exists ds,
    Json.decimal_N n = ds
    /\ Json.scan_int_part (ds ++ rest) = Some (ds, rest)
    /\ Json.digits_value ds = Z.of_N n
    /\ exists d ds', ds = d :: ds' /\ Json.is_digit d = true.
Proof.
  intros Hrest.
  destruct (decimal_N_spec n) as (ds & E & Hne & Hall & Hval & Hhead).
  exists ds. split; [done|]. split; [|split; [done|]].
  - destruct (decide (n = 0)) as [->|Hn].
    + subst ds. reflexivity.
    + destruct Hhead as (d & ds' & -> & Hd); [lia|].
      simpl in Hall. apply andb_true_iff in Hall as [Hdig Hall].
      cbn [app Json.scan_int_part]. rewrite Hd, Hdig.
      by rewrite span_digits_app.
  - destruct ds as [|d ds']; [done|]. simpl in Hall.
    apply andb_true_iff in Hall as [Hdig _]. eauto.
Qed.

Lemma digit_range (d : N) : Json.is_digit d = true -> 48 <= d <= 57.
Proof.
  unfold Json.is_digit. intros H. apply andb_true_iff in H as [H1 H2].
  apply N.leb_le in H1, H2. lia.
Qed.

Lemma strip_prefix_head (a b : N) (lit s : text) :
  head lit = Some a -> (a =? b) = false ->
  Json.strip_prefix lit (b :: s) = None.
Proof. destruct lit; intros [= ->] H. simpl. by rewrite H. Qed.

(** A text that starts with a digit, or with a minus sign and a digit,
    is none of the literals of the scanner. *)
Lemma scan_scalar_number (s : text) :
  (exists d s', Json.is_digit d = true /\ (s = d :: s' \/ s = 45 :: d :: s')) ->
  Json.scan_scalar s
  = match Json.scan_number s with
    | Some vr => Ok vr
    | None => Raise JSONDecodeError
    end.
Proof.
  intros (d & s' & Hd & Hs). apply digit_range in Hd. unfold Json.scan_scalar.
  destruct Hs as [->| ->].
  - rewrite (strip_prefix_head 110), (strip_prefix_head 116),
      (strip_prefix_head 102), (strip_prefix_head 78),
      (strip_prefix_head 73), (strip_prefix_head 45);
      try done; apply N.eqb_neq; lia.
  - rewrite (strip_prefix_head 110), (strip_prefix_head 116),
      (strip_prefix_head 102), (strip_prefix_head 78),
      (strip_prefix_head 73); try done.
    assert (Json.strip_prefix (txt "-Infinity") (45 :: d :: s') = None) as ->;
      [|done].
    change (txt "-Infinity") with (45 :: txt "Infinity").
    cbn [Json.strip_prefix]. change (45 =? 45) with true. cbv iota.
    apply (strip_prefix_head 73); [done|]. apply N.eqb_neq. lia.
Qed.

(** An [int] is read back from its decimal text. *)
Lemma scan_scalar_decimal (n : Z) (rest : text) :
  delimited rest = true ->
  Json.scan_scalar (Json.decimal n ++ rest) = Ok (JInt n, rest).
Proof.
  intros Hrest. unfold Json.decimal. destruct n as [|p|p].
  - cbn [app]. rewrite scan_scalar_number by (exists 48, rest; eauto).
    unfold Json.scan_number. change (48 =? 45) with false. cbv iota.
    change (Json.scan_int_part (48 :: rest)) with (Some ([48], rest)).
    cbn [mbind option_bind]. rewrite scan_frac_delimited by done.
    by rewrite scan_exp_delimited.
  - destruct (scan_int_part_decimal (Npos p) rest Hrest)
      as (ds & -> & Hscan & Hval & d & ds' & -> & Hd).
    apply digit_range in Hd as Hr.
    rewrite scan_scalar_number by (exists d, (ds' ++ rest); eauto).
    unfold Json.scan_number. cbn [app].
    assert ((d =? 45) = false) as -> by (apply N.eqb_neq; lia).
    cbn [app] in Hscan. rewrite Hscan. cbn [mbind option_bind].
    rewrite scan_frac_delimited, scan_exp_delimited by done.
    by rewrite Hval.
  - destruct (scan_int_part_decimal (Npos p) rest Hrest)
      as (ds & -> & Hscan & Hval & d & ds' & -> & Hd).
    apply digit_range in Hd as Hr.
    rewrite scan_scalar_number by (exists d, (ds' ++ rest); eauto).
    unfold Json.scan_number. cbn [app]. change (45 =? 45) with true. cbv iota.
    cbn [app] in Hscan. rewrite Hscan. cbn [mbind option_bind].
    rewrite scan_frac_delimited, scan_exp_delimited by done.
    by rewrite Hval.
Qed.

(** *** Values *)

Lemma skip_ws_newline_indent (lvl : nat) (t : text) :
  Json.skip_ws (Json.newline_indent lvl ++ t) = Json.skip_ws t.
Proof.
  unfold Json.newline_indent. cbn [app Json.skip_ws].
  change (Json.is_ws 10) with true. cbv iota.
  induction (4 * lvl)%nat as [|k IH]; [done|]. simpl. exact IH.
Qed.

Lemma skip_ws_at (c : N) (t : text) :
  Json.is_ws c = false -> Json.skip_ws (c :: t) = c :: t.
Proof. intros H. simpl. by rewrite H. Qed.

(** An induction principle for [json] that reaches the items of a list
    and the values of a dict. *)
Lemma json_nested_ind (P : json -> Prop) :
  P JNull -> (forall b, P (JBool b)) -> (forall n, P (JInt n)) ->
  (forall lexeme, P (JFloat lexeme)) -> (forall s, P (JStr s)) ->
  (forall items, Forall P items -> P (JArr items)) ->
  (forall members, Forall (fun kv => P kv.2) members -> P (JObj members)) ->
  forall v, P v.
Proof.
  intros Hnull Hbool Hint Hfloat Hstr Harr Hobj.
  fix IH 1. intros [|b|n|lexeme|s|items|members].
  - exact Hnull.
  - apply Hbool.
  - apply Hint.
  - apply Hfloat.
  - apply Hstr.
  - apply Harr. induction items as [|x items IHl]; constructor.
    + apply IH.
    + exact IHl.
  - apply Hobj. induction members as [|[k x] members IHl]; constructor.
    + apply IH.
    + exact IHl.
Qed.

Lemma encode_head (lvl : nat) (v : json) :
  safe v ->
  exists d t,
    Json.encode lvl v = d :: t
    /\ Json.is_ws d = false /\ (d =? 93) = false /\ (d =? 125) = false
    /\ (d =? 34) = (if v is JStr _ then true else false)
    /\ (d =? 91) = (if v is JArr _ then true else false)
    /\ (d =? 123) = (if v is JObj _ then true else false).
Proof.
  intros Hv. destruct v as [|[|]|n| |s|[|x items]|[|kv members]];
    try (eexists _, _; split; [reflexivity|done]); try done.
  unfold Json.encode, Json.decimal. destruct n as [|p|p].
  - eexists _, _; split; [reflexivity|done].
  - destruct (scan_int_part_decimal (Npos p) [] eq_refl)
      as (ds & -> & _ & _ & d & ds' & -> & Hd).
    apply digit_range in Hd. exists d, ds'. split; [done|].
    unfold Json.is_ws.
    repeat split; repeat (apply orb_false_iff; split);
      apply N.eqb_neq; lia.
  - eexists _, _; split; [reflexivity|done].
Qed.

(** One step of the scanner, case by case. *)
Lemma scan_once_string (fuel : nat) (t : text) :
  Json.scan_once (S fuel) (34 :: t)
  = '(str, rest) ← Json.scanstring t; Ok (JStr str, rest).
Proof. reflexivity. Qed.

Lemma scan_once_scalar (fuel : nat) (d : N) (t : text) :
  (d =? 34) = false -> (d =? 123) = false -> (d =? 91) = false ->
  Json.scan_once (S fuel) (d :: t) = Json.scan_scalar (d :: t).
Proof. intros H1 H2 H3. cbn [Json.scan_once]. by rewrite H1, H2, H3. Qed.

Lemma scan_once_array (fuel : nat) (t : text) (d : N) (rest : text) :
  Json.skip_ws t = d :: rest -> (d =? 93) = false ->
  Json.scan_once (S fuel) (91 :: t)
  = '(items, rest') ← Json.scan_items fuel (d :: rest); Ok (JArr items, rest').
Proof.
  intros H1 H2. cbn [Json.scan_once].
  change (91 =? 34) with false. change (91 =? 123) with false.
  change (91 =? 91) with true. cbv iota. by rewrite H1, H2.
Qed.

Lemma scan_once_object (fuel : nat) (t : text) (d : N) (rest : text) :
  Json.skip_ws t = d :: rest -> (d =? 125) = false ->
  Json.scan_once (S fuel) (123 :: t)
  = '(pairs, rest') ← Json.scan_members fuel (d :: rest);
    Ok (JObj (Json.dict_of_pairs pairs), rest').
Proof.
  intros H1 H2. cbn [Json.scan_once].
  change (123 =? 34) with false. change (123 =? 123) with true.
  cbv iota. by rewrite H1, H2.
Qed.

Lemma scan_items_last (fuel : nat) (s rest rest' : text) (v : json) :
  Json.scan_once fuel s = Ok (v, rest) ->
  Json.skip_ws rest = 93 :: rest' ->
  Json.scan_items (S fuel) s = Ok ([v], rest').
Proof.
  intros H1 H2. cbn [Json.scan_items]. rewrite H1. cbn [mbind result_bind].
  by rewrite H2.
Qed.

Lemma scan_items_more (fuel : nat) (s rest rest' : text) (v : json) :
  Json.scan_once fuel s = Ok (v, rest) ->
  Json.skip_ws rest = 44 :: rest' ->
  Json.scan_items (S fuel) s
  = '(vs, rest'') ← Json.scan_items fuel (Json.skip_ws rest');
    Ok (v :: vs, rest'').
Proof.
  intros H1 H2. cbn [Json.scan_items]. rewrite H1. cbn [mbind result_bind].
  by rewrite H2.
Qed.

Lemma scan_members_last
  (fuel : nat) (t after_key after_colon rest rest' : text)
  (key : text) (v : json) :
  Json.scanstring t = Ok (key, after_key) ->
  Json.skip_ws after_key = 58 :: after_colon ->
  Json.scan_once fuel (Json.skip_ws after_colon) = Ok (v, rest) ->
  Json.skip_ws rest = 125 :: rest' ->
  Json.scan_members (S fuel) (34 :: t) = Ok ([(key, v)], rest').
Proof.
  intros H1 H2 H3 H4. cbn [Json.scan_members].
  change (34 =? 34) with true. cbv iota. rewrite H1. cbn [mbind result_bind].
  rewrite H2. change (58 =? 58) with true. cbv iota. rewrite H3.
  cbn [mbind result_bind]. by rewrite H4.
Qed.

Lemma scan_members_more
  (fuel : nat) (t after_key after_colon rest rest' : text)
  (key : text) (v : json) :
  Json.scanstring t = Ok (key, after_key) ->
  Json.skip_ws after_key = 58 :: after_colon ->
  Json.scan_once fuel (Json.skip_ws after_colon) = Ok (v, rest) ->
  Json.skip_ws rest = 44 :: rest' ->
  Json.scan_members (S fuel) (34 :: t)
  = '(kvs, rest'') ← Json.scan_members fuel (Json.skip_ws rest');
    Ok ((key, v) :: kvs, rest'').
Proof.
  intros H1 H2 H3 H4. cbn [Json.scan_members].
  change (34 =? 34) with true. cbv iota. rewrite H1. cbn [mbind result_bind].
  rewrite H2. change (58 =? 58) with true. cbv iota. rewrite H3.
  cbn [mbind result_bind]. by rewrite H4.
Qed.

Lemma dict_set_fresh (k : text) (v : json) (d : list (text * json)) :
  k ∉ map fst d -> dict_set k v d = d ++ [(k, v)].
Proof.
  induction d as [|[k' v'] d IH]; intros Hk; [done|].
  simpl in *. apply not_elem_of_cons in Hk as [Hne Hk].
  unfold text_eqb. rewrite bool_decide_eq_false_2 by done. by rewrite IH.
Qed.

Lemma dict_of_pairs_distinct (pairs : list (text * json)) :
  NoDup (map fst pairs) -> Json.dict_of_pairs pairs = pairs.
Proof.
  unfold Json.dict_of_pairs.
  assert (forall acc,
            NoDup (map fst (acc ++ pairs)) ->
            fold_left (fun d kv => dict_set kv.1 kv.2 d) pairs acc
            = acc ++ pairs) as H; [|apply (H [])].
  induction pairs as [|[k v] pairs IH]; intros acc Hnd; simpl.
  - by rewrite app_nil_r.
  - rewrite dict_set_fresh.
    + rewrite IH; rewrite <- app_assoc; done.
    + rewrite map_app in Hnd. simpl in Hnd.
      apply NoDup_app in Hnd as (_ & Hd & _). intros Hin.
      apply (Hd k Hin). left.
Qed.

(** The text of a value starts with a character that is no whitespace:
    the scanner's [skip_ws] stops in front of it. *)
Lemma skip_ws_encode (lvl : nat) (v : json) (t : text) :
  safe v -> Json.skip_ws (Json.encode lvl v ++ t) = Json.encode lvl v ++ t.
Proof.
  intros Hv. destruct (encode_head lvl v Hv) as (d & t0 & -> & Hws & _).
  by apply skip_ws_at.
Qed.

Lemma join_cons (sep e : text) (es : list text) :
  exists t, Json.join sep (e :: es) = e ++ t.
Proof. destruct es; simpl; [exists []; by rewrite app_nil_r|eauto]. Qed.

Lemma skip_ws_item_separator (lvl : nat) (t : text) :
  Json.skip_ws (item_separator lvl ++ t) = 44 :: Json.newline_indent lvl ++ t.
Proof. unfold item_separator. by apply skip_ws_at. Qed.

Lemma delimited_item_separator (lvl : nat) (t : text) :
  delimited (item_separator lvl ++ t) = true.
Proof. done. Qed.

Lemma delimited_newline_indent (lvl : nat) (t : text) :
  delimited (Json.newline_indent lvl ++ t) = true.
Proof. done. Qed.

Lemma scan_items_join (lvl : nat) (rest : text) :
  forall items x fuel,
    Forall reads_back (x :: items) ->
    Forall safe (x :: items) ->
    (list_sum (map (fun y => S (cost y)) (x :: items)) <= fuel)%nat ->
    Json.scan_items fuel
      (Json.join (item_separator (S lvl))
         (map (Json.encode (S lvl)) (x :: items))
       ++ Json.newline_indent lvl ++ 93 :: rest)
    = Ok (x :: items, rest).
Proof.
  induction items as [|y items IH]; intros x fuel Hrb Hsafe Hfuel.
  - apply Forall_cons in Hrb as [Hx _]. simpl in Hfuel.
    destruct fuel as [|fuel]; [lia|]. cbn [map Json.join].
    eapply scan_items_last;
      [apply Hx; [lia|apply delimited_newline_indent]|].
    rewrite skip_ws_newline_indent. by apply skip_ws_at.
  - apply Forall_cons in Hrb as [Hx Hrb]. apply Forall_cons in Hsafe as [Sx Hsafe].
    cbn [map list_sum fold_right] in Hfuel. destruct fuel as [|fuel]; [lia|].
    change (map (Json.encode (S lvl)) (x :: y :: items))
      with (Json.encode (S lvl) x :: map (Json.encode (S lvl)) (y :: items)).
    change (Json.join ?s (?e :: map ?f (y :: items)))
      with (e ++ s ++ Json.join s (map f (y :: items))).
    rewrite <- !app_assoc.
    erewrite scan_items_more;
      [|apply Hx; [lia|apply delimited_item_separator]
       |apply skip_ws_item_separator].
    rewrite skip_ws_newline_indent.
    assert (Json.skip_ws
              (Json.join (item_separator (S lvl))
                 (map (Json.encode (S lvl)) (y :: items))
               ++ Json.newline_indent lvl ++ 93 :: rest)
            = Json.join (item_separator (S lvl))
                (map (Json.encode (S lvl)) (y :: items))
              ++ Json.newline_indent lvl ++ 93 :: rest) as ->.
    { cbn [map].
      destruct (join_cons (item_separator (S lvl)) (Json.encode (S lvl) y)
                  (map (Json.encode (S lvl)) items)) as [t ->].
      rewrite <- app_assoc. apply skip_ws_encode.
      by apply Forall_cons in Hsafe as [Sy _]. }
    rewrite IH; [done|done|done|]. cbn [map list_sum fold_right]. lia.
Qed.

Lemma member_text_eq (lvl : nat) (k : text) (v : json) (tail : text) :
  member_text lvl (k, v) ++ tail
  = 34 :: escaped k ++ 34 :: 58 :: 32 :: Json.encode lvl v ++ tail.
Proof.
  unfold member_text, Json.encode_string, escaped, dquote. cbn [fst snd].
  cbn [app]. rewrite <- !app_assoc. reflexivity.
Qed.

Section Member.

Variable lvl fuel : nat.
Variable k : text.
Variable v : json.
Variable tail rest : text.

Hypothesis plain_key : plain_text k = true.
Hypothesis safe_value : safe v.
Hypothesis value_reads_back : reads_back v.
Hypothesis enough : (cost v <= fuel)%nat.
Hypothesis tail_delimited : delimited tail = true.

Lemma scan_member_value :
  Json.scan_once fuel (Json.skip_ws (32 :: Json.encode lvl v ++ tail))
  = Ok (v, tail).
Proof.
  cbn [Json.skip_ws]. change (Json.is_ws 32) with true. cbv iota.
  rewrite skip_ws_encode by done. by apply value_reads_back.
Qed.

Lemma scan_members_entry_last :
  Json.skip_ws tail = 125 :: rest ->
  Json.scan_members (S fuel) (member_text lvl (k, v) ++ tail)
  = Ok ([(k, v)], rest).
Proof.
  intros Htail. rewrite member_text_eq.
  eapply scan_members_last;
    [by apply scanstring_escaped|by apply skip_ws_at
    |apply scan_member_value|exact Htail].
Qed.

Lemma scan_members_entry_more :
  Json.skip_ws tail = 44 :: rest ->
  Json.scan_members (S fuel) (member_text lvl (k, v) ++ tail)
  = '(kvs, rest') ← Json.scan_members fuel (Json.skip_ws rest);
    Ok ((k, v) :: kvs, rest').
Proof.
  intros Htail. rewrite member_text_eq.
  eapply scan_members_more;
    [by apply scanstring_escaped|by apply skip_ws_at
    |apply scan_member_value|exact Htail].
Qed.

End Member.

Lemma skip_ws_member_text (lvl : nat) (kv : text * json) (t : text) :
  Json.skip_ws (member_text lvl kv ++ t) = member_text lvl kv ++ t.
Proof. destruct kv as [k v]. rewrite member_text_eq. by apply skip_ws_at. Qed.

Lemma scan_members_join (lvl : nat) (rest : text) :
  forall members kv fuel,
    Forall (fun kv => reads_back kv.2) (kv :: members) ->
    Forall (fun kv => plain_text kv.1 = true /\ safe kv.2) (kv :: members) ->
    (list_sum (map (fun kv => S (cost kv.2)) (kv :: members)) <= fuel)%nat ->
    Json.scan_members fuel
      (Json.join (item_separator (S lvl))
         (map (member_text (S lvl)) (kv :: members))
       ++ Json.newline_indent lvl ++ 125 :: rest)
    = Ok (kv :: members, rest).
Proof.
  induction members as [|kv' members IH]; intros [k v] fuel Hrb Hsafe Hfuel.
  - apply Forall_cons in Hrb as [Hv _].
    apply Forall_cons in Hsafe as [[Hk Sv] _].
    cbn [map list_sum fold_right snd] in Hfuel.
    destruct fuel as [|fuel]; [lia|]. cbn [map Json.join].
    apply scan_members_entry_last;
      [done|done|done|lia|apply delimited_newline_indent|].
    rewrite skip_ws_newline_indent. by apply skip_ws_at.
  - apply Forall_cons in Hrb as [Hv Hrb].
    apply Forall_cons in Hsafe as [[Hk Sv] Hsafe].
    cbn [map list_sum fold_right snd] in Hfuel.
    destruct fuel as [|fuel]; [lia|].
    change (map (member_text (S lvl)) ((k, v) :: kv' :: members))
      with (member_text (S lvl) (k, v)
            :: map (member_text (S lvl)) (kv' :: members)).
    change (Json.join ?s (?e :: map ?f (kv' :: members)))
      with (e ++ s ++ Json.join s (map f (kv' :: members))).
    rewrite <- !app_assoc.
    erewrite scan_members_entry_more;
      [|done|done|done|lia|apply delimited_item_separator
       |apply skip_ws_item_separator].
    rewrite skip_ws_newline_indent.
    assert (Json.skip_ws
              (Json.join (item_separator (S lvl))
                 (map (member_text (S lvl)) (kv' :: members))
               ++ Json.newline_indent lvl ++ 125 :: rest)
            = Json.join (item_separator (S lvl))
                (map (member_text (S lvl)) (kv' :: members))
              ++ Json.newline_indent lvl ++ 125 :: rest) as ->.
    { cbn [map].
      destruct (join_cons (item_separator (S lvl)) (member_text (S lvl) kv')
                  (map (member_text (S lvl)) members)) as [t ->].
      rewrite <- app_assoc. apply skip_ws_member_text. }
    rewrite IH; [done|done|done|]. cbn [map list_sum fold_right]. lia.
Qed.

Lemma safe_items (items : list json) :
  fold_right (fun x acc => safe x /\ acc) True items <-> Forall safe items.
Proof.
  induction items as [|x items IH]; simpl; [by split|].
  rewrite Forall_cons. tauto.
Qed.

Lemma safe_members (members : list (text * json)) :
  fold_right (fun kv acc => plain_text kv.1 = true /\ safe kv.2 /\ acc)
    True members
  <-> Forall (fun kv => plain_text kv.1 = true /\ safe kv.2) members.
Proof.
  induction members as [|x members IH]; simpl; [by split|].
  rewrite Forall_cons. tauto.
Qed.

(** Every safe value is read back from the text [json.dump] writes for
    it. *)
Lemma safe_reads_back (v : json) : safe v -> reads_back v.
Proof.
  induction v as [|b|n|lexeme|s|items IH|members IH] using json_nested_ind;
    intros Hsafe lvl fuel rest Hfuel Hrest.
  - destruct fuel as [|fuel]; [simpl in Hfuel; lia|]. reflexivity.
  - destruct fuel as [|fuel]; [simpl in Hfuel; lia|]. by destruct b.
  - destruct fuel as [|fuel]; [simpl in Hfuel; lia|].
    destruct (encode_head lvl (JInt n) I)
      as (d & t & E & _ & _ & _ & H34 & H91 & H123).
    rewrite E. cbn [app]. rewrite scan_once_scalar by done.
    change (d :: t ++ rest) with ((d :: t) ++ rest). rewrite <- E.
    by apply scan_scalar_decimal.
  - done.
  - destruct fuel as [|fuel]; [simpl in Hfuel; lia|].
    cbn [Json.encode]. unfold Json.encode_string, dquote. cbn [app].
    rewrite <- app_assoc. rewrite scan_once_string.
    fold (escaped s). cbn [app]. by rewrite scanstring_escaped.
  - destruct fuel as [|fuel]; [simpl in Hfuel; lia|].
    destruct items as [|x items]; [reflexivity|].
    apply safe_items in Hsafe.
    assert (Forall reads_back (x :: items)) as Hrb.
    { apply Forall_forall. intros y Hy.
      eapply Forall_forall in IH; [|exact Hy].
      eapply Forall_forall in Hsafe; [|exact Hy]. auto. }
    change (Json.encode lvl (JArr (x :: items)))
      with (txt "[" ++ Json.newline_indent (S lvl)
            ++ Json.join (item_separator (S lvl))
                 (map (Json.encode (S lvl)) (x :: items))
            ++ Json.newline_indent lvl ++ txt "]").
    change (txt "[") with [91]. change (txt "]") with [93].
    rewrite <- !app_assoc. cbn [app].
    destruct (join_cons (item_separator (S lvl)) (Json.encode (S lvl) x)
                (map (Json.encode (S lvl)) items)) as [t Et].
    apply Forall_cons in Hsafe as Hsx. destruct Hsx as [Sx _].
    destruct (encode_head (S lvl) x Sx) as (d & t0 & Ed & Hws & H93 & _).
    set (body := Json.join (item_separator (S lvl))
                   (map (Json.encode (S lvl)) (x :: items))
                 ++ Json.newline_indent lvl ++ 93 :: rest).
    assert (body = d :: t0 ++ t ++ Json.newline_indent lvl ++ 93 :: rest)
      as Hbody.
    { unfold body. cbn [map]. by rewrite Et, Ed, <- !app_assoc. }
    rewrite (scan_once_array fuel _ d
               (t0 ++ t ++ Json.newline_indent lvl ++ 93 :: rest));
      [|rewrite skip_ws_newline_indent, Hbody; by apply skip_ws_at|done].
    rewrite <- Hbody. unfold body.
    rewrite scan_items_join; [done|done|done|].
    simpl in Hfuel. simpl. lia.
  - destruct fuel as [|fuel]; [simpl in Hfuel; lia|].
    destruct members as [|kv members]; [reflexivity|].
    destruct Hsafe as [Hnd Hsafe]. apply safe_members in Hsafe.
    assert (Forall (fun kv => reads_back kv.2) (kv :: members)) as Hrb.
    { apply Forall_forall. intros y Hy.
      eapply Forall_forall in IH; [|exact Hy].
      eapply Forall_forall in Hsafe; [|exact Hy]. simpl in *. tauto. }
    change (Json.encode lvl (JObj (kv :: members)))
      with (txt "{" ++ Json.newline_indent (S lvl)
            ++ Json.join (item_separator (S lvl))
                 (map (member_text (S lvl)) (kv :: members))
            ++ Json.newline_indent lvl ++ txt "}").
    change (txt "{") with [123]. change (txt "}") with [125].
    rewrite <- !app_assoc. cbn [app].
    destruct (join_cons (item_separator (S lvl)) (member_text (S lvl) kv)
                (map (member_text (S lvl)) members)) as [t Et].
    destruct kv as [k v].
    set (body := Json.join (item_separator (S lvl))
                   (map (member_text (S lvl)) ((k, v) :: members))
                 ++ Json.newline_indent lvl ++ 125 :: rest).
    assert (exists tl, body = 34 :: tl) as [tl Hbody].
    { unfold body. cbn [map]. rewrite Et, <- !app_assoc, member_text_eq. eauto. }
    rewrite (scan_once_object fuel _ 34 tl);
      [|rewrite skip_ws_newline_indent, Hbody; by apply skip_ws_at|done].
    rewrite <- Hbody. unfold body.
    rewrite scan_members_join; [|done|done|].
    + cbn [mbind result_bind]. by rewrite dict_of_pairs_distinct.
    + simpl in Hfuel. simpl. lia.
Qed.

(** *** The whole text *)

Lemma join_length (sep : text) (chunks : list text) :
  (1 <= length sep)%nat ->
  (list_sum (map (@length N) chunks) + length chunks
   <= S (length (Json.join sep chunks)))%nat.
Proof.
  intros Hsep. induction chunks as [|c [|c' chunks] IH].
  - simpl. lia.
  - simpl. lia.
  - change (Json.join sep (c :: c' :: chunks))
      with (c ++ sep ++ Json.join sep (c' :: chunks)).
    rewrite !length_app. unfold list_sum in *.
    cbn [map fold_right length] in *. lia.
Qed.

Lemma item_separator_length (lvl : nat) : (1 <= length (item_separator lvl))%nat.
Proof. unfold item_separator. rewrite length_app. simpl. lia. Qed.

Lemma newline_indent_length (lvl : nat) :
  (1 <= length (Json.newline_indent lvl))%nat.
Proof. simpl. lia. Qed.

(** The fuel [json.loads] gives the scanner is enough for the text of a
    safe value. *)
Lemma cost_le_length (v : json) :
  safe v -> forall lvl, (cost v <= 2 * length (Json.encode lvl v))%nat.
Proof.
  induction v as [|b|n|lexeme|s|items IH|members IH] using json_nested_ind;
    intros Hsafe lvl;
    try (destruct (encode_head lvl _ Hsafe) as (d & t & -> & _);
         simpl; lia).
  - destruct items as [|x items]; [simpl; lia|].
    apply safe_items in Hsafe.
    change (Json.encode lvl (JArr (x :: items)))
      with (txt "[" ++ Json.newline_indent (S lvl)
            ++ Json.join (item_separator (S lvl))
                 (map (Json.encode (S lvl)) (x :: items))
            ++ Json.newline_indent lvl ++ txt "]").
    rewrite !length_app.
    pose proof (join_length (item_separator (S lvl))
                  (map (Json.encode (S lvl)) (x :: items))
                  (item_separator_length (S lvl))) as Hj.
    assert (list_sum (map (fun y => S (cost y)) (x :: items))
            <= 2 * (list_sum (map (@length N)
                                (map (Json.encode (S lvl)) (x :: items)))
                    + length (map (Json.encode (S lvl)) (x :: items))))%nat
      as Hsum.
    { clear Hj. induction (x :: items) as [|y ys IHys]; [simpl; lia|].
      apply Forall_cons in IH as [Hy IH]. apply Forall_cons in Hsafe as [Sy Hsafe].
      specialize (IHys IH Hsafe). specialize (Hy Sy (S lvl)).
      unfold list_sum in *. cbn [map fold_right length] in *. lia. }
    pose proof (newline_indent_length lvl).
    pose proof (newline_indent_length (S lvl)). cbn [cost]. lia.
  - destruct members as [|kv members]; [simpl; lia|].
    destruct Hsafe as [_ Hsafe]. apply safe_members in Hsafe.
    change (Json.encode lvl (JObj (kv :: members)))
      with (txt "{" ++ Json.newline_indent (S lvl)
            ++ Json.join (item_separator (S lvl))
                 (map (member_text (S lvl)) (kv :: members))
            ++ Json.newline_indent lvl ++ txt "}").
    rewrite !length_app.
    pose proof (join_length (item_separator (S lvl))
                  (map (member_text (S lvl)) (kv :: members))
                  (item_separator_length (S lvl))) as Hj.
    assert (list_sum (map (fun y => S (cost y.2)) (kv :: members))
            <= 2 * (list_sum (map (@length N)
                                (map (member_text (S lvl)) (kv :: members)))
                    + length (map (member_text (S lvl)) (kv :: members))))%nat
      as Hsum.
    { clear Hj. induction (kv :: members) as [|y ys IHys]; [simpl; lia|].
      apply Forall_cons in IH as [Hy IH].
      apply Forall_cons in Hsafe as [[_ Sy] Hsafe].
      specialize (IHys IH Hsafe). specialize (Hy Sy (S lvl)).
      unfold list_sum in *. cbn [map fold_right length] in *.
      unfold member_text at 1. rewrite !length_app. lia. }
    pose proof (newline_indent_length lvl).
    pose proof (newline_indent_length (S lvl)). cbn [cost]. lia.
Qed.

(** [json.loads(json.dumps(v, indent=4))] is [v], for a safe [v]. *)
Lemma loads_dumps (v : json) : safe v -> Json.loads (Json.dumps v) = Ok v.
Proof.
  intros Hsafe. unfold Json.loads, Json.dumps.
  pose proof (skip_ws_encode 0 v [] Hsafe) as Hws.
  rewrite app_nil_r in Hws. rewrite Hws.
  pose proof (safe_reads_back v Hsafe 0%nat
                (S (2 * length (Json.encode 0 v))) []) as Hrb.
  rewrite app_nil_r in Hrb. rewrite Hrb; [done| |done].
  pose proof (cost_le_length v Hsafe 0%nat). lia.
Qed.

(** *** Task lists *)

Lemma from_dict_to_dict (t : Task) :
  Tracker.from_dict (Tracker.to_dict t) = Ok t.
Proof. by destruct t. Qed.

Lemma decode_items_to_dict (ts : list Task) :
  Tracker.decode_items (map Tracker.to_dict ts) = Ok ts.
Proof.
  induction ts as [|t ts IH]; [done|].
  cbn [map Tracker.decode_items]. rewrite from_dict_to_dict.
  cbn [mbind result_bind]. by rewrite IH.
Qed.

Lemma safe_to_dict (t : Task) : task_safe t -> safe (Tracker.to_dict t).
Proof.
  intros [Hd Hc]. unfold Tracker.to_dict. cbn [safe map fst fold_right].
  split; [|done].
  apply NoDup_cons. split; [|apply NoDup_singleton].
  rewrite list_elem_of_singleton. discriminate.
Qed.

Lemma safe_snapshot (ts : list Task) :
  Forall task_safe ts -> safe (JArr (map Tracker.to_dict ts)).
Proof.
  intros H. cbn [safe]. apply safe_items. apply Forall_map.
  eapply Forall_impl; [exact H|]. apply safe_to_dict.
Qed.

(** C5, amended.  For every list of tasks whose attributes are safe
    values (no float; in every string, code points below [0x110000] and
    no high surrogate directly before a low surrogate), the text that
    [save_tasks] writes is decoded by the [try] of [load_tasks] into the
    same list: the same tasks, in the same order, with the same
    descriptions and flags.  So when the store file can be written,
    [load_tasks] after [save_tasks] returns the list that was saved. *)
Theorem saved_tasks_are_loaded_back (ts : list Task) :
  Forall task_safe ts ->
  Tracker.parse_tasks (snapshot ts) = Ok (inl ts)
  /\ forall f tsk w,
       writable w f = true ->
       let w' := Tracker.save_tasks (Tracker.mkTracker f (Some ts)) w in
       Tracker.load_tasks (Tracker.mkTracker f tsk) w' = (Ok ts, w').
Proof.
  intros Hsafe.
  assert (Tracker.parse_tasks (snapshot ts) = Ok (inl ts)) as Hparse.
  { unfold Tracker.parse_tasks, snapshot.
    rewrite loads_dumps by by apply safe_snapshot.
    cbn [mbind result_bind]. by rewrite decode_items_to_dict. }
  split; [done|]. intros f tsk w Hw w'.
  assert (disk w' !! f = Some (File (snapshot ts))) as Hdisk.
  { unfold w'. rewrite save_tasks_disk, Hw. apply lookup_insert_eq. }
  assert (node_at w' f = Some (File (snapshot ts))) as Hnode.
  { apply writable_not_root in Hw. by destruct f. }
  unfold Tracker.load_tasks, path_exists, is_file, Tracker.read_tasks, read.
  cbn [Tracker.tasks_file]. rewrite Hnode. cbn [negb mbind result_bind].
  by rewrite Hparse.
Qed.

Lemma saved_tasks_witness :
  let ts := [mkTask (JStr (txt "buy milk")) (JBool false);
             mkTask (JStr [233; 128512; 10]) (JBool true)] in
  Tracker.parse_tasks (snapshot ts) = Ok (inl ts)
  /\ forall f tsk w,
       writable w f = true ->
       let w' := Tracker.save_tasks (Tracker.mkTracker f (Some ts)) w in
       Tracker.load_tasks (Tracker.mkTracker f tsk) w' = (Ok ts, w').
Proof.
  intros ts. apply (saved_tasks_are_loaded_back ts).
  repeat constructor.
Defined.

(** C5 as stated fails for a description that holds a high surrogate
    directly before a low surrogate: [json.dump] writes the two as two
    escapes, and [json.load] reads the two escapes as one character.
    The task added here is not the task loaded back. *)
Lemma surrogate_pair_is_loaded_as_one_character :
  let w := World {[ ["app"] := Dir ]} ∅ [] in
  let f := ["app"; "tasks.json"]%string in
  let added := Tracker.add_task (Tracker.mkTracker f (Some [])) [55357; 56832] w in
  added.1 = Ok (Tracker.mkTracker f
                  (Some [mkTask (JStr [55357; 56832]) (JBool false)]))
  /\ (Tracker.load_tasks (Tracker.mkTracker f None) added.2).1
     = Ok [mkTask (JStr [128512]) (JBool false)].
Proof. vm_compute. done. Qed.

(** ** The theorems at concrete lists and worlds *)

Lemma mutation_saves_once_witness :
  let self := Tracker.mkTracker app_store (Some three_tasks) in
  saved_once app_store
    (three_tasks ++ [mkTask (JStr (txt "milk")) (JBool false)]) app_world
    (Tracker.add_task self (txt "  milk ") app_world)
  /\ rejected self app_world (Tracker.add_task self (txt "   ") app_world)
  /\ saved_once app_store
       [mkTask (JStr (txt "a")) (JBool false);
        mkTask (JStr (txt "b")) (JBool true);
        mkTask (JStr (txt "c")) (JBool true)] app_world
       (Tracker.complete_task self 3 app_world)
  /\ rejected self app_world (Tracker.complete_task self 4 app_world)
  /\ rejected self app_world (Tracker.remove_task self 0 app_world)
  /\ saved_once app_store
       [mkTask (JStr (txt "a")) (JBool false);
        mkTask (JStr (txt "c")) (JBool false)] app_world
       (Tracker.remove_task self 2 app_world).
Proof.
  intros self.
  destruct (mutation_saves_once_rejection_saves_nothing
              app_store three_tasks app_world)
    as (Hadd & Hblank & Hdone & Hcomplete & Hremove & Hout).
  split; [exact (Hadd (txt "  milk ") eq_refl)|].
  split; [exact (Hblank (txt "   ") eq_refl)|].
  split.
  { destruct (Hdone 3%Z) as (t & Ht & Hsaved);
      [unfold in_range; simpl; lia|].
    injection Ht as <-. exact Hsaved. }
  split; [apply Hcomplete; unfold in_range; simpl; lia|].
  split; [apply Hout; unfold in_range; simpl; lia|].
  apply (Hremove 2%Z). unfold in_range; simpl; lia.
Defined.

Lemma complete_witness :
  let self := Tracker.mkTracker app_store (Some three_tasks) in
  let once := Tracker.complete_task self 1 app_world in
  exists t ts',
    task_at three_tasks 1 = Some t
    /\ once.1 = Ok (Tracker.mkTracker app_store (Some ts'))
    /\ task_at ts' 1 = Some (mkTask (description t) (JBool true))
    /\ (forall k, k <> 1%Z -> task_at ts' k = task_at three_tasks k)
    /\ map description ts' = map description three_tasks
    /\ length ts' = length three_tasks
    /\ let twice :=
         Tracker.complete_task (Tracker.mkTracker app_store (Some ts')) 1 once.2 in
       twice.1 = once.1 /\ disk twice.2 = disk once.2.
Proof.
  intros self once.
  apply (complete_sets_only_that_flag_idempotently
           app_store three_tasks app_world 1).
  unfold in_range; simpl; lia.
Defined.

Lemma remove_witness :
  exists before t after,
    three_tasks = before ++ t :: after
    /\ Z.of_nat (length before) = (2 - 1)%Z
    /\ (Tracker.remove_task (Tracker.mkTracker app_store (Some three_tasks))
          2 app_world).1
       = Ok (Tracker.mkTracker app_store (Some (before ++ after)))
    /\ S (length (before ++ after)) = length three_tasks
    /\ (forall k, (2 < k)%Z ->
          task_at (before ++ after) (k - 1) = task_at three_tasks k)
    /\ (forall k, (k < 2)%Z ->
          task_at (before ++ after) k = task_at three_tasks k)
    /\ (length three_tasks = 1%nat -> before ++ after = []).
Proof.
  apply (remove_deletes_one_and_shifts_the_rest
           app_store three_tasks app_world 2).
  unfold in_range; simpl; lia.
Defined.

Lemma in_progress_witness :
  let r := Tracker.in_progress_tasks
             (Tracker.mkTracker app_store (Some three_tasks)) app_world in
  r.1 = Ok ()
  /\ trace r.2
     = trace app_world ++ [Printed HeaderInProgress; Printed Rule]
       ++ map row_line (incomplete_rows three_tasks) ++ [Printed Rule]
  /\ disk r.2 = disk app_world
  /\ (forall k t, (k, t) ∈ incomplete_rows three_tasks
        <-> task_at three_tasks k = Some t /\ flag_is_false t)
  /\ (forall b t, completed t = JBool b -> (flag_is_false t <-> b = false))
  /\ (forall d1 d2 d3,
        three_tasks = [mkTask d1 (JBool false); mkTask d2 (JBool true);
                       mkTask d3 (JBool false)] ->
        incomplete_rows three_tasks
        = [(1%Z, mkTask d1 (JBool false)); (3%Z, mkTask d3 (JBool false))]).
Proof.
  apply (in_progress_lists_incomplete_tasks_with_their_positions
           app_store three_tasks app_world).
  discriminate.
Defined.

Lemma three_tasks_well_described : Forall well_described three_tasks.
Proof.
  repeat constructor; eexists; (split; [reflexivity|]);
    (split; [discriminate|]); split; intros c [= <-]; reflexivity.
Defined.

Lemma descriptions_witness :
  let self := Tracker.mkTracker app_store (Some three_tasks) in
  let kept (r : result Tracker.TaskTracker * world) :=
    exists ts', r.1 = Ok (Tracker.mkTracker app_store (Some ts'))
                /\ Forall well_described ts' in
  (forall d, kept (Tracker.add_task self d app_world))
  /\ (forall d, blank d = false ->
        well_described (mkTask (JStr (strip d)) (JBool false))
        /\ (Tracker.add_task self d app_world).1
           = Ok (Tracker.mkTracker app_store
                   (Some (three_tasks
                          ++ [mkTask (JStr (strip d)) (JBool false)]))))
  /\ (forall i, kept (Tracker.complete_task self i app_world))
  /\ (forall i, kept (Tracker.remove_task self i app_world)).
Proof.
  apply (operations_keep_descriptions_stripped
           app_store three_tasks app_world three_tasks_well_described).
Defined.


(** * Further properties of the programs *)

(** ** The listings *)

Lemma count_saves_rows (rows : list (Z * Task)) :
  count_saves (map row_line rows) = 0%nat.
Proof. by induction rows. Qed.

Lemma print_rows_trace (ts : list Task) (i : Z) (w : world) :
  let w' := Tracker.print_rows i ts w in
  trace w' = trace w ++ map row_line (enumerate i ts) /\ disk w' = disk w.
Proof.
  revert i w. induction ts as [|t ts IH]; intros i w; simpl.
  - by rewrite app_nil_r.
  - destruct (IH (i + 1)%Z (print (Row i t) w)) as [-> ->].
    simpl. by rewrite <- app_assoc.
Qed.

Lemma enumerate_length (ts : list Task) (i : Z) :
  length (enumerate i ts) = length ts.
Proof. revert i. induction ts as [|t ts IH]; intros i; simpl; [done|by rewrite IH]. Qed.

(** X1.  [list_tasks] raises nothing, saves nothing and leaves the disk
    as it is.  On the empty list it prints that no tasks were found and
    nothing else; otherwise it prints its header, a rule, one row for
    each task, in list order, under the position of the task counted
    from 1, and a rule. *)
Theorem list_tasks_prints_every_task_under_its_position
  (f : path) (ts : list Task) (w : world) :
  let r := Tracker.list_tasks (Tracker.mkTracker f (Some ts)) w in
  r.1 = Ok ()
  /\ disk r.2 = disk w
  /\ saves r.2 = saves w
  /\ trace r.2
     = trace w
       ++ (if ts is [] then [Printed NoTasksFound]
           else [Printed HeaderYourTasks; Printed Rule]
                ++ map row_line (enumerate 1 ts) ++ [Printed Rule])
  /\ length (enumerate 1 ts) = length ts
  /\ (forall k t, (k, t) ∈ enumerate 1 ts <-> task_at ts k = Some t).
Proof.
  intros r; subst r. unfold Tracker.list_tasks; simpl.
  assert (forall k t, (k, t) ∈ enumerate 1 ts <-> task_at ts k = Some t) as Hrows.
  { intros k t. rewrite elem_of_enumerate, task_at_lookup. tauto. }
  destruct ts as [|t0 l] eqn:E.
  - simpl. split; [done|]. split; [done|]. split; [apply saves_print|].
    split; [done|]. split; [done|exact Hrows].
  - rewrite <- E in *. simpl.
    destruct (print_rows_trace ts 1 (print Rule (print HeaderYourTasks w)))
      as [Htr Hd].
    split; [done|]. split; [by rewrite Hd|].
    assert (trace (Tracker.print_rows 1 ts (print Rule (print HeaderYourTasks w)))
              ++ [Printed Rule]
            = trace w ++ [Printed HeaderYourTasks; Printed Rule]
              ++ map row_line (enumerate 1 ts) ++ [Printed Rule]) as Htrace.
    { rewrite Htr. simpl. by rewrite <- !app_assoc. }
    split; [|split; [exact Htrace|split; [apply enumerate_length|exact Hrows]]].
    unfold saves. simpl. rewrite Htrace, !count_saves_app, count_saves_rows.
    simpl. lia.
Qed.

Lemma filter_enumerate_all (P : Z * Task -> Prop) `{!forall it, Decision (P it)}
  (ts : list Task) (i : Z) :
  Forall (fun t => forall k, P (k, t)) ts ->
  filter P (enumerate i ts) = enumerate i ts.
Proof.
  revert i. induction ts as [|t ts IH]; intros i HF; [done|].
  apply Forall_cons in HF as [Ht HF]. simpl. rewrite filter_cons_True by apply Ht.
  by rewrite IH.
Qed.

Lemma filter_enumerate_none (P : Z * Task -> Prop) `{!forall it, Decision (P it)}
  (ts : list Task) (i : Z) :
  Forall (fun t => forall k, ~ P (k, t)) ts ->
  filter P (enumerate i ts) = [].
Proof.
  revert i. induction ts as [|t ts IH]; intros i HF; [done|].
  apply Forall_cons in HF as [Ht HF]. simpl. rewrite filter_cons_False by apply Ht.
  by apply IH.
Qed.

(** X2.  On a list that is not empty, the rows of [in_progress_tasks]
    are those rows of [list_tasks] whose task is printed with the ballot
    box by [Task.__str__], in the same order and under the same
    positions.  When no task is done the two listings have the same
    rows; when every task is done, [in_progress_tasks] still prints its
    header and the two rules, with no row between them. *)
Theorem in_progress_rows_are_the_listed_rows_that_show_the_box
  (repr_other : json -> text) (f : path) (ts : list Task) (w : world) :
  ts <> [] ->
  let self := Tracker.mkTracker f (Some ts) in
  let open := filter (fun it => shows_box repr_other it.2) (enumerate 1 ts) in
  trace (Tracker.list_tasks self w).2
  = trace w ++ [Printed HeaderYourTasks; Printed Rule]
    ++ map row_line (enumerate 1 ts) ++ [Printed Rule]
  /\ trace (Tracker.in_progress_tasks self w).2
     = trace w ++ [Printed HeaderInProgress; Printed Rule]
       ++ map row_line open ++ [Printed Rule]
  /\ open `sublist_of` enumerate 1 ts
  /\ (Forall (fun t => truthy (completed t) = false) ts ->
      open = enumerate 1 ts)
  /\ (Forall (fun t => truthy (completed t) = true) ts -> open = []).
Proof.
  intros Hne self open.
  assert (forall t, shows_box repr_other t <-> flag_is_false t) as Hbox.
  { intros t. unfold shows_box, task_str, flag_is_false.
    destruct (truthy (completed t)); simpl; split; done. }
  assert (open = incomplete_rows ts) as Hopen.
  { unfold open, incomplete_rows. apply list_filter_iff. intros it. apply Hbox. }
  split; [|split; [|split; [|split]]].
  - unfold self, Tracker.list_tasks; simpl.
    destruct ts as [|t0 l] eqn:E; [done|]. rewrite <- E in *. simpl.
    destruct (print_rows_trace ts 1 (print Rule (print HeaderYourTasks w)))
      as [-> _].
    simpl. by rewrite <- !app_assoc.
  - unfold self, Tracker.in_progress_tasks; simpl.
    destruct ts as [|t0 l] eqn:E; [done|]. rewrite <- E in *. simpl.
    destruct (print_in_progress_trace ts 1
      (print Rule (print HeaderInProgress w))) as [-> _].
    rewrite Hopen. unfold incomplete_rows. simpl. by rewrite <- !app_assoc.
  - apply sublist_filter.
  - intros H. apply filter_enumerate_all.
    eapply Forall_impl; [exact H|]. intros t Ht k. by apply Hbox.
  - intros H. apply filter_enumerate_none.
    eapply Forall_impl; [exact H|]. intros t Ht k Hb. apply Hbox in Hb.
    unfold flag_is_false in Hb. simpl in Hb. congruence.
Qed.

Lemma in_progress_rows_witness :
  let self := Tracker.mkTracker app_store (Some three_tasks) in
  let open :=
    filter (fun it => shows_box (fun _ => []) it.2) (enumerate 1 three_tasks) in
  trace (Tracker.list_tasks self app_world).2
  = trace app_world ++ [Printed HeaderYourTasks; Printed Rule]
    ++ map row_line (enumerate 1 three_tasks) ++ [Printed Rule]
  /\ trace (Tracker.in_progress_tasks self app_world).2
     = trace app_world ++ [Printed HeaderInProgress; Printed Rule]
       ++ map row_line open ++ [Printed Rule]
  /\ open `sublist_of` enumerate 1 three_tasks
  /\ (Forall (fun t => truthy (completed t) = false) three_tasks ->
      open = enumerate 1 three_tasks)
  /\ (Forall (fun t => truthy (completed t) = true) three_tasks -> open = []).
Proof.
  apply (in_progress_rows_are_the_listed_rows_that_show_the_box
           (fun _ => []) app_store three_tasks app_world).
  discriminate.
Defined.

(** ** A store that cannot be written *)

(** When the store file cannot be opened for writing, [save_tasks]
    prints the error of [open] and leaves the world as it was. *)
Lemma save_tasks_not_writable (self : Tracker.TaskTracker) (w : world) :
  writable w (Tracker.tasks_file self) = false ->
  exists e,
    open_w (Tracker.tasks_file self) w = Raise (OSError e)
    /\ Tracker.save_tasks self w
       = print (ErrSaving (OSError e)) (emit CallSave w).
Proof.
  intros Hw. unfold Tracker.save_tasks.
  destruct (open_w_not_writable _ _ Hw) as [e He]. exists e.
  split; [done|].
  assert (open_w (Tracker.tasks_file self) (emit CallSave w)
          = Raise (OSError e)) as ->; [|done].
  unfold open_w in *. change (node_at (emit CallSave w)) with (node_at w).
  change (readonly (emit CallSave w)) with (readonly w).
  destruct (node_at w (parent (Tracker.tasks_file self))) as [[| | |]|]; try done.
  destruct (node_at w (Tracker.tasks_file self)) as [[| | |]|]; try done;
    destruct (bool_decide _); done.
Qed.

(** X3.  When a directory stands at the path of the store file,
    [__init__] prints its warning, tries to save and fails, prints the
    error of the failed save, and returns a tracker with the empty list;
    the disk is as it was, so the directory is still there.  A task
    added afterwards is in the list in memory and nowhere on the disk. *)
Theorem a_directory_at_the_store_path_stays_and_nothing_is_stored
  (script : path) (w : world) :
  let f := child (parent script) "tasks.json" in
  is_dir w f = true ->
  let r := Tracker.init script w in
  exists e,
    r.1 = Ok (Tracker.mkTracker f (Some []))
    /\ disk r.2 = disk w
    /\ trace r.2
       = trace w ++ [Printed (WarnNotAFile f); CallSave;
                     Printed (ErrSaving (OSError e))]
    /\ (is_dir w (parent f) = true -> e = IsADirectoryError)
    /\ forall d, blank d = false ->
         let a := Tracker.add_task (Tracker.mkTracker f (Some [])) d r.2 in
         a.1 = Ok (Tracker.mkTracker f (Some [new_task d]))
         /\ disk a.2 = disk w.
Proof.
  intros f Hdir r; subst r. unfold Tracker.init, Tracker.load_tasks.
  cbn [Tracker.tasks_file]. fold f.
  assert (node_at w f = Some Dir) as Hnode.
  { unfold is_dir in Hdir. by destruct (node_at w f) as [[| | |]|]. }
  unfold path_exists, is_file. rewrite Hnode. cbn [negb].
  set (w1 := print (WarnNotAFile f) w).
  assert (writable w1 f = false) as Hw1.
  { unfold writable. change (is_dir w1) with (is_dir w). rewrite Hdir.
    simpl. by rewrite andb_false_r. }
  destruct (save_tasks_not_writable (Tracker.mkTracker f None) w1 Hw1)
    as (e & Hopen & Hsave).
  exists e. rewrite Hsave. cbn [fst snd].
  split; [done|]. split; [done|].
  split; [unfold w1, print, emit; simpl; by rewrite <- !app_assoc|].
  split.
  - intros Hp. cbn [Tracker.tasks_file] in Hopen. unfold open_w in Hopen.
    change (node_at w1) with (node_at w) in Hopen.
    unfold is_dir in Hp. destruct (node_at w (parent f)) as [[| | |]|]; try done.
    rewrite Hnode in Hopen. by inversion Hopen.
  - intros d Hd. rewrite add_task_accepted by done.
    cbn [fst snd]. split; [done|].
    rewrite disk_print, save_tasks_disk.
    assert (writable (print (ErrSaving (OSError e)) (emit CallSave w1)) f
            = false) as -> by exact Hw1.
    done.
Qed.

Lemma a_directory_at_the_store_path_witness :
  let w := World {[ ["app"] := Dir; ["app"; "tasks.json"] := Dir ]} ∅ [] in
  let r := Tracker.init ["app"; "main.py"] w in
  exists e,
    r.1 = Ok (Tracker.mkTracker ["app"; "tasks.json"] (Some []))
    /\ disk r.2 = disk w
    /\ trace r.2
       = trace w ++ [Printed (WarnNotAFile ["app"; "tasks.json"]); CallSave;
                     Printed (ErrSaving (OSError e))]
    /\ (is_dir w (parent ["app"; "tasks.json"]) = true
        -> e = IsADirectoryError)
    /\ forall d, blank d = false ->
         let a := Tracker.add_task
                    (Tracker.mkTracker ["app"; "tasks.json"] (Some [])) d r.2 in
         a.1 = Ok (Tracker.mkTracker ["app"; "tasks.json"] (Some [new_task d]))
         /\ disk a.2 = disk w.
Proof.
  intros w.
  apply (a_directory_at_the_store_path_stays_and_nothing_is_stored
           ["app"; "main.py"] w).
  vm_compute. reflexivity.
Defined.

(** X4.  On a store file that cannot be opened for writing, each of
    [add_task], [complete_task] and [remove_task] still changes the list
    in memory and prints its message of success, after the error of the
    failed save; the disk is as it was. *)
Theorem a_failed_save_is_reported_and_the_operation_goes_on
  (f : path) (ts : list Task) (w : world) :
  writable w f = false ->
  let self := Tracker.mkTracker f (Some ts) in
  exists e,
    open_w f w = Raise (OSError e)
    /\ (forall d, blank d = false ->
          Tracker.add_task self d w
          = (Ok (Tracker.mkTracker f (Some (ts ++ [new_task d]))),
             World (disk w) (readonly w)
               (trace w ++ [CallSave; Printed (ErrSaving (OSError e));
                            Printed (TaskAdded (new_task d))])))
    /\ (forall i t, task_at ts i = Some t ->
          Tracker.complete_task self i w
          = (Ok (Tracker.mkTracker f
                   (Some (<[Z.to_nat (i - 1) := Tracker.set_completed t]> ts))),
             World (disk w) (readonly w)
               (trace w ++ [CallSave; Printed (ErrSaving (OSError e));
                            Printed (TaskCompleted i (Tracker.set_completed t))])))
    /\ (forall i t, task_at ts i = Some t ->
          Tracker.remove_task self i w
          = (Ok (Tracker.mkTracker f (Some (delete (Z.to_nat (i - 1)) ts))),
             World (disk w) (readonly w)
               (trace w ++ [CallSave; Printed (ErrSaving (OSError e));
                            Printed (TaskRemoved t)]))).
Proof.
  intros Hw self.
  destruct (open_w_not_writable _ _ Hw) as [e He]. exists e.
  assert (forall ts', Tracker.save_tasks (Tracker.mkTracker f (Some ts')) w
                      = print (ErrSaving (OSError e)) (emit CallSave w)) as Hsave.
  { intros ts'.
    destruct (save_tasks_not_writable (Tracker.mkTracker f (Some ts')) w Hw)
      as (e' & He' & ->).
    cbn [Tracker.tasks_file] in He'. congruence. }
  assert (forall i t, task_at ts i = Some t ->
            in_range ts i /\ ts !! Z.to_nat (i - 1) = Some t) as Hat.
  { intros i t H. apply task_at_lookup in H as [H1 H2]. split; [|done].
    apply lookup_lt_Some in H2. unfold in_range. lia. }
  split; [done|]. split; [|split].
  - intros d Hd. unfold self. rewrite add_task_accepted by done.
    rewrite Hsave. unfold print, emit. simpl. by rewrite <- !app_assoc.
  - intros i t H. apply Hat in H as [Hr Ht]. unfold self.
    rewrite (complete_task_accepted f ts w i t) by done.
    rewrite Hsave. unfold print, emit. simpl. by rewrite <- !app_assoc.
  - intros i t H. apply Hat in H as [Hr Ht]. unfold self.
    rewrite (remove_task_accepted f ts w i t) by done.
    rewrite Hsave. unfold print, emit. simpl. by rewrite <- !app_assoc.
Qed.

Lemma a_failed_save_witness :
  let w := World {[ ["app"] := Dir ]} {[ app_store ]} [] in
  let self := Tracker.mkTracker app_store (Some three_tasks) in
  exists e,
    open_w app_store w = Raise (OSError e)
    /\ (forall d, blank d = false ->
          Tracker.add_task self d w
          = (Ok (Tracker.mkTracker app_store
                   (Some (three_tasks ++ [new_task d]))),
             World (disk w) (readonly w)
               (trace w ++ [CallSave; Printed (ErrSaving (OSError e));
                            Printed (TaskAdded (new_task d))])))
    /\ (forall i t, task_at three_tasks i = Some t ->
          Tracker.complete_task self i w
          = (Ok (Tracker.mkTracker app_store
                   (Some (<[Z.to_nat (i - 1) := Tracker.set_completed t]>
                            three_tasks))),
             World (disk w) (readonly w)
               (trace w ++ [CallSave; Printed (ErrSaving (OSError e));
                            Printed (TaskCompleted i (Tracker.set_completed t))])))
    /\ (forall i t, task_at three_tasks i = Some t ->
          Tracker.remove_task self i w
          = (Ok (Tracker.mkTracker app_store
                   (Some (delete (Z.to_nat (i - 1)) three_tasks))),
             World (disk w) (readonly w)
               (trace w ++ [CallSave; Printed (ErrSaving (OSError e));
                            Printed (TaskRemoved t)]))).
Proof.
  intros w.
  apply (a_failed_save_is_reported_and_the_operation_goes_on
           app_store three_tasks w).
  vm_compute. reflexivity.
Defined.

(** ** Sequences of operations on one tracker *)


Lemma only_printed_print (m : message) (w w' : world) :
  only_printed w w' -> only_printed w (print m w').
Proof. intros (? & ? & ?). split; [done|]. split; [done|]. by rewrite saves_print. Qed.

Lemma print_rows_only_printed (ts : list Task) (i : Z) (w0 w : world) :
  only_printed w0 w -> only_printed w0 (Tracker.print_rows i ts w).
Proof.
  revert i w. induction ts as [|t ts IH]; intros i w H; simpl; [done|].
  apply IH. by apply only_printed_print.
Qed.

Lemma print_in_progress_only_printed (ts : list Task) (i : Z) (w0 w : world) :
  only_printed w0 w -> only_printed w0 (Tracker.print_in_progress i ts w).
Proof.
  revert i w. induction ts as [|t ts IH]; intros i w H; simpl; [done|].
  apply IH. destruct (truthy (completed t)); [done|by apply only_printed_print].
Qed.

Lemma list_tasks_only_prints (f : path) (ts : list Task) (w : world) :
  exists w', Tracker.list_tasks (Tracker.mkTracker f (Some ts)) w = (Ok (), w')
             /\ only_printed w w'.
Proof.
  unfold Tracker.list_tasks; simpl. destruct ts as [|t0 l] eqn:E.
  - eexists. split; [done|]. by apply only_printed_print.
  - rewrite <- E. eexists. split; [done|].
    apply only_printed_print, print_rows_only_printed.
    by do 2 apply only_printed_print.
Qed.

Lemma in_progress_tasks_only_prints (f : path) (ts : list Task) (w : world) :
  exists w', Tracker.in_progress_tasks (Tracker.mkTracker f (Some ts)) w
             = (Ok (), w')
             /\ only_printed w w'.
Proof.
  unfold Tracker.in_progress_tasks; simpl. destruct ts as [|t0 l] eqn:E.
  - eexists. split; [done|]. by apply only_printed_print.
  - rewrite <- E. eexists. split; [done|].
    apply only_printed_print, print_in_progress_only_printed.
    by do 2 apply only_printed_print.
Qed.

(** Every operation on a tracker whose list is assigned either is
    accepted, changes the list, saves it and prints one line, or changes
    neither the tracker nor the disk. *)
Lemma run_command_cases (c : command) (f : path) (ts : list Task) (w : world) :
  let self := Tracker.mkTracker f (Some ts) in
  (exists ts' m,
     mutation_of c ts ts'
     /\ run_command c self w
        = (Ok (Tracker.mkTracker f (Some ts')),
           print m (Tracker.save_tasks (Tracker.mkTracker f (Some ts')) w)))
  \/ (exists w', (forall ts', ~ mutation_of c ts ts')
                 /\ run_command c self w = (Ok self, w')
                 /\ only_printed w w').
Proof.
  intros self; subst self. destruct c as [d| |i|i|]; unfold run_command.
  - destruct (blank d) eqn:Hd.
    + right. rewrite add_task_rejected by done.
      eexists. split; [|split; [done|by apply only_printed_print]].
      intros ts' [H _]. simpl in H. congruence.
    + left. rewrite add_task_accepted by done. by eexists _, _.
  - right. destruct (list_tasks_only_prints f ts w) as (w' & -> & H).
    exists w'. split; [by intros ts' []|done].
  - destruct (decide (in_range ts i)) as [Hr|Hr].
    + left. destruct (in_range_lookup ts i Hr) as [t Ht].
      rewrite (complete_task_accepted f ts w i t) by done.
      eexists _, _. split; [|done]. split; [done|]. by exists t.
    + right. destruct (complete_task_rejected f ts w i Hr) as [m ->].
      eexists. split; [|split; [done|by apply only_printed_print]].
      by intros ts' [H _].
  - destruct (decide (in_range ts i)) as [Hr|Hr].
    + left. destruct (in_range_lookup ts i Hr) as [t Ht].
      rewrite (remove_task_accepted f ts w i t) by done.
      eexists _, _. split; [|done]. by split.
    + right. destruct (remove_task_rejected f ts w i Hr) as [m ->].
      eexists. split; [|split; [done|by apply only_printed_print]].
      by intros ts' [H _].
  - right. destruct (in_progress_tasks_only_prints f ts w) as (w' & -> & H).
    exists w'. split; [by intros ts' []|done].
Qed.

Lemma mutation_of_mutating (c : command) (ts ts' : list Task) :
  mutation_of c ts ts' -> mutating c = true.
Proof. by destruct c. Qed.

Lemma accepted_world (f : path) (ts' : list Task) (m : message) (w : world) :
  let w' := print m (Tracker.save_tasks (Tracker.mkTracker f (Some ts')) w) in
  saves w' = S (saves w)
  /\ readonly w' = readonly w
  /\ disk w' = if writable w f then <[f := File (snapshot ts')]> (disk w)
               else disk w.
Proof.
  intros w'. unfold w'. rewrite saves_print, saves_save_tasks.
  rewrite readonly_print, save_tasks_readonly, disk_print, save_tasks_disk.
  done.
Qed.

(** X5.  No sequence of [add_task], [list_tasks], [complete_task],
    [remove_task] and [in_progress_tasks] on a tracker whose list is
    assigned raises an exception: the checks of the index keep the
    accesses to the list within it.  The sequence enters [save_tasks] at
    most once for each operation that mutates, never makes the list
    longer than the tasks it had and the descriptions added, and when it
    is made of the two listings only it leaves the list, the disk and
    the count of saves as they were. *)
Theorem no_sequence_of_operations_raises
  (cs : list command) (f : path) (ts : list Task) (w : world) :
  let r := run cs (Tracker.mkTracker f (Some ts)) w in
  exists ts',
    r.1 = Ok (Tracker.mkTracker f (Some ts'))
    /\ readonly r.2 = readonly w
    /\ (saves w <= saves r.2
        <= saves w + length (filter (fun c => mutating c = true) cs))%nat
    /\ (length ts' <= length ts + length (added cs))%nat
    /\ (Forall (fun c => mutating c = false) cs ->
        ts' = ts /\ disk r.2 = disk w /\ saves r.2 = saves w).
Proof.
  revert ts w. induction cs as [|c cs IH]; intros ts w r; subst r.
  - exists ts. simpl. repeat split; lia.
  - cbn [run].
    destruct (run_command_cases c f ts w)
      as [(ts1 & m & Hmut & ->)|(w1 & Hno & -> & Hd & Hr & Hs)].
    + destruct (accepted_world f ts1 m w) as (Hs1 & Hr1 & _).
      destruct (IH ts1
        (print m (Tracker.save_tasks (Tracker.mkTracker f (Some ts1)) w)))
        as (ts' & -> & Hr' & Hs' & Hlen & _).
      exists ts'. split; [done|]. split; [congruence|].
      pose proof (mutation_of_mutating c ts ts1 Hmut) as Hm.
      rewrite filter_cons_True by done. cbn [length].
      split; [lia|]. split.
      * assert (length ts1 + length (added cs)
                <= length ts + length (added (c :: cs)))%nat; [|lia].
        destruct c as [d| |i|i|]; try done; simpl in *.
        -- destruct Hmut as [_ ->]. rewrite length_app. simpl. lia.
        -- destruct Hmut as (_ & t & _ & ->). rewrite length_insert. lia.
        -- destruct Hmut as [Hr ->].
           destruct (in_range_lookup ts i Hr) as [t Ht].
           rewrite length_delete by eauto. lia.
      * intros H. apply Forall_cons in H as [H _]. congruence.
    + destruct (IH ts w1) as (ts' & -> & Hr' & Hs' & Hlen & Hro).
      exists ts'. split; [done|]. split; [congruence|]. split.
      * destruct (mutating c) eqn:Hm;
          [rewrite filter_cons_True by done|rewrite filter_cons_False by congruence];
          cbn [length]; lia.
      * split.
        -- assert (length (added cs) <= length (added (c :: cs)))%nat; [|lia].
           destruct c; simpl; lia.
        -- intros H. apply Forall_cons in H as [_ H].
           destruct (Hro H) as (-> & -> & ->). done.
Qed.

Lemma no_sequence_witness :
  let r := run [ListAll; InProgress]
             (Tracker.mkTracker app_store (Some three_tasks)) app_world in
  exists ts',
    r.1 = Ok (Tracker.mkTracker app_store (Some ts'))
    /\ readonly r.2 = readonly app_world
    /\ (saves app_world <= saves r.2
        <= saves app_world
           + length (filter (fun c => mutating c = true) [ListAll; InProgress]))%nat
    /\ (length ts' <= length three_tasks + length (added [ListAll; InProgress]))%nat
    /\ (Forall (fun c => mutating c = false) [ListAll; InProgress] ->
        ts' = three_tasks /\ disk r.2 = disk app_world
        /\ saves r.2 = saves app_world).
Proof.
  apply (no_sequence_of_operations_raises
           [ListAll; InProgress] app_store three_tasks app_world).
Defined.

Lemma set_completed_idem (t : Task) :
  Tracker.set_completed (Tracker.set_completed t) = Tracker.set_completed t.
Proof. done. Qed.

Lemma same_or_completed_trans (t t1 t' : Task) :
  same_or_completed t t1 -> same_or_completed t1 t' -> same_or_completed t t'.
Proof.
  unfold same_or_completed. intros [->| ->] [->| ->]; auto.
Qed.

Lemma added_cons (c : command) (cs : list command) (d : text) :
  d ∈ added cs -> d ∈ added (c :: cs).
Proof. destruct c; simpl; set_solver. Qed.

(** The tasks at the end of a sequence of operations come from the
    tasks at its start and from the descriptions it added. *)
Lemma run_tasks_come_from
  (cs : list command) (f : path) (ts ts' : list Task) (w : world) :
  (run cs (Tracker.mkTracker f (Some ts)) w).1
  = Ok (Tracker.mkTracker f (Some ts')) ->
  Forall (fun t' =>
            exists t, (t ∈ ts \/ exists d, d ∈ added cs /\ t = new_task d)
                      /\ same_or_completed t t') ts'.
Proof.
  intros Hrun. revert ts w Hrun. induction cs as [|c cs IH]; intros ts w Hrun.
  - simpl in Hrun. injection Hrun as <-.
    apply Forall_forall. intros t Ht. exists t. split; [by left|by left].
  - cbn [run] in Hrun.
    destruct (run_command_cases c f ts w)
      as [(ts1 & m & Hmut & E)|(w1 & Hno & E & _)]; rewrite E in Hrun.
    + specialize (IH ts1 _ Hrun).
      eapply Forall_impl; [exact IH|]. intros t' (t1 & Hin & Hs).
      destruct Hin as [Hin|(d & Hd & ->)].
      * assert (exists t, (t ∈ ts \/ exists d, d ∈ added (c :: cs)
                                               /\ t = new_task d)
                          /\ same_or_completed t t1) as (t & Ht & Hs1).
        { destruct c as [d| |i|i|]; try done; simpl in Hmut.
          - destruct Hmut as [_ ->]. apply elem_of_app in Hin as [Hin|Hin].
            + exists t1. split; [by left|by left].
            + apply list_elem_of_singleton in Hin as ->.
              exists (new_task d). split; [|by left].
              right. exists d. split; [simpl; set_solver|done].
          - destruct Hmut as (_ & t & Ht & ->).
            apply list_elem_of_lookup in Hin as [k Hk].
            destruct (decide (k = Z.to_nat (i - 1))) as [->|Hne].
            + rewrite list_lookup_insert_eq in Hk by by eapply lookup_lt_Some.
              injection Hk as <-. exists t.
              split; [left; by eapply list_elem_of_lookup_2|by right].
            + rewrite list_lookup_insert_ne in Hk by done.
              exists t1. split; [left; by eapply list_elem_of_lookup_2|by left].
          - destruct Hmut as [_ ->]. exists t1. split; [|by left].
            left. by eapply list_elem_of_delete_inv. }
        exists t. split; [done|]. by eapply same_or_completed_trans.
      * exists (new_task d). split; [|done]. right. exists d.
        split; [by apply added_cons|done].
    + specialize (IH ts _ Hrun).
      eapply Forall_impl; [exact IH|]. intros t' (t & Hin & Hs).
      exists t. split; [|done]. destruct Hin as [Hin|(d & Hd & ->)]; [by left|].
      right. exists d. split; [by apply added_cons|done].
Qed.

(** X6.  Through any sequence of operations no description is changed
    and no flag is cleared: every task of the list at the end is a task
    the list had at the start, or the task made of a description that
    the sequence added, as it was or completed since. *)
Theorem operations_edit_no_description_and_clear_no_flag
  (cs : list command) (f : path) (ts ts' : list Task) (w : world) :
  (run cs (Tracker.mkTracker f (Some ts)) w).1
  = Ok (Tracker.mkTracker f (Some ts')) ->
  Forall (fun t' =>
            exists t, (t ∈ ts \/ exists d, d ∈ added cs /\ t = new_task d)
                      /\ same_or_completed t t'
                      /\ description t' = description t
                      /\ (truthy (completed t) = true ->
                          truthy (completed t') = true)) ts'.
Proof.
  intros Hrun.
  assert (forall t t', same_or_completed t t' ->
            description t' = description t
            /\ (truthy (completed t) = true -> truthy (completed t') = true))
    as Hkeep.
  { intros t t' [->| ->]; done. }
  eapply Forall_impl; [exact (run_tasks_come_from cs f ts ts' w Hrun)|].
  intros t' (t & Hin & Hs). exists t. destruct (Hkeep t t' Hs). done.
Qed.

Lemma operations_edit_no_description_witness :
  Forall (fun t' =>
            exists t, (t ∈ three_tasks
                       \/ exists d, d ∈ added [Add (txt " milk "); Complete 1;
                                               Remove 2]
                                    /\ t = new_task d)
                      /\ same_or_completed t t'
                      /\ description t' = description t
                      /\ (truthy (completed t) = true ->
                          truthy (completed t') = true))
    [mkTask (JStr (txt "a")) (JBool true);
     mkTask (JStr (txt "c")) (JBool false);
     mkTask (JStr (txt "milk")) (JBool false)].
Proof.
  apply (operations_edit_no_description_and_clear_no_flag
           [Add (txt " milk "); Complete 1; Remove 2]
           app_store three_tasks _ app_world).
  vm_compute. reflexivity.
Defined.

(** ** What is on the disk after the operations *)

Lemma writable_same (w w1 : world) (p : path) :
  disk w1 = disk w -> readonly w1 = readonly w -> writable w1 p = writable w p.
Proof.
  intros Hd Hr. unfold writable, is_dir.
  assert (forall q, node_at w1 q = node_at w q) as Hn.
  { intros [|a q]; [done|]. simpl. by rewrite Hd. }
  by rewrite !Hn, Hr.
Qed.

Lemma writable_after_write (w w1 : world) (p : path) (s : text) :
  writable w p = true ->
  disk w1 = <[p := File s]> (disk w) -> readonly w1 = readonly w ->
  writable w1 p = true.
Proof.
  intros Hw Hd Hr.
  assert (p <> []) as Hp by by eapply writable_not_root.
  unfold writable, is_dir in *.
  assert (node_at w1 (parent p) = node_at w (parent p)) as ->.
  { pose proof (parent_neq p Hp) as Hne.
    destruct (parent p) as [|b q]; [done|]. simpl. rewrite Hd.
    by rewrite lookup_insert_ne. }
  destruct (node_at w (parent p)) as [[| | |]|]; try done.
  destruct p as [|a p']; [done|].
  unfold node_at in *. rewrite Hd, lookup_insert_eq, Hr.
  destruct (bool_decide (a :: p' ∈ readonly w)); [|done].
  by rewrite andb_false_r in Hw.
Qed.

Lemma plain_text_app (a b : text) :
  plain_text (a ++ b) = true -> plain_text a = true /\ plain_text b = true.
Proof.
  induction a as [|c a IH]; [done|]. cbn [app plain_text].
  rewrite !andb_true_iff. intros [[Hc Hs] H]. destruct (IH H) as [Ha Hb].
  split; [|done]. split; [split; [done|]|done].
  destruct a as [|c' a']; [|done].
  by rewrite andb_false_r.
Qed.

Lemma lstrip_suffix (s : text) : exists a, s = a ++ lstrip s.
Proof.
  induction s as [|c s [a IH]]; [by exists []|]. simpl.
  destruct (isspace c); [|by exists []].
  exists (c :: a). simpl. by f_equal.
Qed.

Lemma plain_text_strip (s : text) :
  plain_text s = true -> plain_text (strip s) = true.
Proof.
  intros H. destruct (lstrip_suffix s) as [a Ha].
  rewrite Ha in H. apply plain_text_app in H as [_ H].
  unfold strip, rstrip. destruct (lstrip_suffix (rev (lstrip s))) as [b Hb].
  apply (f_equal (@rev N)) in Hb. rewrite rev_involutive, rev_app_distr in Hb.
  rewrite Hb in H. by apply plain_text_app in H as [H _].
Qed.

Lemma task_safe_new_task (d : text) :
  plain_text d = true -> task_safe (new_task d).
Proof. intros H. split; [by apply plain_text_strip|done]. Qed.

Lemma task_safe_completed (t t' : Task) :
  task_safe t -> same_or_completed t t' -> task_safe t'.
Proof. intros [Hd Hc] [->| ->]; [done|]. by split. Qed.

(** A store file that holds the snapshot of a list of safe tasks is
    loaded as that list. *)
Lemma load_of_snapshot (f : path) (ts : list Task) (tsk : option (list Task))
  (w : world) :
  Forall task_safe ts ->
  node_at w f = Some (File (snapshot ts)) ->
  Tracker.load_tasks (Tracker.mkTracker f tsk) w = (Ok ts, w).
Proof.
  intros Hsafe Hnode.
  unfold Tracker.load_tasks, path_exists, is_file, Tracker.read_tasks, read.
  cbn [Tracker.tasks_file]. rewrite Hnode. cbn [negb mbind result_bind].
  unfold Tracker.parse_tasks, snapshot.
  rewrite loads_dumps by by apply safe_snapshot.
  cbn [mbind result_bind]. by rewrite decode_items_to_dict.
Qed.

Lemma run_disk (cs : list command) (f : path) (ts : list Task) (w : world) :
  writable w f = true ->
  exists ts',
    (run cs (Tracker.mkTracker f (Some ts)) w).1
    = Ok (Tracker.mkTracker f (Some ts'))
    /\ ((ts' = ts /\ disk (run cs (Tracker.mkTracker f (Some ts)) w).2 = disk w)
        \/ disk (run cs (Tracker.mkTracker f (Some ts)) w).2
           = <[f := File (snapshot ts')]> (disk w)).
Proof.
  revert ts w. induction cs as [|c cs IH]; intros ts w Hw.
  - exists ts. simpl. split; [done|by left].
  - cbn [run].
    destruct (run_command_cases c f ts w)
      as [(ts1 & m & Hmut & ->)|(w1 & Hno & -> & Hd & Hr & Hs)].
    + destruct (accepted_world f ts1 m w) as (_ & Hr1 & Hd1).
      rewrite Hw in Hd1.
      set (w1 := print m (Tracker.save_tasks (Tracker.mkTracker f (Some ts1)) w))
        in *.
      assert (writable w1 f = true) as Hw1
        by by eapply writable_after_write.
      destruct (IH ts1 w1 Hw1) as (ts' & E & Hdisk).
      exists ts'. split; [done|]. right.
      destruct Hdisk as [[-> ->]| ->]; [done|].
      rewrite Hd1. apply insert_insert_eq.
    + assert (writable w1 f = true) as Hw1
        by (by rewrite (writable_same w w1)).
      destruct (IH ts w1 Hw1) as (ts' & E & Hdisk).
      exists ts'. split; [done|]. by rewrite Hd in Hdisk.
Qed.

(** X7.  After any sequence of operations on a store file that can be
    written, the disk is the disk before with at most the store file
    changed: either nothing was written and the list is the one before,
    or the store file holds the snapshot of the list in memory, whatever
    it held before, and no other path has changed.  A store file in
    step with the list stays in step; and when the tasks are safe
    values and the descriptions added are plain texts, a tracker
    constructed afterwards loads the list that is in memory. *)
Theorem the_store_holds_the_list_after_any_sequence
  (cs : list command) (f : path) (ts : list Task) (w : world) :
  writable w f = true ->
  let self := Tracker.mkTracker f (Some ts) in
  let r := run cs self w in
  exists ts',
    r.1 = Ok (Tracker.mkTracker f (Some ts'))
    /\ ((ts' = ts /\ disk r.2 = disk w)
        \/ disk r.2 = <[f := File (snapshot ts')]> (disk w))
    /\ (in_sync self w -> in_sync (Tracker.mkTracker f (Some ts')) r.2)
    /\ (in_sync self w \/ disk r.2 <> disk w ->
        Forall task_safe ts ->
        Forall (fun d => plain_text d = true) (added cs) ->
        forall tsk,
          Tracker.load_tasks (Tracker.mkTracker f tsk) r.2 = (Ok ts', r.2)).
Proof.
  intros Hw self r; subst self r.
  destruct (run_disk cs f ts w Hw) as (ts' & Hrun & Hdisk).
  exists ts'. split; [done|]. split; [done|].
  assert (f <> []) as Hf by by eapply writable_not_root.
  assert (forall w0 : world, node_at w0 f = disk w0 !! f) as Hnode
    by (intros w0; by destruct f).
  assert (in_sync (Tracker.mkTracker f (Some ts)) w ->
          node_at (run cs (Tracker.mkTracker f (Some ts)) w).2 f
          = Some (File (snapshot ts'))) as Hsync.
  { intros (ts0 & [= <-] & Hs). cbn [Tracker.tasks_file] in Hs.
    rewrite Hnode in *. destruct Hdisk as [[-> ->]| ->]; [done|].
    apply lookup_insert_eq. }
  split.
  - intros H. exists ts'. split; [done|]. by apply Hsync.
  - intros Hstart Hsafe Hplain tsk. apply load_of_snapshot.
    + pose proof (run_tasks_come_from cs f ts ts' w Hrun) as Hfrom.
      eapply Forall_impl; [exact Hfrom|]. intros t' (t & Hin & Hs).
      apply (task_safe_completed t); [|done].
      destruct Hin as [Hin|(d & Hd & ->)].
      * rewrite Forall_forall in Hsafe. by apply Hsafe.
      * apply task_safe_new_task. rewrite Forall_forall in Hplain.
        by apply Hplain.
    + destruct Hstart as [H|H]; [by apply Hsync|].
      destruct Hdisk as [[_ Hd]|Hd]; [done|].
      rewrite Hnode, Hd. apply lookup_insert_eq.
Qed.

Lemma the_store_holds_the_list_witness :
  let cs := [Add (txt " milk "); Complete 1; ListAll; Remove 2] in
  let self := Tracker.mkTracker app_store (Some three_tasks) in
  let r := run cs self app_world in
  exists ts',
    r.1 = Ok (Tracker.mkTracker app_store (Some ts'))
    /\ ((ts' = three_tasks /\ disk r.2 = disk app_world)
        \/ disk r.2 = <[app_store := File (snapshot ts')]> (disk app_world))
    /\ (in_sync self app_world
        -> in_sync (Tracker.mkTracker app_store (Some ts')) r.2)
    /\ (in_sync self app_world \/ disk r.2 <> disk app_world ->
        Forall task_safe three_tasks ->
        Forall (fun d => plain_text d = true) (added cs) ->
        forall tsk,
          Tracker.load_tasks (Tracker.mkTracker app_store tsk) r.2
          = (Ok ts', r.2)).
Proof.
  intros cs.
  apply (the_store_holds_the_list_after_any_sequence
           cs app_store three_tasks app_world).
  vm_compute. reflexivity.
Defined.

(** ** Loading a regular store file *)

Lemma from_dict_has_description (item : json) (t : Task) :
  Tracker.from_dict item = Ok t -> has_description item.
Proof.
  unfold Tracker.from_dict, subscript. destruct item; try done.
  destruct (dict_get (txt "description") members) as [d|] eqn:E; [|done].
  intros _. by exists members, d.
Qed.

Lemma has_description_from_dict (item : json) :
  has_description item -> exists t, Tracker.from_dict item = Ok t.
Proof.
  intros (members & d & -> & Hd). unfold Tracker.from_dict, subscript, get_default.
  rewrite Hd. cbn [mbind result_bind].
  destruct (dict_get (txt "completed") members); cbn [mbind result_bind]; eauto.
Qed.

Lemma decode_items_Forall2 (items : list json) (ts : list Task) :
  Tracker.decode_items items = Ok ts
  <-> Forall2 (fun item t => Tracker.from_dict item = Ok t) items ts.
Proof.
  revert ts. induction items as [|item items IH]; intros ts; simpl.
  - split; [intros [= <-]; constructor|by inversion 1].
  - destruct (Tracker.from_dict item) as [t|e] eqn:E; cbn [mbind result_bind].
    + destruct (Tracker.decode_items items) as [ts0|e] eqn:E0;
        cbn [mbind result_bind].
      * split.
        -- intros [= <-]. constructor; [done|]. by apply IH.
        -- inversion 1 as [|? t' ? ts1 Ht Hts]; subst.
           apply IH in Hts. congruence.
      * split; [done|]. inversion 1 as [|? t' ? ts1 Ht Hts]; subst.
        apply IH in Hts. done.
    + split; [done|]. inversion 1; subst. congruence.
Qed.

Lemma decode_items_has_description (items : list json) :
  Forall has_description items <-> exists ts, Tracker.decode_items items = Ok ts.
Proof.
  split.
  - induction 1 as [|item items Hd _ [ts IH]]; [by exists []|].
    destruct (has_description_from_dict item Hd) as [t Ht].
    exists (t :: ts). simpl. rewrite Ht. cbn [mbind result_bind]. by rewrite IH.
  - intros [ts H]. apply decode_items_Forall2 in H.
    induction H as [|item t items ts Ht _ IH]; constructor; [|done].
    by eapply from_dict_has_description.
Qed.

(** An unusable content makes [load_tasks] reset. *)
Lemma load_unusable (dir : path) (tsk : option (list Task)) (w : world)
  (content : text) :
  node_at w (child dir "tasks.json") = Some (File content) ->
  unusable content ->
  reset_outcome dir w content
    (Tracker.load_tasks (Tracker.mkTracker (child dir "tasks.json") tsk) w).
Proof.
  intros Hf Hno. rewrite (load_tasks_regular_file dir tsk w content Hf).
  rewrite (read_tasks_content dir tsk w content Hf).
  destruct Hno as [-> |(v & -> & Hv)]; cbn [mbind result_bind].
  - by apply backup_and_reset.
  - destruct v; try by apply backup_and_reset.
    destruct (decode_items_outcome items) as [[ts Hts]|(e & -> & Hc)];
      cbn [mbind result_bind].
    + destruct (Hv items eq_refl). apply decode_items_has_description. eauto.
    + rewrite Hc. by apply backup_and_reset.
Qed.

Lemma load_usable (dir : path) (tsk : option (list Task)) (w : world)
  (content : text) (ts : list Task) :
  node_at w (child dir "tasks.json") = Some (File content) ->
  Tracker.parse_tasks content = Ok (inl ts) ->
  Tracker.load_tasks (Tracker.mkTracker (child dir "tasks.json") tsk) w
  = (Ok ts, w).
Proof.
  intros Hf Hp. rewrite (load_tasks_regular_file dir tsk w content Hf).
  unfold Tracker.read_tasks, read. cbn [Tracker.tasks_file]. rewrite Hf.
  cbn [mbind result_bind]. by rewrite Hp.
Qed.



(** ** Runs of [main] of the task tracker *)

Lemma init_load_tasks (script : path) (w : world) :
  Tracker.init script w
  = match Tracker.load_tasks (Tracker.mkTracker (store_of script) None) w with
    | (Ok ts, w1) => (Ok (Tracker.mkTracker (store_of script) (Some ts)), w1)
    | (Raise e, w1) => (Raise e, w1)
    end.
Proof. done. Qed.

(** After a construction that returned, [main] runs the operation of
    its arguments, or prints the help. *)
Lemma main_dispatch (args : TrackerMain.Namespace) (script : path) (w : world) :
  TrackerMain.main args script w
  = match Tracker.init script w with
    | (Raise e, w1) => (TrackerMain.InitFailed e, w1)
    | (Ok task_tracker, w1) =>
        match command_of args with
        | Some c => TrackerMain.after (run_command c task_tracker w1)
        | None => (TrackerMain.Help task_tracker, w1)
        end
    end.
Proof.
  unfold TrackerMain.main, command_of.
  destruct (Tracker.init script w) as [[task_tracker|e] w1]; [|done].
  destruct args as [[[|c d]|] [] [i|] [j|] []]; cbn;
    try done;
    try (by destruct (Tracker.list_tasks task_tracker w1) as [[[]|e] w2]);
    try (by destruct (Tracker.in_progress_tasks task_tracker w1) as [[[]|e] w2]).
Qed.

Lemma mkdir_rev_raises (rp : list string) (w : world) (e : exn) :
  (mkdir_rev rp w).1 = Raise e -> exists o, e = OSError o.
Proof.
  assert (forall p w0 e0, os_mkdir p w0 = Raise e0 -> exists o, e0 = OSError o)
    as Hos.
  { intros p w0 e0. unfold os_mkdir.
    destruct (node_at w0 p); [intros [= <-]; eauto|].
    destruct (node_at w0 (parent p)) as [[| | |]|]; try (intros [= <-]; eauto).
    case_bool_decide; [intros [= <-]; eauto|done]. }
  revert w e. induction rp as [|a rp IH]; intros w e.
  - simpl. destruct (os_mkdir [] w) as [w'|e0] eqn:E; [done|].
    apply Hos in E as [o ->]. destruct o; simpl; try (destruct (is_dir w []));
      simpl; try done; intros [= <-]; eauto.
  - cbn [mkdir_rev]. destruct (os_mkdir (rev (a :: rp)) w) as [w'|e0] eqn:E;
      [done|].
    apply Hos in E as [o ->].
    assert (forall w0 o0,
              (if is_dir w0 (rev (a :: rp)) then (Ok (), w0)
               else (@Raise unit (OSError o0), w0)).1 = Raise e ->
              exists o', e = OSError o') as Hsame.
    { intros w0 o0. destruct (is_dir w0 (rev (a :: rp))); [done|].
      intros [= <-]. eauto. }
    destruct o; try apply Hsame.
    specialize (IH w). destruct (mkdir_rev rp w) as [[[]|e1] w1].
    + destruct (os_mkdir (rev (a :: rp)) w1) as [w2|e2] eqn:E2; [done|].
      apply Hos in E2 as [o2 ->]. destruct o2; try apply Hsame.
      intros [= <-]. eauto.
    + intros [= <-]. by apply IH.
Qed.

(** [load_tasks] raises what [mkdir] raises, on a store file that does
    not exist, and what reading and parsing a store file raises that its
    [except] clause does not name; a store file that is a directory
    makes it raise nothing. *)
Lemma load_tasks_raises (script : path) (tsk : option (list Task))
  (w w1 : world) (e : exn) :
  Tracker.load_tasks (Tracker.mkTracker (store_of script) tsk) w = (Raise e, w1) ->
  load_failure script w e w1.
Proof.
  intros H. unfold load_failure.
  destruct (node_at w (store_of script)) as [[content| | |]|] eqn:Hn.
  - right.
    destruct (load_of_a_text_file_raises (parent script) tsk w w1 content e Hn H)
      as (-> & Hl & Hc).
    split; [done|]. right; right. by exists content.
  - unfold Tracker.load_tasks, path_exists, is_file in H.
    cbn [Tracker.tasks_file] in H. rewrite Hn in H. done.
  - destruct (load_of_a_file_that_is_not_read (store_of script) tsk w)
      as [Hu _].
    rewrite (Hu Hn) in H. injection H as <- <-. right. split; [done|]. by left.
  - destruct (load_of_a_file_that_is_not_read (store_of script) tsk w)
      as [_ Hu].
    rewrite (Hu Hn) in H. injection H as <- <-. right. split; [done|].
    right; by left.
  - left.
    assert (path_exists w (store_of script) = false) as Hex
      by (unfold path_exists; by rewrite Hn).
    unfold Tracker.load_tasks in H.
    cbn [Tracker.tasks_file] in H. rewrite Hex in H. cbn [negb] in H.
    split; [done|].
    destruct (mkdir_parents _ w) as [[[]|e1] w2] eqn:Hmk; [done|].
    injection H as <- <-. split; [done|].
    apply (mkdir_rev_raises (rev (parent (store_of script))) w).
    unfold mkdir_parents in Hmk. by rewrite Hmk.
Qed.

Lemma parent_store_of (script : path) : parent (store_of script) = parent script.
Proof. apply parent_child. Qed.

Lemma store_of_not_root (script : path) : store_of script <> [].
Proof. apply child_not_root. Qed.

Lemma node_at_disk (w : world) (script : path) :
  node_at w (store_of script) = disk w !! store_of script.
Proof.
  pose proof (store_of_not_root script). by destruct (store_of script).
Qed.

(** The construction on a directory that holds no store file. *)
Lemma init_fresh (script : path) (w : world) :
  path_exists w (store_of script) = false ->
  is_dir w (parent script) = true ->
  bool_decide (store_of script ∈ readonly w) = false ->
  exists w1,
    Tracker.init script w
    = (Ok (Tracker.mkTracker (store_of script) (Some [])), w1)
    /\ disk w1 = <[store_of script := File []]> (disk w)
    /\ readonly w1 = readonly w
    /\ trace w1
       = trace w
         ++ [CallSave; Printed (ErrSavingUnexpected (AttributeError "tasks"))].
Proof.
  intros Hex Hdir Hro. rewrite init_load_tasks. unfold Tracker.load_tasks.
  cbn [Tracker.tasks_file]. rewrite Hex. cbn [negb].
  rewrite parent_store_of, (mkdir_parents_existing _ _ Hdir).
  unfold Tracker.save_tasks.
  cbn [Tracker.tasks_file Tracker.get_tasks Tracker.tasks].
  assert (writable (emit CallSave w) (store_of script) = true) as Hw.
  { unfold writable. rewrite parent_store_of.
    change (is_dir (emit CallSave w)) with (is_dir w).
    change (readonly (emit CallSave w)) with (readonly w).
    rewrite Hdir, Hro. unfold is_dir. unfold path_exists in Hex.
    by destruct (node_at w (store_of script)). }
  rewrite (open_w_writable _ _ Hw). cbn [is_IOError].
  eexists. split; [done|]. split; [done|]. split; [done|].
  simpl. by rewrite <- app_assoc.
Qed.

(** X9.  [main] ends in one of three ways and never with an exception
    of the operation it runs.  When it ends in its [except] branch,
    nothing was printed or saved before and no operation is run, and
    the exception is one of these: the [OSError] of [mkdir], on a
    directory without a store file; the [PermissionError] of [open], on
    a store file that the process may not read; the
    [UnicodeDecodeError] of [f.read()], on a store file whose bytes are
    not text; or an exception that [json.load] raised on the text of
    the store file and that the [except] clause of [load_tasks] does
    not name (in an interpreter, a [RecursionError] or a [ValueError]
    for a text beyond one of its limits).  In the last three cases the
    world is as it was: no backup is made.  Conversely, a [mkdir] that
    raises and a store file that is not read do end [main] there.
    Otherwise the tracker is constructed, and [main] prints the help
    exactly when the arguments ask for no operation ([--add] with an
    empty text asks for none), and runs one operation exactly when they
    ask for one. *)
Theorem main_runs_one_operation_or_none
  (args : TrackerMain.Namespace) (script : path) (w : world) :
  let r := TrackerMain.main args script w in
  let f := store_of script in
  match r.1 with
  | TrackerMain.Uncaught _ => False
  | TrackerMain.InitFailed e =>
      load_failure script w e r.2 /\ trace r.2 = trace w
  | TrackerMain.Help task_tracker =>
      command_of args = None
      /\ Tracker.init script w = (Ok task_tracker, r.2)
      /\ exists ts, task_tracker = Tracker.mkTracker f (Some ts)
  | TrackerMain.Done task_tracker =>
      (exists c task_tracker0 w0,
         command_of args = Some c
         /\ Tracker.init script w = (Ok task_tracker0, w0)
         /\ run_command c task_tracker0 w0 = (Ok task_tracker, r.2))
      /\ exists ts, task_tracker = Tracker.mkTracker f (Some ts)
  end
  /\ (forall e w1,
        path_exists w f = false ->
        mkdir_parents (parent f) w = (Raise e, w1) ->
        r = (TrackerMain.InitFailed e, w1))
  /\ (node_at w f = Some Unreadable ->
      r = (TrackerMain.InitFailed (OSError PermissionError), w))
  /\ (node_at w f = Some Undecodable ->
      r = (TrackerMain.InitFailed UnicodeDecodeError, w)).
Proof.
  intros r f; subst r f. rewrite main_dispatch, init_load_tasks.
  destruct (load_of_a_file_that_is_not_read (store_of script) None w)
    as [Hunreadable Hundecodable].
  split; [|split; [|split]].
  2: { intros e w1 Hex Hmk. unfold Tracker.load_tasks.
       cbn [Tracker.tasks_file]. by rewrite Hex, Hmk. }
  2: { intros Hn. by rewrite (Hunreadable Hn). }
  2: { intros Hn. by rewrite (Hundecodable Hn). }
  destruct (Tracker.load_tasks (Tracker.mkTracker (store_of script) None) w)
    as [[ts|e] w1] eqn:Hload.
  - destruct (command_of args) as [c|]; [|simpl; eauto].
    destruct (run_command_cases c (store_of script) ts w1)
      as [(ts1 & m & Hmut & E)|(w2 & Hno & E & _)]; rewrite E; simpl.
    + split; [|eauto]. by eexists c, _, _.
    + split; [|eauto]. by eexists c, _, _.
  - apply load_tasks_raises in Hload as Hwhy. simpl. split; [done|].
    destruct Hwhy as [(_ & Hmk & _)|[-> _]]; [|done].
    destruct (mkdir_rev_frame (rev (parent (store_of script))) w)
      as (Htr & _).
    unfold mkdir_parents in Hmk. by rewrite Hmk in Htr.
Qed.

Lemma main_runs_witness :
  let args := TrackerMain.mkArgs None true None None false in
  let w := World {[ ["app"] := Dir; app_store := Undecodable ]} ∅ [] in
  let w' := World {[ ["app"] := Dir; app_store := Unreadable ]} ∅ [] in
  TrackerMain.main args ["app"; "main.py"] w
  = (TrackerMain.InitFailed UnicodeDecodeError, w)
  /\ TrackerMain.main args ["app"; "main.py"] w'
     = (TrackerMain.InitFailed (OSError PermissionError), w').
Proof.
  intros args w w'. split.
  - apply (main_runs_one_operation_or_none args ["app"; "main.py"] w).
    reflexivity.
  - apply (main_runs_one_operation_or_none args ["app"; "main.py"] w').
    reflexivity.
Defined.







(** The list and the world a construction starts an operation with, on
    a directory without a store file or on a store file that decodes. *)
Lemma init_ready (script : path) (w : world) (ts : list Task) :
  is_dir w (parent script) = true ->
  bool_decide (store_of script ∈ readonly w) = false ->
  (path_exists w (store_of script) = false /\ ts = [])
  \/ (exists content,
        node_at w (store_of script) = Some (File content)
        /\ Tracker.parse_tasks content = Ok (inl ts)) ->
  exists w1,
    Tracker.init script w
    = (Ok (Tracker.mkTracker (store_of script) (Some ts)), w1)
    /\ writable w1 (store_of script) = true
    /\ (forall p, p <> store_of script -> disk w1 !! p = disk w !! p)
    /\ readonly w1 = readonly w.
Proof.
  intros Hdir Hro [[Hex ->]|(content & Hnode & Hparse)].
  - destruct (init_fresh script w Hex Hdir Hro) as (w1 & Hinit & Hd & Hr & _).
    exists w1. split; [done|]. split; [|split; [|done]].
    + apply (writable_after_write w w1 _ []); [|done|done].
      unfold writable. rewrite parent_store_of, Hdir, Hro.
      unfold is_dir. unfold path_exists in Hex.
      by destruct (node_at w (store_of script)).
    + intros p Hp. rewrite Hd. by apply lookup_insert_ne.
  - exists w. rewrite init_load_tasks. unfold store_of in *.
    rewrite (load_usable (parent script) None w content ts Hnode Hparse).
    split; [done|]. split; [|done].
    unfold writable. rewrite parent_child, Hdir, Hro.
    unfold is_dir. by rewrite Hnode.
Qed.

(** X11.  A task added by one run of [main] is the last row that the
    next run lists.  The first run starts on a directory without a store
    file, or on a store file that decodes to a list [ts] of safe tasks,
    and adds a description that is a plain text and not blank; it leaves
    the snapshot of [ts] with the new task in the store file and touches
    no other path.  The next run, asked to list, constructs its tracker
    from that file without printing or writing anything, and prints the
    tasks of [ts] and the new task, each under its position. *)
Theorem a_task_added_by_one_run_is_listed_by_the_next
  (d : text) (ts : list Task) (args args' : TrackerMain.Namespace)
  (script : path) (w : world) :
  let f := store_of script in
  let ts' := ts ++ [new_task d] in
  is_dir w (parent script) = true ->
  bool_decide (f ∈ readonly w) = false ->
  (path_exists w f = false /\ ts = [])
  \/ (exists content,
        node_at w f = Some (File content)
        /\ Tracker.parse_tasks content = Ok (inl ts)) ->
  Forall task_safe ts ->
  command_of args = Some (Add d) -> blank d = false -> plain_text d = true ->
  command_of args' = Some ListAll ->
  let first := TrackerMain.main args script w in
  let second := TrackerMain.main args' script first.2 in
  first.1 = TrackerMain.Done (Tracker.mkTracker f (Some ts'))
  /\ disk first.2 = <[f := File (snapshot ts')]> (disk w)
  /\ second.1 = TrackerMain.Done (Tracker.mkTracker f (Some ts'))
  /\ disk second.2 = disk first.2
  /\ trace second.2
     = trace first.2
       ++ [Printed HeaderYourTasks; Printed Rule]
       ++ map row_line (enumerate 1 ts') ++ [Printed Rule].
Proof.
  intros f ts' Hdir Hro Hstart Hsafe Hargs Hd Hplain Hargs' first second;
    subst f first second.
  destruct (init_ready script w ts Hdir Hro Hstart)
    as (w1 & Hinit & Hw1 & Hframe & Hr1).
  rewrite (main_dispatch args), Hinit, Hargs. cbn [run_command].
  rewrite add_task_accepted by done. fold (new_task d). fold ts'.
  cbn [TrackerMain.after fst snd].
  destruct (accepted_world (store_of script) ts' (TaskAdded (new_task d)) w1)
    as (_ & Hr2 & Hd2).
  rewrite Hw1 in Hd2.
  set (w2 := print (TaskAdded (new_task d))
               (Tracker.save_tasks
                  (Tracker.mkTracker (store_of script) (Some ts')) w1)) in *.
  assert (disk w2 = <[store_of script := File (snapshot ts')]> (disk w)) as Hdisk.
  { rewrite Hd2. apply map_eq. intros p.
    destruct (decide (p = store_of script)) as [->|Hp].
    - by rewrite !lookup_insert_eq.
    - rewrite !lookup_insert_ne by done. by apply Hframe. }
  split; [done|]. split; [done|].
  assert (Forall task_safe ts') as Hsafe'.
  { apply Forall_app. split; [done|]. constructor; [|done].
    by apply task_safe_new_task. }
  assert (node_at w2 (store_of script) = Some (File (snapshot ts'))) as Hnode.
  { rewrite node_at_disk, Hdisk. apply lookup_insert_eq. }
  rewrite (main_dispatch args'), init_load_tasks.
  rewrite (load_of_snapshot (store_of script) ts' None w2 Hsafe' Hnode).
  rewrite Hargs'. cbn [run_command]. unfold Tracker.list_tasks.
  cbn [Tracker.get_tasks Tracker.tasks].
  assert (exists t0 l, ts' = t0 :: l) as (t0 & l & E).
  { unfold ts'. destruct ts; simpl; eauto. }
  rewrite E. rewrite <- E. cbn [TrackerMain.after fst snd].
  destruct (print_rows_trace ts' 1 (print Rule (print HeaderYourTasks w2)))
    as [Htr Hdk].
  split; [done|]. split; [by rewrite disk_print, Hdk|].
  unfold print at 1. unfold emit. cbn [trace]. rewrite Htr.
  simpl. by rewrite <- !app_assoc.
Qed.

Lemma a_task_added_witness :
  let d := txt " buy milk " in
  let args := TrackerMain.mkArgs (Some d) false None None false in
  let args' := TrackerMain.mkArgs None true None None false in
  let script := ["app"; "main.py"]%string in
  let ts' := [] ++ [new_task d] in
  let first := TrackerMain.main args script app_world in
  let second := TrackerMain.main args' script first.2 in
  first.1 = TrackerMain.Done (Tracker.mkTracker (store_of script) (Some ts'))
  /\ disk first.2 = <[store_of script := File (snapshot ts')]> (disk app_world)
  /\ second.1 = TrackerMain.Done (Tracker.mkTracker (store_of script) (Some ts'))
  /\ disk second.2 = disk first.2
  /\ trace second.2
     = trace first.2
       ++ [Printed HeaderYourTasks; Printed Rule]
       ++ map row_line (enumerate 1 ts') ++ [Printed Rule].
Proof.
  intros d args args' script.
  apply (a_task_added_by_one_run_is_listed_by_the_next
           d [] args args' script app_world).
  - reflexivity.
  - reflexivity.
  - left. split; reflexivity.
  - constructor.
  - reflexivity.
  - reflexivity.
  - reflexivity.
  - reflexivity.
Defined.

(** ** After a reset *)

Lemma create_backup_readonly (self : Tracker.TaskTracker) (w : world) :
  readonly (Tracker.create_backup self w) = readonly w.
Proof.
  unfold Tracker.create_backup, copy2.
  destruct (node_at _ (Tracker.tasks_file self)) as [[content| | |]|];
    try done;
    (destruct (open_w _ _) as [w1|e] eqn:Hopen; cbn [mbind result_bind];
     [|done]);
    apply open_w_trace in Hopen as [_ Hr]; rewrite readonly_print; [|done].
  by destruct (write_trace
    (if is_dir (emit CallBackup w)
          (with_suffix (Tracker.tasks_file self) ".bak")
     then child (with_suffix (Tracker.tasks_file self) ".bak")
            (List.last (Tracker.tasks_file self) EmptyString)
     else with_suffix (Tracker.tasks_file self) ".bak") content w1) as [_ ->].
Qed.

Lemma load_regular_file_readonly (dir : path) (tsk : option (list Task))
  (w : world) (content : text) :
  node_at w (child dir "tasks.json") = Some (File content) ->
  readonly (Tracker.load_tasks (Tracker.mkTracker (child dir "tasks.json") tsk) w).2
  = readonly w.
Proof.
  intros Hf. rewrite (load_tasks_regular_file dir tsk w content Hf).
  destruct (Tracker.read_tasks _ w) as [[ts|data]|e]; cbn [snd]; [done| |].
  - by rewrite create_backup_readonly.
  - destruct (Tracker.caught_by_load e); cbn [snd]; [|done].
    by rewrite create_backup_readonly.
Qed.

Lemma backup_target_not_dir (dir : path) (w : world) : backup_target dir w <> dir.
Proof.
  unfold backup_target, child. destruct (is_dir w _); intros E;
    apply (f_equal (@length string)) in E; rewrite !length_app in E;
    simpl in E; lia.
Qed.

(** X12.  The task added first after a reset takes the place of the
    content that could not be used: a text on which [json.load] raises
    a [JSONDecodeError], or the text of a value that is not a list of
    objects with a [description] each.  [load_tasks] leaves that content
    in the store file, but the list in memory is empty, and the save of
    the first [add_task] writes the snapshot of the one new task over
    it: what the file held is then in the backup, when the backup could
    be written, and nowhere when it could not.  No other path
    changes. *)
Theorem the_first_add_after_a_reset_replaces_the_unusable_content
  (d : text) (script : path) (w : world) (content : text) :
  let f := store_of script in
  let backup := backup_target (parent script) w in
  node_at w f = Some (File content) ->
  unusable content ->
  is_dir w (parent script) = true ->
  bool_decide (f ∈ readonly w) = false ->
  blank d = false ->
  exists w0,
    Tracker.init script w = (Ok (Tracker.mkTracker f (Some [])), w0)
    /\ disk w0 !! f = Some (File content)
    /\ let r := Tracker.add_task (Tracker.mkTracker f (Some [])) d w0 in
       r.1 = Ok (Tracker.mkTracker f (Some [new_task d]))
       /\ disk r.2 !! f = Some (File (snapshot [new_task d]))
       /\ disk r.2 !! backup
          = (if writable w backup then Some (File content)
             else disk w !! backup)
       /\ forall p, p <> f -> p <> backup -> disk r.2 !! p = disk w !! p.
Proof.
  intros f backup Hnode Hno Hdir Hro Hd; subst f backup.
  pose proof (load_unusable (parent script) None w content Hnode Hno)
    as (Hres & Hkeep & _ & Hdisk).
  pose proof (load_regular_file_readonly (parent script) None w content Hnode)
    as Hr0.
  fold (store_of script) in *.
  destruct (Tracker.load_tasks (Tracker.mkTracker (store_of script) None) w)
    as [r0 w0] eqn:Hload.
  cbn [fst snd] in *. subst r0.
  exists w0. rewrite init_load_tasks, Hload.
  split; [done|]. split; [done|].
  assert (disk w0 = if writable w (backup_target (parent script) w)
                    then <[backup_target (parent script) w := File content]>
                           (disk w)
                    else disk w) as Hd0.
  { destruct Hdisk as [(-> & -> & _)|(-> & -> & _)]; done. }
  assert (writable w0 (store_of script) = true) as Hw0.
  { unfold writable. rewrite Hr0, Hro, parent_store_of.
    assert (is_dir w0 (parent script) = true) as ->.
    { unfold is_dir in *.
      assert (node_at w0 (parent script) = node_at w (parent script)) as ->;
        [|done].
      pose proof (backup_target_not_dir (parent script) w) as Hne.
      destruct (parent script) as [|a q]; [done|]. simpl. rewrite Hd0.
      destruct (writable w _); [|done]. by rewrite lookup_insert_ne. }
    unfold is_dir. rewrite node_at_disk, Hkeep. done. }
  rewrite add_task_accepted by done. fold (new_task d). cbn [fst snd app].
  destruct (accepted_world (store_of script) [new_task d]
              (TaskAdded (new_task d)) w0) as (_ & _ & ->).
  rewrite Hw0. split; [done|]. split; [apply lookup_insert_eq|].
  pose proof (backup_target_neq (parent script) w) as Hne.
  fold (store_of script) in Hne.
  split.
  - rewrite lookup_insert_ne by done. rewrite Hd0.
    destruct (writable w _); [apply lookup_insert_eq|done].
  - intros p Hp Hb. rewrite lookup_insert_ne by done. rewrite Hd0.
    destruct (writable w _); [by rewrite lookup_insert_ne|done].
Qed.

Lemma the_first_add_after_a_reset_witness :
  let d := txt "buy milk" in
  let script := ["app"; "main.py"]%string in
  let w := world_with_store not_an_array ∅ in
  let f := store_of script in
  let backup := backup_target (parent script) w in
  exists w0,
    Tracker.init script w = (Ok (Tracker.mkTracker f (Some [])), w0)
    /\ disk w0 !! f = Some (File not_an_array)
    /\ let r := Tracker.add_task (Tracker.mkTracker f (Some [])) d w0 in
       r.1 = Ok (Tracker.mkTracker f (Some [new_task d]))
       /\ disk r.2 !! f = Some (File (snapshot [new_task d]))
       /\ disk r.2 !! backup
          = (if writable w backup then Some (File not_an_array)
             else disk w !! backup)
       /\ forall p, p <> f -> p <> backup -> disk r.2 !! p = disk w !! p.
Proof.
  intros d script w.
  apply (the_first_add_after_a_reset_replaces_the_unusable_content
           d script w not_an_array).
  - reflexivity.
  - right. exists (JStr (txt "not a json array")).
    split; [vm_compute; reflexivity|discriminate].
  - reflexivity.
  - reflexivity.
  - reflexivity.
Defined.

(** ** The lines and the runs of the activity program *)

Section ActivityRuns.

Variable repr_other : json -> text.
Variable capitalize_other : text -> text.
Variable urlopen : text -> ActivityMain.reply.
Variable dict_slice_error : exn.

Let main :=
  ActivityMain.main repr_other capitalize_other urlopen dict_slice_error.

Lemma is_str_exclusive (v : json) (a b : string) :
  Activity.is_str v a = true -> Activity.is_str v b = true -> txt a = txt b.
Proof.
  destruct v; try done. intros Ha Hb.
  apply is_str_true in Ha, Hb. congruence.
Qed.

(** An event has one type. *)
Lemma two_types (v : json) (a b : string) :
  Activity.is_str v a = true -> Activity.is_str v b = true ->
  bool_decide (txt a = txt b) = false -> False.
Proof.
  intros Ha Hb Hne. apply bool_decide_eq_false in Hne.
  apply Hne. by eapply is_str_exclusive.
Qed.

Lemma capitalize_value_ok (v : json) (s : text) :
  Activity.capitalize_value capitalize_other v = Ok s -> exists a, v = JStr a.
Proof. destruct v; try done. eauto. Qed.

Lemma is_str_JStr (v : json) (lit : string) :
  Activity.is_str v lit = true -> v = JStr (txt lit).
Proof. destruct v; try done. intros H. apply is_str_true in H. by subst. Qed.

(** The type [ty] of the event is not the one that [T] says it is. *)
Ltac other_type ty T :=
  fold ty in T;
  first
    [ congruence
    | match goal with
      | Tk : Activity.is_str ty _ = true |- _ =>
          by destruct (two_types ty _ _ Tk T)
      end ].

(** What [format_event] returns, by the type of the event. *)
Lemma format_event_line (event : json) (line : text) :
  Activity.format_event repr_other capitalize_other event = Ok line ->
  formats event
  /\ exists repo before,
       fetch event ["repo"; "name"]%string = Ok repo
       /\ line = before ++ txt " " ++ Activity.str_of repr_other repo.
Proof.
  unfold Activity.format_event.
  destruct event; try discriminate. unfold get_default.
  assert ((match dict_get (txt "type") members with
           | Some v => Ok v | None => Ok JNull end)
          = Ok (type_of_event members)) as ->.
  { unfold type_of_event. by destruct (dict_get _ _). }
  cbn [mbind result_bind].
  destruct (subscript (JObj members) (txt "repo")) as [r|] eqn:Er;
    cbn [mbind result_bind]; [|discriminate].
  destruct (subscript r (txt "name")) as [repo|] eqn:En;
    cbn [mbind result_bind]; [|discriminate].
  assert (fetch (JObj members) ["repo"; "name"]%string = Ok repo) as Hrepo.
  { cbn [fetch]. rewrite Er. cbn [mbind result_bind]. by rewrite En. }
  set (ty := type_of_event members) in *.
  assert (forall before : text,
            exists repo0 before0,
              fetch (JObj members) ["repo"; "name"]%string = Ok repo0
              /\ (before ++ txt " ") ++ Activity.str_of repr_other repo
                 = before0 ++ txt " " ++ Activity.str_of repr_other repo0)
    as Hline.
  { intros before. exists repo, before. split; [done|]. by rewrite <- app_assoc. }
  destruct (Activity.is_str ty "PushEvent") eqn:T1.
  { intros [= <-]. split; [|apply (Hline (txt "Pushed to"))].
    exists members, repo. split; [done|]. split; [done|].
    split; [|split]; intros T; other_type ty T. }
  destruct (Activity.is_str ty "IssuesEvent") eqn:T2.
  { destruct (subscript (JObj members) (txt "payload")) as [p|] eqn:Ep;
      cbn [mbind result_bind]; [|discriminate].
    destruct (subscript p (txt "action")) as [action|] eqn:Ea;
      cbn [mbind result_bind]; [|discriminate].
    destruct (subscript p (txt "issue")) as [issue|] eqn:Ei;
      cbn [mbind result_bind]; [|discriminate].
    destruct (subscript issue (txt "number")) as [n|] eqn:Enum;
      cbn [mbind result_bind]; [|discriminate].
    intros H.
    assert (exists a, action = JStr a) as [a ->].
    { destruct (Activity.is_str action "opened") eqn:A1;
        [apply is_str_JStr in A1; eauto|].
      destruct (Activity.is_str action "closed") eqn:A2;
        [apply is_str_JStr in A2; eauto|].
      destruct (Activity.capitalize_value capitalize_other action) as [c|] eqn:Ec;
        [by eapply capitalize_value_ok|discriminate]. }
    split.
    - exists members, repo. split; [done|]. split; [done|]. split; [|split].
      + intros _. split; [exists a|exists n]; cbn [fetch]; rewrite Ep;
          cbn [mbind result_bind]; rewrite ?Ea, ?Ei; cbn [mbind result_bind];
          by rewrite ?Enum.
      + intros T. other_type ty T.
      + intros T. other_type ty T.
    - destruct (Activity.is_str (JStr a) "opened");
        [|destruct (Activity.is_str (JStr a) "closed")];
        cbn [Activity.capitalize_value mbind result_bind] in H;
        injection H as <-.
      + exists repo, (txt "Opened issue #" ++ Activity.str_of repr_other n
                      ++ txt " in").
        split; [done|]. by rewrite <- !app_assoc.
      + exists repo, (txt "Closed issue #" ++ Activity.str_of repr_other n
                      ++ txt " in").
        split; [done|]. by rewrite <- !app_assoc.
      + exists repo, (Activity.capitalize capitalize_other a ++ txt " issue #"
                      ++ Activity.str_of repr_other n ++ txt " in").
        split; [done|]. by rewrite <- !app_assoc. }
  destruct (Activity.is_str ty "IssueCommentEvent") eqn:T3.
  { destruct (subscript (JObj members) (txt "payload")) as [p|] eqn:Ep;
      cbn [mbind result_bind]; [|discriminate].
    destruct (subscript p (txt "issue")) as [issue|] eqn:Ei;
      cbn [mbind result_bind]; [|discriminate].
    destruct (subscript issue (txt "number")) as [n|] eqn:Enum;
      cbn [mbind result_bind]; [|discriminate].
    intros [= <-]. split.
    - exists members, repo. split; [done|]. split; [done|]. split; [|split].
      + intros T. other_type ty T.
      + intros _. exists n. cbn [fetch]. rewrite Ep. cbn [mbind result_bind].
        rewrite Ei. cbn [mbind result_bind]. by rewrite Enum.
      + intros T. other_type ty T.
    - exists repo, (txt "Commented on issue #" ++ Activity.str_of repr_other n
                    ++ txt " in").
      split; [done|]. by rewrite <- !app_assoc. }
  destruct (Activity.is_str ty "ForkEvent") eqn:T4.
  { intros [= <-]. split; [|apply (Hline (txt "Forked"))].
    exists members, repo. split; [done|]. split; [done|].
    split; [|split]; intros T; other_type ty T. }
  destruct (Activity.is_str ty "WatchEvent") eqn:T5.
  { intros [= <-]. split; [|apply (Hline (txt "Starred"))].
    exists members, repo. split; [done|]. split; [done|].
    split; [|split]; intros T; other_type ty T. }
  destruct (Activity.is_str ty "PullRequestEvent") eqn:T6.
  { destruct (subscript (JObj members) (txt "payload")) as [p|] eqn:Ep;
      cbn [mbind result_bind]; [|discriminate].
    destruct (subscript p (txt "action")) as [action|] eqn:Ea;
      cbn [mbind result_bind]; [|discriminate].
    destruct (subscript p (txt "number")) as [n|] eqn:Enum;
      cbn [mbind result_bind]; [|discriminate].
    destruct (Activity.capitalize_value capitalize_other action) as [c|] eqn:Ec;
      cbn [mbind result_bind]; [|discriminate].
    apply capitalize_value_ok in Ec as Hstr. destruct Hstr as [a ->].
    cbn [Activity.capitalize_value] in Ec. injection Ec as <-.
    intros [= <-]. split.
    - exists members, repo. split; [done|]. split; [done|]. split; [|split].
      + intros T. other_type ty T.
      + intros T. other_type ty T.
      + intros _. split; [exists a|exists n]; cbn [fetch]; rewrite Ep;
          cbn [mbind result_bind]; by rewrite ?Ea, ?Enum.
    - exists repo, (Activity.capitalize capitalize_other a
                    ++ txt " pull request #" ++ Activity.str_of repr_other n
                    ++ txt " in").
      split; [done|]. by rewrite <- !app_assoc. }
  intros [= <-]. split; [|apply (Hline (txt "Did something in"))].
  exists members, repo. split; [done|]. split; [done|].
  split; [|split]; intros T; other_type ty T.
Qed.

Lemma formats_line (event : json) :
  formats event ->
  exists line, Activity.format_event repr_other capitalize_other event = Ok line.
Proof.
  intros (members & repo & -> & Hrepo & HI & HC & HP).
  apply fetch_two in Hrepo as (r & Er & En).
  unfold Activity.format_event, get_default.
  assert ((match dict_get (txt "type") members with
           | Some v => Ok v | None => Ok JNull end)
          = Ok (type_of_event members)) as ->.
  { unfold type_of_event. by destruct (dict_get _ _). }
  cbn [mbind result_bind]. rewrite Er. cbn [mbind result_bind].
  rewrite En. cbn [mbind result_bind].
  destruct (Activity.is_str _ "PushEvent"); [eauto|].
  destruct (Activity.is_str _ "IssuesEvent").
  { destruct (HI eq_refl) as ((a & Ha) & n & Hn).
    apply fetch_two in Ha as (p & Ep & Ea).
    apply fetch_three in Hn as (p' & i & Ep' & Ei & En').
    rewrite Ep in Ep'. injection Ep' as <-.
    rewrite Ep. cbn [mbind result_bind]. rewrite Ea, Ei.
    cbn [mbind result_bind]. rewrite En'. cbn [mbind result_bind].
    destruct (Activity.is_str (JStr a) "opened"); [eauto|].
    destruct (Activity.is_str (JStr a) "closed"); [eauto|].
    cbn [Activity.capitalize_value mbind result_bind]. eauto. }
  destruct (Activity.is_str _ "IssueCommentEvent").
  { destruct (HC eq_refl) as (n & Hn).
    apply fetch_three in Hn as (p & i & Ep & Ei & En').
    rewrite Ep. cbn [mbind result_bind]. rewrite Ei.
    cbn [mbind result_bind]. rewrite En'. cbn [mbind result_bind]. eauto. }
  destruct (Activity.is_str _ "ForkEvent"); [eauto|].
  destruct (Activity.is_str _ "WatchEvent"); [eauto|].
  destruct (Activity.is_str _ "PullRequestEvent"); [|eauto].
  destruct (HP eq_refl) as ((a & Ha) & n & Hn).
  apply fetch_two in Ha as (p & Ep & Ea).
  apply fetch_two in Hn as (p' & Ep' & En').
  rewrite Ep in Ep'. injection Ep' as <-.
  rewrite Ep. cbn [mbind result_bind]. rewrite Ea.
  cbn [mbind result_bind]. rewrite En'.
  cbn [Activity.capitalize_value mbind result_bind]. eauto.
Qed.

(** X13.  [format_event] returns a line exactly for the events that are
    objects with the name of a repository and, for an [IssuesEvent], an
    [IssueCommentEvent] and a [PullRequestEvent], with the payload
    fields that the line of the type names, the action being a string;
    for every other value it raises.  Every line it returns ends with a
    blank and the name of the repository. *)
Theorem format_event_has_a_line_exactly_for_the_complete_events
  (event : json) :
  ((exists line,
      Activity.format_event repr_other capitalize_other event = Ok line)
   <-> formats event)
  /\ forall line,
       Activity.format_event repr_other capitalize_other event = Ok line ->
       exists repo before,
         fetch event ["repo"; "name"]%string = Ok repo
         /\ line = before ++ txt " " ++ Activity.str_of repr_other repo.
Proof.
  split.
  - split.
    + intros [line H]. by apply format_event_line in H as [H _].
    + apply formats_line.
  - intros line H. by apply format_event_line in H as [_ H].
Qed.

Lemma print_events_stops (good rest : list json) (bad : json)
  (lines : list text) (e : exn) :
  Forall2 (fun ev line =>
             Activity.format_event repr_other capitalize_other ev = Ok line)
    good lines ->
  Activity.format_event repr_other capitalize_other bad = Raise e ->
  Activity.print_events repr_other capitalize_other (good ++ bad :: rest)
  = (map (app (txt "- ")) lines, Some e).
Proof.
  intros Hgood Hbad. induction Hgood as [|ev line good lines Hev _ IH]; simpl.
  - by rewrite Hbad.
  - by rewrite Hev, IH.
Qed.

Lemma print_events_none (events : list json) :
  (Activity.print_events repr_other capitalize_other events).2 = None
  <-> Forall formats events.
Proof.
  induction events as [|ev events IH]; simpl; [done|].
  destruct (Activity.format_event repr_other capitalize_other ev) as [line|e]
    eqn:E.
  - destruct (Activity.print_events _ _ events) as [lines o]. simpl in *.
    rewrite IH. split.
    + intros H. constructor; [|done]. by apply format_event_line in E as [E _].
    + by inversion 1.
  - simpl. split; [done|]. inversion 1 as [|? ? Hf _]; subst.
    apply formats_line in Hf as [line Hf]. congruence.
Qed.


(** What [main] does once the reply is a list that is not empty. *)
Lemma main_on_a_list (prog arg body : text) (code : Z) (items : list json) :
  strip arg <> [] ->
  urlopen (events_url (strip arg)) = ActivityMain.Response body code ->
  Json.loads body = Ok (JArr items) ->
  items <> [] ->
  main [prog; arg]
  = let '(lines, e) :=
      Activity.print_activity repr_other capitalize_other items in
    (ActivityMain.Fetching (strip arg) :: map ActivityMain.EventLine lines,
     match e with
     | None => ActivityMain.Return
     | Some e => ActivityMain.Uncaught e
     end).
Proof.
  intros Hname Hreply Hload Hne. unfold main, ActivityMain.main.
  destruct (strip arg) as [|c u] eqn:Eu; [done|]. rewrite <- Eu in *.
  unfold ActivityMain.fetch_github_events. fold (events_url (strip arg)).
  rewrite Hreply, Hload. destruct items as [|ev items]; [done|].
  cbn [truthy negb ActivityMain.slice10]. unfold Activity.print_activity.
  by destruct (Activity.print_events _ _ _).
Qed.

(** X14.  The loop of [main] stops at the first of the first ten events
    that [format_event] raises on: the lines of the events before it
    have been printed, the exception leaves [main] uncaught, and no
    later event is looked at.  An event that [format_event] would raise
    on does no harm from the eleventh place on: the ten lines are
    printed and [main] returns. *)
Theorem main_stops_at_the_first_event_without_a_line
  (prog arg body : text) (code : Z) (good rest : list json) (bad : json)
  (lines : list text) (e : exn) :
  strip arg <> [] ->
  urlopen (events_url (strip arg)) = ActivityMain.Response body code ->
  Json.loads body = Ok (JArr (good ++ bad :: rest)) ->
  Forall2 (fun ev line =>
             Activity.format_event repr_other capitalize_other ev = Ok line)
    good lines ->
  Activity.format_event repr_other capitalize_other bad = Raise e ->
  ((length good < 10)%nat ->
   main [prog; arg]
   = (ActivityMain.Fetching (strip arg)
        :: map ActivityMain.EventLine (map (app (txt "- ")) lines),
      ActivityMain.Uncaught e))
  /\ ((10 <= length good)%nat ->
      main [prog; arg]
      = (ActivityMain.Fetching (strip arg)
           :: map ActivityMain.EventLine
                (map (app (txt "- ")) (take 10 lines)),
         ActivityMain.Return)).
Proof.
  intros Hname Hreply Hload Hgood Hbad.
  assert (good ++ bad :: rest <> []) as Hne by by destruct good.
  rewrite (main_on_a_list prog arg body code _ Hname Hreply Hload Hne).
  unfold Activity.print_activity. split; intros Hlen.
  - rewrite take_app_ge by lia.
    destruct (10 - length good)%nat as [|k] eqn:Ek; [lia|].
    cbn [take]. by rewrite (print_events_stops good _ bad lines e Hgood Hbad).
  - rewrite take_app_le by lia.
    rewrite (print_events_all_formatted repr_other capitalize_other
               (take 10 good) (take 10 lines)); [done|].
    by apply Forall2_take.
Qed.

Lemma slice10_of_a_string (c : N) (s : text) :
  Activity.print_events repr_other capitalize_other
    (map (fun c => JStr [c]) (take 10 (c :: s)))
  = ([], Some (AttributeError "get")).
Proof. done. Qed.

(** The two ways of a reply that is no list of events; [E] is the
    equation of the test that decides whether the value is true. *)
Ltac no_return E :=
  split;
  [ by intros [=]
  | intros [Hn [H|(items & H & _)]];
    [cbn [truthy] in H; rewrite ?E in H; done|discriminate H] ].

Ltac returns_falsy E :=
  split;
  [ intros _; split; [done|left; cbn [truthy]; by rewrite ?E]
  | done ].

(** X15.  [main] returns normally exactly when it is given one argument
    that is not blank, the request is answered, the body is the text of
    a JSON value other than [null], and that value is false as a
    condition (an empty list, but also [0], an empty string or an empty
    object) or is a list whose first ten events have a line each.  When
    it exits, the code is 1; it prints at most ten lines of events. *)
Theorem main_returns_exactly_for_an_answer_it_can_print (argv : list text) :
  ((main argv).2 = ActivityMain.Return
   <-> exists prog arg body code data,
         argv = [prog; arg]
         /\ strip arg <> []
         /\ urlopen (events_url (strip arg)) = ActivityMain.Response body code
         /\ Json.loads body = Ok data
         /\ data <> JNull
         /\ (truthy data = false
             \/ exists items,
                  data = JArr items /\ Forall formats (take 10 items)))
  /\ (forall code, (main argv).2 = ActivityMain.Exit code -> code = 1%Z)
  /\ (length (event_lines (main argv).1) <= 10)%nat.
Proof.
  unfold main, ActivityMain.main.
  destruct argv as [|prog [|arg [|x argv]]];
    try (split; [split; [done|by intros (? & ? & ? & ? & ? & [=] & _)]|];
         split; [by intros code [= <-]|simpl; lia]).
  destruct (strip arg) as [|c u] eqn:Eu.
  { split; [split; [done|]|split; [by intros code [= <-]|simpl; lia]].
    intros (? & ? & ? & ? & ? & [= <- <-] & H & _). by rewrite Eu in H. }
  rewrite <- Eu. unfold ActivityMain.fetch_github_events.
  fold (events_url (strip arg)).
  assert (forall notices : list ActivityMain.notice,
            Forall (fun n => forall line, n <> ActivityMain.EventLine line)
              notices ->
            event_lines notices = []) as Hnone.
  { intros notices H. induction H as [|n notices Hn _ IH]; [done|].
    destruct n; try done. by destruct (Hn line). }
  assert (forall notices : list ActivityMain.notice,
            Forall (fun n => forall line, n <> ActivityMain.EventLine line)
              notices ->
            (length (event_lines
                       (ActivityMain.Fetching (strip arg) :: notices))
             <= 10)%nat) as Hfew.
  { intros notices H. change (event_lines (ActivityMain.Fetching (strip arg)
                                             :: notices))
      with (event_lines notices).
    rewrite Hnone by done. simpl. lia. }
  assert (forall end_ : ActivityMain.ending,
            end_ <> ActivityMain.Return ->
            (forall code, end_ = ActivityMain.Exit code -> code = 1%Z) ->
            forall notices,
              Forall (fun n => forall line, n <> ActivityMain.EventLine line)
                notices ->
              (forall body code data,
                 urlopen (events_url (strip arg))
                 = ActivityMain.Response body code ->
                 Json.loads body = Ok data -> data <> JNull ->
                 truthy data = true
                 /\ forall items, data = JArr items ->
                      ~ Forall formats (take 10 items)) ->
              (end_ = ActivityMain.Return
               <-> exists prog0 arg0 body code data,
                     [prog; arg] = [prog0; arg0]
                     /\ strip arg0 <> []
                     /\ urlopen (events_url (strip arg0))
                        = ActivityMain.Response body code
                     /\ Json.loads body = Ok data
                     /\ data <> JNull
                     /\ (truthy data = false
                         \/ exists items,
                              data = JArr items
                              /\ Forall formats (take 10 items)))
              /\ (forall code, end_ = ActivityMain.Exit code -> code = 1%Z)
              /\ (length (event_lines
                            (ActivityMain.Fetching (strip arg) :: notices))
                  <= 10)%nat) as Hbad.
  { intros end_ Hend Hexit notices Hnot Hno.
    split; [|split; [done|by apply Hfew]].
    split; [done|].
    intros (? & ? & body & code & data & [= <- <-] & _ & Hr & Hl & Hn & Hd).
    destruct (Hno body code data Hr Hl Hn) as [Ht Hi].
    destruct Hd as [Hd|(items & -> & Hall)]; [congruence|].
    by destruct (Hi items eq_refl). }
  destruct (urlopen (events_url (strip arg))) as [body code|code reason|reason|]
    eqn:Hreply;
    try (apply Hbad;
         [ done
         | by intros ? [= <-]
         | repeat constructor; intros line; by repeat case_match
         | by intros ? ? ? [=] ]).
  destruct (Json.loads body) as [data|e] eqn:Hload;
    [|apply Hbad; [done|by intros ? [= <-]|by repeat constructor|];
      intros ? ? ? [= <- <-]; by rewrite Hload].
  assert (forall P : Prop,
            (P <-> data <> JNull /\ (truthy data = false
                     \/ exists items, data = JArr items
                                      /\ Forall formats (take 10 items))) ->
            (P <-> exists prog0 arg0 body0 code0 data0,
                     [prog; arg] = [prog0; arg0]
                     /\ strip arg0 <> []
                     /\ urlopen (events_url (strip arg0))
                        = ActivityMain.Response body0 code0
                     /\ Json.loads body0 = Ok data0
                     /\ data0 <> JNull
                     /\ (truthy data0 = false
                         \/ exists items,
                              data0 = JArr items
                              /\ Forall formats (take 10 items)))) as Hiff.
  { intros P ->. split.
    - intros [Hn Hd]. exists prog, arg, body, code, data.
      rewrite Eu. by rewrite <- Eu at 2.
    - intros (? & ? & body0 & code0 & data0 & [= <- <-] & _ & Hr & Hl & Hn & Hd).
      rewrite Hreply in Hr. injection Hr as <- <-.
      rewrite Hload in Hl. injection Hl as <-. done. }
  assert (forall n : ActivityMain.notice,
            (length (event_lines [ActivityMain.Fetching (strip arg); n]) <= 10)%nat)
    as Hone by (intros n; destruct n; simpl; lia).
  destruct data as [|b|n|lexeme|s|items|members];
    cbn [fst snd truthy negb ActivityMain.slice10].
  - split; [apply Hiff; split; [by intros [=]|by intros [[] _]]|].
    split; [by intros ? [= <-]|by apply Hfew].
  - destruct b; cbn [negb]; (split; [apply Hiff|split; [by intros ? [=]|]]).
    + no_return I.
    + by apply Hfew.
    + returns_falsy I.
    + apply Hone.
  - destruct (n =? 0)%Z eqn:En; cbn [negb];
      (split; [apply Hiff|split; [by intros ? [=]|]]).
    + returns_falsy En.
    + apply Hone.
    + no_return En.
    + by apply Hfew.
  - destruct (mantissa_is_zero lexeme) eqn:En; cbn [negb];
      (split; [apply Hiff|split; [by intros ? [=]|]]).
    + returns_falsy En.
    + apply Hone.
    + no_return En.
    + by apply Hfew.
  - destruct s as [|c0 s]; cbn [negb];
      [|rewrite slice10_of_a_string; cbn [map app snd fst]; rewrite ?app_nil_r];
      (split; [apply Hiff|split; [by intros ? [=]|]]).
    + returns_falsy I.
    + apply Hone.
    + no_return I.
    + by apply Hfew.
  - destruct items as [|ev items]; cbn [negb].
    + split; [apply Hiff|split; [by intros ? [=]|]];
        [returns_falsy I|apply Hone].
    + pose proof (print_events_none (take 10 (ev :: items))) as Hnone10.
      pose proof (print_events_length repr_other capitalize_other
                    (take 10 (ev :: items))) as Hlen.
      destruct (Activity.print_events repr_other capitalize_other
                  (take 10 (ev :: items))) as [lines o].
      cbn [fst snd] in *.
      split; [apply Hiff|split].
      * destruct o as [e|].
        -- split; [by intros [=]|].
           intros [_ [H|(items' & [= <-] & Hall)]]; [done|].
           apply Hnone10 in Hall. done.
        -- split; [|done]. intros _. split; [done|]. right.
           exists (ev :: items). split; [done|]. by apply Hnone10.
      * by destruct o.
      * cbn [app].
        change (event_lines (ActivityMain.Fetching (strip arg)
                               :: map ActivityMain.EventLine lines))
          with (event_lines (map ActivityMain.EventLine lines)).
        assert (event_lines (map ActivityMain.EventLine lines) = lines) as ->
          by (clear; by induction lines as [|l lines IH]; [|simpl; f_equal]).
        rewrite length_take in Hlen. lia.
  - destruct members as [|kv members]; cbn [negb];
      (split; [apply Hiff|split; [by intros ? [=]|]]).
    + returns_falsy I.
    + apply Hone.
    + no_return I.
    + by apply Hfew.
Qed.


(** X16.  The line of an [IssuesEvent] is the action capitalized, then
    the number of the issue and the name of the repository, for every
    action that is a string: for the actions [opened] and [closed],
    which [format_event] treats apart, the line is the one that the
    general case would give. *)
Theorem the_line_of_an_issue_is_its_action_capitalized
  (members : list (text * json)) (repo n : json) (action : text) :
  let event := JObj members in
  dict_get (txt "type") members = Some (JStr (txt "IssuesEvent")) ->
  fetch event ["repo"; "name"]%string = Ok repo ->
  fetch event ["payload"; "action"]%string = Ok (JStr action) ->
  fetch event ["payload"; "issue"; "number"]%string = Ok n ->
  Activity.format_event repr_other capitalize_other event
  = Ok (Activity.capitalize capitalize_other action ++ txt " issue #"
        ++ Activity.str_of repr_other n ++ txt " in "
        ++ Activity.str_of repr_other repo).
Proof.
  intros event Hty Hrepo Ha Hn; subst event.
  apply fetch_two in Hrepo as (r & Er & En).
  apply fetch_two in Ha as (p & Ep & Ea).
  apply fetch_three in Hn as (p' & i & Ep' & Ei & En').
  rewrite Ep in Ep'. injection Ep' as <-.
  unfold Activity.format_event, get_default. rewrite Hty.
  cbn [mbind result_bind]. rewrite Er. cbn [mbind result_bind].
  rewrite En. cbn [mbind result_bind].
  change (Activity.is_str (JStr (txt "IssuesEvent")) "PushEvent") with false.
  change (Activity.is_str (JStr (txt "IssuesEvent")) "IssuesEvent") with true.
  cbv iota. rewrite Ep. cbn [mbind result_bind]. rewrite Ea, Ei.
  cbn [mbind result_bind]. rewrite En'. cbn [mbind result_bind].
  destruct (Activity.is_str (JStr action) "opened") eqn:A1.
  { apply is_str_true in A1 as ->. reflexivity. }
  destruct (Activity.is_str (JStr action) "closed") eqn:A2.
  { apply is_str_true in A2 as ->. reflexivity. }
  reflexivity.
Qed.

End ActivityRuns.

Lemma main_stops_witness :
  let body :=
    Json.dumps (JArr [JObj push_event; JObj [(txt "type", JStr (txt "X"))];
                      JObj issues_event]) in
  let main :=
    ActivityMain.main (fun _ => []) (fun s => s)
      (fun _ => ActivityMain.Response body 200) TypeError in
  ((length [JObj push_event] < 10)%nat ->
   main [txt "main.py"; txt " octo "]
   = (ActivityMain.Fetching (strip (txt " octo "))
        :: map ActivityMain.EventLine
             (map (app (txt "- ")) [txt "Pushed to octo/cat"]),
      ActivityMain.Uncaught (KeyError (txt "repo"))))
  /\ ((10 <= length [JObj push_event])%nat ->
      main [txt "main.py"; txt " octo "]
      = (ActivityMain.Fetching (strip (txt " octo "))
           :: map ActivityMain.EventLine
                (map (app (txt "- ")) (take 10 [txt "Pushed to octo/cat"])),
         ActivityMain.Return)).
Proof.
  intros body main.
  apply (main_stops_at_the_first_event_without_a_line
           (fun _ => []) (fun s => s)
           (fun _ => ActivityMain.Response body 200) TypeError
           (txt "main.py") (txt " octo ") body 200
           [JObj push_event] [JObj issues_event]
           (JObj [(txt "type", JStr (txt "X"))])
           [txt "Pushed to octo/cat"] (KeyError (txt "repo"))).
  - discriminate.
  - reflexivity.
  - vm_compute. reflexivity.
  - repeat constructor.
  - reflexivity.
Defined.

Lemma the_line_of_an_issue_witness :
  Activity.format_event (fun _ => []) (fun s => s) (JObj issues_event)
  = Ok (Activity.capitalize (fun s => s) (txt "reopened") ++ txt " issue #"
        ++ Activity.str_of (fun _ => []) (JInt 42) ++ txt " in "
        ++ Activity.str_of (fun _ => []) (JStr (txt "octo/cat"))).
Proof.
  apply (the_line_of_an_issue_is_its_action_capitalized
           (fun _ => []) (fun s => s) issues_event
           (JStr (txt "octo/cat")) (JInt 42) (txt "reopened"));
    reflexivity.
Defined.

(** ** The text of the store file *)

Lemma ascii_only_app (a b : text) :
  ascii_only (a ++ b) = ascii_only a && ascii_only b.
Proof. apply forallb_app. Qed.

Lemma hexdigit_ascii (d : N) : d < 16 -> (Json.hexdigit d <? 128) = true.
Proof.
  intros H. unfold Json.hexdigit. apply N.ltb_lt.
  destruct (d <? 10) eqn:E; [apply N.ltb_lt in E|]; lia.
Qed.

Lemma uescape_ascii (n : N) : ascii_only (Json.uescape n) = true.
Proof.
  unfold Json.uescape, Json.hex4, ascii_only. cbn [forallb].
  rewrite !hexdigit_ascii by (apply N.mod_lt; lia). done.
Qed.

Lemma escape_char_ascii (c : N) : ascii_only (Json.escape_char c) = true.
Proof.
  unfold Json.escape_char.
  repeat (match goal with |- context [if ?b then _ else _] =>
            destruct b eqn:?; [try done|] end).
  - unfold ascii_only. cbn [forallb].
    match goal with
    | H : (_ && (c <=? 126)) = true |- _ => apply andb_true_iff in H as [_ H];
                                           apply N.leb_le in H
    end.
    rewrite andb_true_r. apply N.ltb_lt. lia.
  - apply uescape_ascii.
  - cbv zeta. rewrite ascii_only_app, !uescape_ascii. done.
Qed.

Lemma encode_string_ascii (s : text) : ascii_only (Json.encode_string s) = true.
Proof.
  unfold Json.encode_string. change (ascii_only (dquote :: ?l))
    with (ascii_only l).
  rewrite ascii_only_app. rewrite andb_true_r.
  induction s as [|c s IH]; [done|]. cbn [map concat].
  by rewrite ascii_only_app, escape_char_ascii, IH.
Qed.

Lemma digits_before_ascii (fuel : nat) (n : N) (acc : text) :
  ascii_only acc = true -> ascii_only (Json.digits_before fuel n acc) = true.
Proof.
  revert n acc. induction fuel as [|fuel IH]; intros n acc H; [done|].
  cbn [Json.digits_before].
  assert (ascii_only ((48 + n mod 10) :: acc) = true) as H'.
  { unfold ascii_only in *. cbn [forallb]. rewrite H, andb_true_r.
    apply N.ltb_lt. pose proof (N.mod_lt n 10). lia. }
  destruct (n <? 10); [done|by apply IH].
Qed.

Lemma decimal_ascii (n : Z) : ascii_only (Json.decimal n) = true.
Proof.
  destruct n as [|p|p]; [done| |];
    unfold Json.decimal, Json.decimal_N; [|change (ascii_only (45 :: ?l))
                                             with (ascii_only l)];
    by apply digits_before_ascii.
Qed.

Lemma newline_indent_ascii (lvl : nat) :
  ascii_only (Json.newline_indent lvl) = true.
Proof.
  unfold Json.newline_indent. change (ascii_only (10 :: ?l)) with (ascii_only l).
  induction (4 * lvl)%nat as [|k IH]; [done|]. exact IH.
Qed.

Lemma join_ascii (sep : text) (chunks : list text) :
  ascii_only sep = true -> Forall (fun c => ascii_only c = true) chunks ->
  ascii_only (Json.join sep chunks) = true.
Proof.
  intros Hsep H. induction H as [|c chunks Hc _ IH]; [done|].
  destruct chunks as [|c' chunks]; [done|].
  change (Json.join sep (c :: c' :: chunks))
    with (c ++ sep ++ Json.join sep (c' :: chunks)).
  by rewrite !ascii_only_app, Hc, Hsep, IH.
Qed.

Lemma no_float_items (items : list json) :
  fold_right (fun x acc => no_float x /\ acc) True items
  <-> Forall no_float items.
Proof.
  induction items as [|x items IH]; simpl; [done|].
  rewrite IH, Forall_cons. done.
Qed.

Lemma no_float_members (members : list (text * json)) :
  fold_right (fun kv acc => no_float kv.2 /\ acc) True members
  <-> Forall (fun kv => no_float kv.2) members.
Proof.
  induction members as [|x members IH]; simpl; [done|].
  rewrite IH, Forall_cons. done.
Qed.

(** With [ensure_ascii], which is the default of [json.dump], the text
    of a value without floats is ASCII. *)
Lemma encode_ascii (v : json) :
  no_float v -> forall lvl, ascii_only (Json.encode lvl v) = true.
Proof.
  induction v as [|b|n|lexeme|s|items IH|members IH] using json_nested_ind;
    intros Hv lvl.
  - done.
  - by destruct b.
  - apply decimal_ascii.
  - done.
  - apply encode_string_ascii.
  - destruct items as [|x items]; [done|].
    apply no_float_items in Hv.
    change (Json.encode lvl (JArr (x :: items)))
      with (txt "[" ++ Json.newline_indent (S lvl)
            ++ Json.join (txt "," ++ Json.newline_indent (S lvl))
                 (map (Json.encode (S lvl)) (x :: items))
            ++ Json.newline_indent lvl ++ txt "]").
    rewrite !ascii_only_app, !newline_indent_ascii, join_ascii; [done| |].
    + by rewrite ascii_only_app, newline_indent_ascii.
    + apply Forall_map. rewrite Forall_forall in *.
      intros y Hy. by apply IH, Hv.
  - destruct members as [|kv members]; [done|].
    apply no_float_members in Hv.
    change (Json.encode lvl (JObj (kv :: members)))
      with (txt "{" ++ Json.newline_indent (S lvl)
            ++ Json.join (txt "," ++ Json.newline_indent (S lvl))
                 (map (fun kv => Json.encode_string kv.1 ++ txt ": "
                                 ++ Json.encode (S lvl) kv.2) (kv :: members))
            ++ Json.newline_indent lvl ++ txt "}").
    rewrite !ascii_only_app, !newline_indent_ascii, join_ascii; [done| |].
    + by rewrite ascii_only_app, newline_indent_ascii.
    + apply Forall_map. rewrite Forall_forall in *.
      intros y Hy. rewrite !ascii_only_app, encode_string_ascii.
      rewrite (IH y Hy) by by apply Hv. done.
Qed.

(** X17.  The text that [save_tasks] writes is ASCII, whatever
    characters the descriptions hold: [json.dump] escapes every
    character outside printable ASCII.  This holds for every list of
    tasks whose attributes hold no float, and so for the tasks of the
    list with a task added for any description. *)
Theorem the_store_file_is_written_in_ascii (ts : list Task) :
  Forall (fun t => no_float (description t) /\ no_float (completed t)) ts ->
  ascii_only (snapshot ts) = true
  /\ (forall d, ascii_only (snapshot (ts ++ [new_task d])) = true)
  /\ forall f w,
       writable w f = true ->
       disk (Tracker.save_tasks (Tracker.mkTracker f (Some ts)) w) !! f
       = Some (File (snapshot ts)).
Proof.
  intros H.
  assert (forall l : list Task,
            Forall (fun t => no_float (description t) /\ no_float (completed t)) l ->
            ascii_only (snapshot l) = true) as Hascii.
  { intros l Hl. unfold snapshot, Json.dumps. apply encode_ascii.
    cbn [no_float]. apply no_float_items, Forall_map.
    eapply Forall_impl; [exact Hl|]. intros t [Hd Hc]. cbn. done. }
  split; [by apply Hascii|]. split.
  - intros d. apply Hascii, Forall_app. split; [done|]. by repeat constructor.
  - intros f w Hw. rewrite save_tasks_disk, Hw. apply lookup_insert_eq.
Qed.

Lemma the_store_file_is_written_in_ascii_witness :
  let ts := [mkTask (JStr [233; 128512; 10; 55357]) (JBool true)] in
  ascii_only (snapshot ts) = true
  /\ (forall d, ascii_only (snapshot (ts ++ [new_task d])) = true)
  /\ forall f w,
       writable w f = true ->
       disk (Tracker.save_tasks (Tracker.mkTracker f (Some ts)) w) !! f
       = Some (File (snapshot ts)).
Proof.
  intros ts. apply (the_store_file_is_written_in_ascii ts).
  by repeat constructor.
Defined.

(** ** How the operations compose *)

Lemma task_at_in_range (ts : list Task) (i : Z) :
  in_range ts i <-> exists t, task_at ts i = Some t.
Proof.
  split.
  - intros H. destruct (in_range_lookup ts i H) as [t Ht]. exists t.
    apply task_at_lookup. split; [apply H|done].
  - intros [t H]. apply task_at_lookup in H as [H1 H2].
    apply lookup_lt_Some in H2. unfold in_range. lia.
Qed.

(** The list of the tracker after [complete_task]. *)
Lemma complete_task_list (f : path) (ts : list Task) (w : world) (i : Z) :
  (Tracker.complete_task (Tracker.mkTracker f (Some ts)) i w).1
  = Ok (Tracker.mkTracker f (Some (completed_at i ts))).
Proof.
  unfold completed_at. destruct (task_at ts i) as [t|] eqn:E.
  - apply task_at_lookup in E as H. destruct H as [H1 H2].
    assert (in_range ts i) as Hr by (apply task_at_in_range; eauto).
    by rewrite (complete_task_accepted f ts w i t).
  - assert (~ in_range ts i) as Hr.
    { intros H. apply task_at_in_range in H as [t H]. congruence. }
    by destruct (complete_task_rejected f ts w i Hr) as [m ->].
Qed.

Lemma completed_at_length (i : Z) (ts : list Task) :
  length (completed_at i ts) = length ts.
Proof.
  unfold completed_at. destruct (task_at ts i); [apply length_insert|done].
Qed.

Lemma task_at_completed_at (i k : Z) (ts : list Task) :
  task_at (completed_at i ts) k
  = if decide (k = i) then Tracker.set_completed <$> task_at ts k
    else task_at ts k.
Proof.
  unfold completed_at. destruct (task_at ts i) as [t|] eqn:E.
  - apply task_at_lookup in E as H. destruct H as [H1 H2].
    destruct (decide (k = i)) as [->|Hne].
    + rewrite E. cbn. apply task_at_lookup. split; [done|].
      apply list_lookup_insert_eq. by eapply lookup_lt_Some.
    + by apply task_at_insert_ne.
  - destruct (decide (k = i)) as [->|Hne]; [by rewrite E|done].
Qed.

Lemma task_at_ext (l1 l2 : list Task) :
  (forall k, task_at l1 k = task_at l2 k) -> l1 = l2.
Proof.
  intros H. apply list_eq. intros n.
  specialize (H (Z.of_nat n + 1)%Z). unfold task_at in H.
  assert ((Z.of_nat n + 1 <? 1)%Z = false) as E by (apply Z.ltb_ge; lia).
  rewrite E in H. by replace (Z.to_nat (Z.of_nat n + 1 - 1)) with n in H by lia.
Qed.

(** X18.  How the operations compose on the list of the tracker.  To
    add a task and then remove the task at the last position gives the
    list before.  To complete a task and then remove it gives what
    removing it at once gives.  Completing two tasks gives the same list
    in either order, also when the two are the same task or when an
    index is out of range. *)
Theorem the_operations_compose
  (f : path) (ts : list Task) (w : world) (d : text) (i j : Z) :
  let self := Tracker.mkTracker f (Some ts) in
  (blank d = false ->
   (run [Add d; Remove (Z.of_nat (length ts) + 1)] self w).1 = Ok self)
  /\ (run [Complete i; Remove i] self w).1 = (run [Remove i] self w).1
  /\ (run [Complete i; Complete j] self w).1
     = (run [Complete j; Complete i] self w).1.
Proof.
  intros self; subst self. split; [|split].
  - intros Hd. cbn [run run_command]. rewrite add_task_accepted by done.
    cbn iota. fold (new_task d).
    assert (in_range (ts ++ [new_task d]) (Z.of_nat (length ts) + 1)) as Hr.
    { unfold in_range. rewrite length_app. simpl. lia. }
    assert ((ts ++ [new_task d]) !! Z.to_nat (Z.of_nat (length ts) + 1 - 1)
            = Some (new_task d)) as Ht.
    { replace (Z.to_nat (Z.of_nat (length ts) + 1 - 1)) with (length ts) by lia.
      by rewrite lookup_app_r, Nat.sub_diag by lia. }
    rewrite (remove_task_accepted f _ _ _ (new_task d) Hr Ht). cbn [fst].
    replace (Z.to_nat (Z.of_nat (length ts) + 1 - 1)) with (length ts) by lia.
    by rewrite delete_middle, app_nil_r.
  - cbn [run run_command].
    pose proof (complete_task_list f ts w i) as Hc.
    destruct (Tracker.complete_task (Tracker.mkTracker f (Some ts)) i w)
      as [r1 w1]. cbn [fst] in Hc. subst r1.
    destruct (decide (in_range ts i)) as [Hr|Hr].
    + destruct (in_range_lookup ts i Hr) as [t Ht].
      assert (in_range (completed_at i ts) i) as Hr'.
      { unfold in_range. by rewrite completed_at_length. }
      assert (completed_at i ts !! Z.to_nat (i - 1)
              = Some (Tracker.set_completed t)) as Ht'.
      { pose proof (task_at_completed_at i i ts) as H.
        rewrite decide_True in H by done.
        assert (task_at ts i = Some t) as E
          by (apply task_at_lookup; split; [apply Hr|done]).
        rewrite E in H. by apply task_at_lookup in H as [_ H]. }
      rewrite (remove_task_accepted f _ w1 i _ Hr' Ht').
      rewrite (remove_task_accepted f ts w i t Hr Ht). cbn [fst].
      do 3 f_equal. unfold completed_at.
      assert (task_at ts i = Some t) as ->
        by (apply task_at_lookup; split; [apply Hr|done]).
      apply list_eq. intros n.
      destruct (decide (n < Z.to_nat (i - 1))%nat).
      * rewrite !list_lookup_delete_lt by done.
        by rewrite list_lookup_insert_ne by lia.
      * rewrite !list_lookup_delete_ge by lia.
        by rewrite list_lookup_insert_ne by lia.
    + assert (~ in_range (completed_at i ts) i) as Hr'.
      { unfold in_range. by rewrite completed_at_length. }
      destruct (remove_task_rejected f _ w1 i Hr') as [m ->].
      destruct (remove_task_rejected f ts w i Hr) as [m' ->]. cbn [fst].
      unfold completed_at.
      destruct (task_at ts i) as [t|] eqn:E; [|done].
      destruct Hr. apply task_at_in_range. eauto.
  - cbn [run run_command].
    pose proof (complete_task_list f ts w i) as Hi.
    pose proof (complete_task_list f ts w j) as Hj.
    destruct (Tracker.complete_task (Tracker.mkTracker f (Some ts)) i w)
      as [r1 w1]. cbn [fst] in Hi. subst r1.
    destruct (Tracker.complete_task (Tracker.mkTracker f (Some ts)) j w)
      as [r2 w2]. cbn [fst] in Hj. subst r2.
    rewrite (surjective_pairing (Tracker.complete_task _ j w1)).
    rewrite (surjective_pairing (Tracker.complete_task _ i w2)).
    rewrite !complete_task_list. cbn [fst]. do 3 f_equal.
    apply task_at_ext. intros k. rewrite !task_at_completed_at.
    destruct (decide (k = i)), (decide (k = j)); done.
Qed.

Lemma the_operations_compose_witness :
  let self := Tracker.mkTracker app_store (Some three_tasks) in
  (blank (txt "milk") = false ->
   (run [Add (txt "milk"); Remove (Z.of_nat (length three_tasks) + 1)]
      self app_world).1 = Ok self)
  /\ (run [Complete 1; Remove 1] self app_world).1
     = (run [Remove 1] self app_world).1
  /\ (run [Complete 1; Complete 3] self app_world).1
     = (run [Complete 3; Complete 1] self app_world).1.
Proof.
  apply (the_operations_compose
           app_store three_tasks app_world (txt "milk") 1 3).
Defined.
